(** * Copy-trader service: swap classifier, subscription registry,
      purchase-quota gate and webhook dispatcher

    A shallow embedding of the TypeScript sources
    ([utils/swapClassifier.ts], [services/cache/CacheService.ts],
    [services/cache/TokenPurchaseTracker.ts],
    [services/blockchain/HeliusWebhookService.ts],
    [services/messaging/MessageProcessor.ts] and the [CopyTradingService]
    entry point) together with the properties the specification states
    about them and further properties of the same code.

    Modelling conventions.
    - A JavaScript [number] is an exact rational or [NaN]; every arithmetic
      operation returns a reduced fraction, so that two computed numbers are
      equal as terms exactly when they are equal as numbers.  Infinities,
      the sign of zero and binary rounding are outside the model; what
      turns on the sign or the vanishing of a computed number is stated
      where rounding cannot change them: for a sum with a single term, and
      for powers of ten and quotients in the range of the finite doubles.
    - A JavaScript [Map] is an association list in insertion order.
    - An exception raised inside a [try] block is [None] in the option
      monad; the [catch] clause is the [default].
    - The Redis store is a record of finite maps, one per key family.
      Time is not modelled: the expiry of a key that carries a TTL is an
      event of its own, which deletes the key.  A run of calls or of
      operations is one in which the events listed happen and no other.
    - Generated identifiers, the clock and the replies of the external
      provider are explicit arguments.  The store and the message bus
      answer every command, except where a fault is an explicit argument
      of the call. *)

From Stdlib Require Import QArith Qabs Qpower ZArith String List Ascii.
From stdpp Require Import gmap strings list fin_maps sorting.

Local Open Scope string_scope.
Local Open Scope list_scope.
Local Open Scope Z_scope.

#[local] Set Warnings "-clear-no-such-hyp".

(** ** JavaScript numbers *)

Module Js.

Inductive num : Type :=
| Fin (q : Q)
| NaN.

Definition ofZ (z : Z) : num := Fin (inject_Z z).

Definition add (a b : num) : num :=
  match a, b with
  | Fin x, Fin y => Fin (Qred (x + y))
  | _, _ => NaN
  end.

Definition mul (a b : num) : num :=
  match a, b with
  | Fin x, Fin y => Fin (Qred (x * y))
  | _, _ => NaN
  end.

(** Division by a non-zero number only; [x / 0] is an infinity or [NaN] in
    JavaScript and is [NaN] here. *)
Definition div (a b : num) : num :=
  match a, b with
  | Fin x, Fin y => if Qeq_bool y 0 then NaN else Fin (Qred (x / y))
  | _, _ => NaN
  end.

(** [10 ** d] for an integral exponent, exactly; in JavaScript the power
    is finite and not zero for [-323 <= d <= 308] only. *)
Definition pow10 (d : Z) : num := Fin (Qred (Qpower 10 d)).

(** [Math.abs]. *)
Definition abs (a : num) : num :=
  match a with
  | Fin x => Fin (Qred (Qabs x))
  | NaN => NaN
  end.

(** [a < b] and [a > b]: false as soon as one side is [NaN]. *)
Definition lt (a b : num) : bool :=
  match a, b with
  | Fin x, Fin y => negb (Qle_bool y x)
  | _, _ => false
  end.

Definition gt (a b : num) : bool := lt b a.

(** [a === 0]. *)
Definition isZero (a : num) : bool :=
  match a with
  | Fin x => Qeq_bool x 0
  | NaN => false
  end.

(** Truthiness of a number: [0] and [NaN] are falsy. *)
Definition truthy (a : num) : bool :=
  match a with
  | Fin x => negb (Qeq_bool x 0)
  | NaN => false
  end.

(** [x || 0] where [x] may be [undefined]. *)
Definition orZero (x : option num) : num :=
  match x with
  | Some a => if truthy a then a else ofZ 0
  | None => ofZ 0
  end.

(** [x ?? 0] where [x] may be [undefined]. *)
Definition nullishZero (x : option num) : num :=
  match x with
  | Some a => a
  | None => ofZ 0
  end.

Definition isNaN (a : num) : bool :=
  match a with NaN => true | Fin _ => false end.

(** *** Insertion-ordered [Map<string, V>] *)

Definition Map (V : Type) : Type := list (string * V).

Fixpoint get {V} (m : Map V) (k : string) : option V :=
  match m with
  | [] => None
  | (k', v) :: m' => if String.eqb k' k then Some v else get m' k
  end.

Definition has {V} (m : Map V) (k : string) : bool :=
  match get m k with Some _ => true | None => false end.

(** [m.set(k, v)]: an existing key keeps its position, a new key goes
    last. *)
Fixpoint set {V} (m : Map V) (k : string) (v : V) : Map V :=
  match m with
  | [] => [(k, v)]
  | (k', v') :: m' =>
      if String.eqb k' k then (k', v) :: m' else (k', v') :: set m' k v
  end.

Definition keys {V} (m : Map V) : list string := map fst m.

(** *** Strings *)

(** [s.startsWith("-")]. *)
Definition startsWithDash (s : string) : bool :=
  match s with
  | String c _ => Ascii.eqb c "-"%char
  | EmptyString => false
  end.

(** [s.replace('-', '')]: the first dash is removed, later ones stay. *)
Fixpoint removeFirstDash (s : string) : string :=
  match s with
  | EmptyString => EmptyString
  | String c s' =>
      if Ascii.eqb c "-"%char then s' else String c (removeFirstDash s')
  end.

(** [s.includes(t)]. *)
Fixpoint includes (s t : string) : bool :=
  String.prefix t s
  || match s with
     | EmptyString => false
     | String _ s' => includes s' t
     end.

(** A reading of the built-in [Number(s)] on the strings the webhook
    payloads carry: a non-empty run of decimal digits is its value, the
    empty string is [0], and a string with any other character is [NaN].
    The other literal forms of the built-in (white space, a sign, a
    fraction, an exponent, hexadecimal, [Infinity]) are not covered; the
    classifier is parametric in the built-in and this instance is used for
    concrete payloads only. *)
Definition digitValue (c : ascii) : option Z :=
  let n := Z.of_nat (nat_of_ascii c) in
  if ((48 <=? n) && (n <=? 57))%Z then Some (n - 48)%Z else None.

Fixpoint digitsValue (acc : Z) (s : string) : option Z :=
  match s with
  | EmptyString => Some acc
  | String c s' =>
      match digitValue c with
      | Some d => digitsValue (10 * acc + d)%Z s'
      | None => None
      end
  end.

Definition NumberOfDigits (s : string) : num :=
  match digitsValue 0%Z s with
  | Some z => ofZ z
  | None => NaN
  end.

End Js.

(** ** Swap classifier ([utils/swapClassifier.ts]) *)

Record RawTokenAmount := {
  decimals : Z;
  tokenAmount : string  (* signed string *)
}.

(** A token balance change as the type declares it: [rawTokenAmount] and
    its string [tokenAmount] are there.  (Without them [toHuman] raises;
    such payloads are not in this model.) *)
Record TokenBalanceChange := {
  tbc_mint : string;
  rawTokenAmount : RawTokenAmount;
  tokenAccount : string;
  userAccount : string
}.

(** [tokenBalanceChanges] is [None] when the payload omits the field;
    iterating over it then raises a [TypeError]. *)
Record Account := {
  account : string;
  nativeBalanceChange : Z;  (* lamports *)
  tokenBalanceChanges : option (list TokenBalanceChange)
}.

Record TokenTransfer := {
  fromTokenAccount : string;
  fromUserAccount : string;
  tt_mint : string;
  toTokenAccount : string;
  toUserAccount : string;
  tt_tokenAmount : Js.num
}.

Record TransactionData := {
  accountData : option (list Account);
  tokenTransfers : list TokenTransfer
}.

Inductive Side := buy | sell | unknown.

(** [{} as ParsedSwap] is [EmptySwap]; its [side] is [undefined]. *)
Inductive ParsedSwap :=
| EmptySwap
| Swap (side : Side) (tokenMint : string) (tokenAmount solAmount : Js.num).

Definition SOL_MINT : string := "So11111111111111111111111111111111111111112".

Definition UserChanges : Type := Js.Map (Js.Map Js.num).

Section Classifier.

(** The built-in [Number] applied to a string. *)
Variable Number : string -> Js.num.

(** Convert raw string amount to human-readable number. *)
Definition toHuman (raw : string) (decimals : Z) : Js.num :=
  let sign := if Js.startsWithDash raw then Js.ofZ (-1) else Js.ofZ 1 in
  let abs := Js.removeFirstDash raw in
  Js.div (Js.mul sign (Number abs)) (Js.pow10 decimals).

(** The body shared by both loops of [parseSwap]:
    [if (!userChanges.has(user)) userChanges.set(user, new Map());
     const mintMap = userChanges.get(user)!;
     mintMap.set(mint, (mintMap.get(mint) || 0) + delta);] *)
Definition addChange (userChanges : UserChanges) (user mint : string)
    (delta : Js.num) : UserChanges :=
  let uc := if Js.has userChanges user then userChanges
            else Js.set userChanges user [] in
  let mintMap := default [] (Js.get uc user) in
  Js.set uc user
    (Js.set mintMap mint (Js.add (Js.orZero (Js.get mintMap mint)) delta)).

Definition addTokenChange (uc : UserChanges) (tbc : TokenBalanceChange)
    : UserChanges :=
  let raw := rawTokenAmount tbc in
  addChange uc (userAccount tbc) (tbc_mint tbc)
    (toHuman (tokenAmount raw) (decimals raw)).

(** First loop: token balance changes.  A missing [tokenBalanceChanges]
    raises. *)
Fixpoint tokenLoop (accs : list Account) (uc : UserChanges)
    : option UserChanges :=
  match accs with
  | [] => Some uc
  | acc :: accs' =>
      tbcs ← tokenBalanceChanges acc;
      tokenLoop accs' (fold_left addTokenChange tbcs uc)
  end.

(** Second loop: native SOL balance changes, attributed to the account
    itself. *)
Definition addNativeChange (uc : UserChanges) (acc : Account) : UserChanges :=
  if (nativeBalanceChange acc =? 0)%Z then uc
  else addChange uc (account acc) SOL_MINT
         (Js.div (Js.ofZ (nativeBalanceChange acc)) (Js.ofZ 1000000000)).

Definition buildUserChanges (tx : TransactionData) : option UserChanges :=
  accs ← accountData tx;
  uc ← tokenLoop accs [];
  Some (fold_left addNativeChange accs uc).

(** [targetUser ?? [...userChanges.keys()][0]], followed by
    [if (!userToCheck) return {}]: the empty string is falsy. *)
Definition userToCheck (uc : UserChanges) (targetUser : option string)
    : option string :=
  let u := match targetUser with
           | Some t => Some t
           | None => head (Js.keys uc)
           end in
  match u with
  | Some s => if String.eqb s "" then None else Some s
  | None => None
  end.

Definition tokenEntries (changes : Js.Map Js.num) : list (string * Js.num) :=
  List.filter (fun e => negb (String.eqb (fst e) SOL_MINT)) changes.

Definition solChange (changes : Js.Map Js.num) : Js.num :=
  Js.nullishZero (Js.get changes SOL_MINT).

(** Steps 3 and 4 of [parseSwap] on the selected user's mint map. *)
Definition classifyChanges (changes : Js.Map Js.num) : ParsedSwap :=
  match tokenEntries changes with
  | [(tokenMint, tokenChange)] =>
      if Js.isZero (solChange changes) || Js.isZero tokenChange then EmptySwap
      else
        let side :=
          if Js.lt (solChange changes) (Js.ofZ 0)
             && Js.gt tokenChange (Js.ofZ 0)
          then buy
          else if Js.lt tokenChange (Js.ofZ 0)
                  && Js.gt (solChange changes) (Js.ofZ 0)
          then sell
          else unknown in
        Swap side tokenMint (Js.abs tokenChange) (Js.abs (solChange changes))
  | _ => EmptySwap
  end.

(** The [try] block of [parseSwap]; [None] is a raised exception. *)
Definition parseSwapBody (tx : TransactionData) (targetUser : option string)
    : option ParsedSwap :=
  uc ← buildUserChanges tx;
  match userToCheck uc targetUser with
  | None => Some EmptySwap
  | Some u =>
      match Js.get uc u with
      | None => Some EmptySwap
      | Some changes => Some (classifyChanges changes)
      end
  end.

(** [parseSwap]: the [catch] clause returns [{}]. *)
Definition parseSwap (tx : TransactionData) (targetUser : option string)
    : ParsedSwap :=
  default EmptySwap (parseSwapBody tx targetUser).

End Classifier.

Definition sideOf (r : ParsedSwap) : option Side :=
  match r with
  | EmptySwap => None
  | Swap s _ _ _ => Some s
  end.

(** ** Subscriptions ([types/index.ts]) *)

Record WatchConfig := {
  takeProfitPercentage : option Js.num;
  stopLossPercentage : option Js.num;
  enableTrailingStop : option bool;
  trailingPercentage : option Js.num;
  maxHoldTimeMinutes : option Js.num
}.

Record TradingHours := {
  th_start : string;
  th_end : string;
  th_timezone : string
}.

Record SubscriptionSettings := {
  enableSlippageProtection : option bool;
  maxSlippagePercent : option Js.num;
  enableDexWhitelist : option bool;
  allowedDexes : option (list string);
  enableTokenBlacklist : option bool;
  blacklistedTokens : option (list string);
  enableTimeRestrictions : option bool;
  tradingHours : option TradingHours
}.

Inductive SubscriptionType := trade | watch.

(** [Omit<UserSubscription, 'id' | 'createdAt' | 'updatedAt'>]. *)
Record SubscriptionInput := {
  userId : string;
  kolWallet : string;
  isActive : bool;
  copyPercentage : Js.num;  (* 0-100% *)
  maxAmount : option Js.num;
  minAmount : option Js.num;
  tokenBuyCount : option Z;  (* number of times to buy a token *)
  privateKey : string;
  walletAddress : string;
  settings : option SubscriptionSettings;
  type : SubscriptionType;
  watchConfig : option WatchConfig
}.

(** A stored subscription: the object literal
    [{...subscription, id, createdAt, updatedAt}].  Instants are
    milliseconds since the epoch. *)
Record UserSubscription := {
  id : string;
  createdAt : Z;
  updatedAt : Z;
  fields : SubscriptionInput
}.

(** What [uuidv4()] and the two [new Date()] calls of one
    [addSubscription] return. *)
Record Fresh := {
  freshId : string;
  nowCreated : Z;
  nowUpdated : Z
}.

Record TokenPurchaseRecord := {
  pr_userId : string;
  pr_tokenMint : string;
  currentCount : Z;
  maxCount : Z;
  lastPurchaseTimestamp : Z;
  subscriptionId : string
}.

(** ** The Redis store

    [subs] holds the JSON lists under [sub:user:<userId>], [sets] the set
    keys [kol:active] and [kol:subscribers:<wallet>], [counts] the integer
    counters and [purchaseRecords] the JSON purchase records of the
    purchase tracker.  The four key families have distinct prefixes. *)
Record Redis := {
  subs : gmap string (list UserSubscription);
  sets : gmap string (gset string);
  counts : gmap string Z;
  purchaseRecords : gmap string TokenPurchaseRecord
}.

Definition emptyRedis : Redis :=
  {| subs := ∅; sets := ∅; counts := ∅; purchaseRecords := ∅ |}.

Definition withSubs (r : Redis) (m : gmap string (list UserSubscription))
    : Redis :=
  {| subs := m; sets := sets r; counts := counts r;
     purchaseRecords := purchaseRecords r |}.

Definition withSets (r : Redis) (m : gmap string (gset string)) : Redis :=
  {| subs := subs r; sets := m; counts := counts r;
     purchaseRecords := purchaseRecords r |}.

Definition withCounts (r : Redis) (m : gmap string Z) : Redis :=
  {| subs := subs r; sets := sets r; counts := m;
     purchaseRecords := purchaseRecords r |}.

Definition withPurchaseRecords (r : Redis) (m : gmap string TokenPurchaseRecord)
    : Redis :=
  {| subs := subs r; sets := sets r; counts := counts r;
     purchaseRecords := m |}.

(** Set commands.  A set key exists exactly when its set is non-empty:
    [SREM] of the last member deletes the key. *)
Definition smembers (r : Redis) (key : string) : gset string :=
  default ∅ (sets r !! key).

Definition scard (r : Redis) (key : string) : nat := size (smembers r key).

Definition sadd (r : Redis) (key member : string) : Redis :=
  withSets r (<[key := {[member]} ∪ smembers r key]> (sets r)).

Definition srem (r : Redis) (key member : string) : Redis :=
  let s := smembers r key ∖ {[member]} in
  withSets r (if decide (s = ∅) then delete key (sets r)
              else <[key := s]> (sets r)).

Definition delSet (r : Redis) (key : string) : Redis :=
  withSets r (delete key (sets r)).

(** Key expiry: what the store does on its own when the TTL of a key runs
    out.  The user lists are written with [SETEX] and the purchase records
    with [SET ... EX], the counters get an [EXPIRE] in every transaction
    that increments them; the set keys get one only where
    [config.cache.ttl.kolWallets] is positive. *)
Definition expireSubs (r : Redis) (key : string) : Redis :=
  withSubs r (delete key (subs r)).

Definition expireSet (r : Redis) (key : string) : Redis := delSet r key.

Definition expireCount (r : Redis) (key : string) : Redis :=
  withCounts r (delete key (counts r)).

Definition expirePurchaseRecord (r : Redis) (key : string) : Redis :=
  withPurchaseRecords r (delete key (purchaseRecords r)).

(** ** [CacheService] *)

Section Cache.

(** [config.environment]. *)
Variable environment : string.

(** [configService.getRedisKey]. *)
Definition getRedisKey (prefix key : string) : string :=
  let envPrefix :=
    if String.eqb environment "production" then "" else environment +:+ ":" in
  envPrefix +:+ prefix +:+ key.

Definition subscriptionsKey (user : string) : string :=
  getRedisKey "sub:" ("user:" +:+ user).

Definition activeKey : string := getRedisKey "kol:" "active".

Definition subscribersKey (wallet : string) : string :=
  getRedisKey "kol:" ("subscribers:" +:+ wallet).

(** Get all subscriptions for a user. *)
Definition getUserSubscriptions (r : Redis) (user : string)
    : list UserSubscription :=
  default [] (subs r !! subscriptionsKey user).

(** Add a KOL wallet to the watched list. *)
Definition addKOLWallet (r : Redis) (walletAddress : string) : Redis :=
  sadd r activeKey walletAddress.

(** Remove a KOL wallet from the watched list. *)
Definition removeKOLWallet (r : Redis) (walletAddress : string) : Redis :=
  srem r activeKey walletAddress.

(** Add user to KOL wallet subscribers list. *)
Definition addKOLWalletSubscriber (r : Redis) (wallet user : string)
    : Redis :=
  sadd r (subscribersKey wallet) user.

(** Remove user from KOL wallet subscribers list; if no subscribers are
    left, remove the KOL wallet from the active watch list and delete the
    empty subscribers set. *)
Definition removeKOLWalletSubscriber (r : Redis) (wallet user : string)
    : Redis :=
  let key := subscribersKey wallet in
  let r1 := srem r key user in
  if Nat.eqb (scard r1 key) 0
  then delSet (removeKOLWallet r1 wallet) key
  else r1.

Definition otherKol (wallet : string) (sub : UserSubscription) : bool :=
  negb (String.eqb (kolWallet (fields sub)) wallet).

Definition sameKol (wallet : string) (sub : UserSubscription) : bool :=
  String.eqb (kolWallet (fields sub)) wallet.

(** Add or update a user subscription; returns the store and the user's
    list as saved. *)
Definition addSubscription (r : Redis) (f : Fresh)
    (subscription : SubscriptionInput) : Redis * list UserSubscription :=
  let existingSubscriptions := getUserSubscriptions r (userId subscription) in
  let filteredSubscriptions :=
    List.filter (otherKol (kolWallet subscription)) existingSubscriptions
    ++ [ {| id := freshId f; createdAt := nowCreated f;
            updatedAt := nowUpdated f; fields := subscription |} ] in
  let r1 := withSubs r (<[subscriptionsKey (userId subscription)
                           := filteredSubscriptions]> (subs r)) in
  (addKOLWalletSubscriber r1 (kolWallet subscription) (userId subscription),
   filteredSubscriptions).

(** Remove a user subscription; returns the store and the user's remaining
    list. *)
Definition removeSubscription (r : Redis) (user wallet : string)
    : Redis * list UserSubscription :=
  let existingSubscriptions := getUserSubscriptions r user in
  let filteredSubscriptions :=
    List.filter (otherKol wallet) existingSubscriptions in
  let key := subscriptionsKey user in
  let r1 :=
    if Nat.ltb 0 (length filteredSubscriptions)
    then withSubs r (<[key := filteredSubscriptions]> (subs r))
    else withSubs r (delete key (subs r)) in
  (removeKOLWalletSubscriber r1 wallet user, filteredSubscriptions).

(** Get all users subscribed to a specific KOL wallet. *)
Definition getUsersForKOL (r : Redis) (wallet : string) : list string :=
  elements (smembers r (subscribersKey wallet)).

(** Get detailed subscriptions for a specific KOL wallet. *)
Definition getSubscriptionsForKOL (r : Redis) (wallet : string)
    : list UserSubscription :=
  omap (fun user => List.find (sameKol wallet) (getUserSubscriptions r user))
       (getUsersForKOL r wallet).

(** Get all currently watched KOL wallets. *)
Definition getWatchedKOLWallets (r : Redis) : gset string :=
  smembers r activeKey.

End Cache.

(** ** [TokenPurchaseTracker] *)

(** Where, if anywhere, the store fails during one call of
    [incrementAndValidatePurchase]: on connecting or in the [MULTI]
    transaction, on the rollback [DECR], or on the [SET] of the purchase
    record. *)
Inductive Fault := NoFault | ExecFault | DecrFault | SetFault.

Record IncrementResult := {
  success : bool;
  newCount : Z;
  wasAtLimit : bool
}.

Record PurchaseValidationResult := {
  canPurchase : bool;
  pv_currentCount : Z;
  pv_maxCount : Z;
  remainingPurchases : Z
}.

(** The largest value a Redis integer holds; [INCR] beyond it is an
    error. *)
Definition REDIS_INT_MAX : Z := 9223372036854775807.

Section Tracker.

Variable environment : string.

(** [config.cache.keyPrefixes.tokenPurchases || 'token_purchases']: the
    configuration defines no [tokenPurchases] prefix. *)
Definition tokenPurchasesPrefix : string := "token_purchases".

Definition PURCHASE_COUNT_KEY : string := "token_buy_count".
Definition PURCHASE_RECORD_KEY : string := "token_purchase_record".

Definition buildCountKey (user tokenMint : string) : string :=
  getRedisKey environment tokenPurchasesPrefix
    (PURCHASE_COUNT_KEY +:+ ":" +:+ user +:+ ":" +:+ tokenMint).

Definition buildRecordKey (user tokenMint : string) : string :=
  getRedisKey environment tokenPurchasesPrefix
    (PURCHASE_RECORD_KEY +:+ ":" +:+ user +:+ ":" +:+ tokenMint).

(** Get current purchase count for a user-token pair. *)
Definition getCurrentPurchaseCount (r : Redis) (user tokenMint : string) : Z :=
  default 0 (counts r !! buildCountKey user tokenMint).

(** Fast validation check; reads one key and writes nothing. *)
Definition canUserPurchaseToken (r : Redis) (user tokenMint : string)
    (maxPurchaseCount : Z) : PurchaseValidationResult :=
  let count := getCurrentPurchaseCount r user tokenMint in
  {| canPurchase := count <? maxPurchaseCount;
     pv_currentCount := count;
     pv_maxCount := maxPurchaseCount;
     remainingPurchases := Z.max 0 (maxPurchaseCount - count) |}.

(** The [catch] clause of [incrementAndValidatePurchase]. *)
Definition failClosed : IncrementResult :=
  {| success := false; newCount := 0; wasAtLimit := false |}.

(** Atomic increment and validation.  [now] is [Date.now()]. *)
Definition incrementAndValidatePurchase (r : Redis) (fault : Fault) (now : Z)
    (user tokenMint : string) (maxPurchaseCount : Z) (subId : string)
    : Redis * IncrementResult :=
  let countKey := buildCountKey user tokenMint in
  let recordKey := buildRecordKey user tokenMint in
  match fault with
  | ExecFault => (r, failClosed)
  | _ =>
      let old := default 0 (counts r !! countKey) in
      if old =? REDIS_INT_MAX then (r, failClosed)  (* INCR reports an error *)
      else
        let count := old + 1 in
        let r1 := withCounts r (<[countKey := count]> (counts r)) in
        if count >? maxPurchaseCount then
          (* exceeded the limit: decrement back *)
          match fault with
          | DecrFault => (r1, failClosed)
          | _ =>
              (withCounts r1 (<[countKey := count - 1]> (counts r1)),
               {| success := false; newCount := count - 1;
                  wasAtLimit := true |})
          end
        else
          match fault with
          | SetFault => (r1, failClosed)
          | _ =>
              let record :=
                {| pr_userId := user; pr_tokenMint := tokenMint;
                   currentCount := count; maxCount := maxPurchaseCount;
                   lastPurchaseTimestamp := now; subscriptionId := subId |} in
              (withPurchaseRecords r1
                 (<[recordKey := record]> (purchaseRecords r1)),
               {| success := true; newCount := count; wasAtLimit := false |})
          end
  end.

(** Get detailed purchase record. *)
Definition getPurchaseRecord (r : Redis) (user tokenMint : string)
    : option TokenPurchaseRecord :=
  purchaseRecords r !! buildRecordKey user tokenMint.

(** Reset purchase count for a user-token pair. *)
Definition resetPurchaseCount (r : Redis) (user tokenMint : string) : Redis :=
  withPurchaseRecords
    (withCounts r (delete (buildCountKey user tokenMint) (counts r)))
    (delete (buildRecordKey user tokenMint) (purchaseRecords r)).

End Tracker.

(** ** [HeliusWebhookService] *)

Record NativeTransfer := {
  nt_fromUserAccount : string;
  nt_toUserAccount : string;
  nt_amount : Js.num
}.

(** One transaction of a webhook payload.  [txData] carries the two
    fields [parseSwap] reads ([accountData], [tokenTransfers]). *)
Record HeliusWebhookData := {
  txData : TransactionData;
  description : string;
  fee : Js.num;
  feePayer : string;
  nativeTransfers : list NativeTransfer;
  signature : string;
  slot : Z;
  source : string;
  timestamp : Z;  (* unix seconds *)
  txType : string
}.

Inductive TradeType := tradeBuy | tradeSell.

Record KOLTrade := {
  trade_id : string;
  trade_kolWallet : string;
  trade_signature : string;
  trade_timestamp : Z;  (* milliseconds *)
  tokenIn : string;
  tokenOut : string;
  amountIn : Js.num;
  amountOut : Js.num;
  tradeType : TradeType;
  mint : string;
  dexProgram : string;
  slotNumber : Z;
  blockTime : Z;
  trade_fee : Js.num
}.

Record QueuedTradeParams := {
  agentId : string;
  q_tradeType : option TradeType;
  amount : option Js.num;
  q_privateKey : string;
  q_mint : option string;
  priority : string;
  q_watchConfig : option WatchConfig
}.

(** How one call to the external provider ends: it resolves with a
    webhook object, resolves with a falsy value, or rejects. *)
Inductive ProviderReply := Accepted | Declined | Failed.

(** The store together with the address list the provider watches. *)
Record World := {
  redis : Redis;
  providerAddresses : gset string
}.

(** A method either returns or throws. *)
Inductive Outcome (A : Type) :=
| Returned (a : A)
| Thrown.
Arguments Returned {A} a.
Arguments Thrown {A}.

(** What a transaction sends out of the service. *)
Inductive Effect :=
| StoreKOLTrade (t : KOLTrade)
| EmitKolTrade (t : KOLTrade)
| PerformBatchTrades (trades : list QueuedTradeParams).

Definition swapTypes : list string :=
  ["SWAP"; "TOKEN_TRADE"; "DeFi_SWAP"; "EXCHANGE"].

(** Check if transaction is a swap based on type. *)
Definition isSwapTransaction (transaction : HeliusWebhookData) : bool :=
  existsb (fun t => Js.includes (txType transaction) t) swapTypes.

Definition toLowerAscii (c : ascii) : ascii :=
  let n := nat_of_ascii c in
  if (Nat.leb 65 n && Nat.leb n 90)%bool then ascii_of_nat (n + 32) else c.

Fixpoint toLowerCase (s : string) : string :=
  match s with
  | EmptyString => EmptyString
  | String c s' => String (toLowerAscii c) (toLowerCase s')
  end.

Definition dexPatterns : list (string * string) :=
  [("jupiter", "Jupiter"); ("raydium", "Raydium"); ("orca", "Orca");
   ("phoenix", "Phoenix"); ("meteora", "Meteora"); ("lifinity", "Lifinity");
   ("magic eden", "Magic Eden"); ("tensor", "Tensor")].

(** Identify DEX program from webhook data. *)
Definition identifyDEXFromWebhook (transaction : HeliusWebhookData) : string :=
  if negb (String.eqb (source transaction) "") then source transaction
  else
    let d := toLowerCase (description transaction) in
    match List.find (fun p => Js.includes d (fst p)) dexPatterns with
    | Some p => snd p
    | None => "Unknown DEX"
    end.

Section Webhook.

Variable environment : string.
Variable Number : string -> Js.num.

(** Find which monitored wallet address this transaction belongs to. *)
Definition findWalletAddress (r : Redis) (transaction : HeliusWebhookData)
    : option string :=
  let activeKols := getWatchedKOLWallets environment r in
  let isActiveKol (a : string) := bool_decide (a ∈ activeKols) in
  match List.find isActiveKol
          (map account (default [] (accountData (txData transaction)))) with
  | Some a => Some a
  | None =>
  match List.find isActiveKol
          (flat_map (fun t => [nt_fromUserAccount t; nt_toUserAccount t])
             (nativeTransfers transaction)) with
  | Some a => Some a
  | None =>
  match List.find isActiveKol
          (flat_map (fun t => [fromUserAccount t; toUserAccount t])
             (tokenTransfers (txData transaction))) with
  | Some a => Some a
  | None =>
      if negb (String.eqb (feePayer transaction) "")
         && isActiveKol (feePayer transaction)
      then Some (feePayer transaction) else None
  end end end.

Record TradeDetails := {
  d_tradeType : TradeType;
  d_tokenIn : string;
  d_tokenOut : string;
  d_amountIn : Js.num;
  d_amountOut : Js.num;
  d_mint : string
}.

(** Parse trade details from webhook token transfers. *)
Definition parseTradeDetailsFromWebhook (transaction : HeliusWebhookData)
    : TradeDetails :=
  let unknownDetails :=
    {| d_tradeType := tradeBuy;
       d_tokenIn := "UNKNOWN"; d_tokenOut := "UNKNOWN";
       d_amountIn := Js.ofZ 0; d_amountOut := Js.ofZ 0;
       d_mint := "UNKNOWN" |} in
  if Nat.ltb 0 (length (tokenTransfers (txData transaction))) then
    match parseSwap Number (txData transaction)
            (Some (feePayer transaction)) with
    | Swap buy tokenMint tokenAmount solAmount =>
        {| d_tradeType := tradeBuy;
           d_tokenIn := tokenMint; d_tokenOut := SOL_MINT;
           d_amountIn := tokenAmount; d_amountOut := solAmount;
           d_mint := tokenMint |}
    | Swap sell tokenMint tokenAmount solAmount =>
        {| d_tradeType := tradeSell;
           d_tokenIn := SOL_MINT; d_tokenOut := tokenMint;
           d_amountIn := solAmount; d_amountOut := tokenAmount;
           d_mint := tokenMint |}
    | _ => unknownDetails
    end
  else unknownDetails.

(** Parse webhook transaction data into KOLTrade structure; [None] is the
    [null] of the [catch] clause. *)
Definition parseKOLTradeFromWebhook (uuid : string)
    (transaction : HeliusWebhookData) (walletAddress : string)
    : option KOLTrade :=
  let d := parseTradeDetailsFromWebhook transaction in
  Some {| trade_id := uuid;
          trade_kolWallet := walletAddress;
          trade_signature := signature transaction;
          trade_timestamp := timestamp transaction * 1000;
          tokenIn := d_tokenIn d;
          tokenOut := d_tokenOut d;
          amountIn := d_amountIn d;
          amountOut := d_amountOut d;
          tradeType := d_tradeType d;
          mint := d_mint d;
          dexProgram := identifyDEXFromWebhook transaction;
          slotNumber := slot transaction;
          blockTime := timestamp transaction;
          trade_fee := Js.orZero (Some (fee transaction)) |}.

Definition isTradeSubscription (sub : UserSubscription) : bool :=
  match type (fields sub) with trade => true | watch => false end.

(** The element of the batch built for one subscription. *)
Definition queuedTrade (kolTrade : option KOLTrade) (sub : UserSubscription)
    : QueuedTradeParams :=
  {| agentId := userId (fields sub);
     q_tradeType := tradeType <$> kolTrade;
     amount := minAmount (fields sub);
     q_privateKey := privateKey (fields sub);
     q_mint := mint <$> kolTrade;
     priority := "high";
     q_watchConfig := watchConfig (fields sub) |}.

(** Process individual transaction from webhook: the effects it sends
    out, in order.  The store is only read.  [if (walletAddress)] fails
    for [null] and for the empty string. *)
Definition processTransaction (r : Redis) (uuid : string)
    (transaction : HeliusWebhookData) : list Effect :=
  if isSwapTransaction transaction then
    match findWalletAddress r transaction with
    | Some walletAddress =>
        if String.eqb walletAddress "" then [] else
        let kolTrade :=
          parseKOLTradeFromWebhook uuid transaction walletAddress in
        let subscriptions :=
          getSubscriptionsForKOL environment r walletAddress in
        match kolTrade with
        | Some t => [StoreKOLTrade t; EmitKolTrade t]
        | None => []
        end
        ++ (if Nat.ltb 0 (length subscriptions)
            then [PerformBatchTrades
                    (map (queuedTrade kolTrade)
                       (List.filter isTradeSubscription subscriptions))]
            else [])
    | None => []
    end
  else [].

(** [addKolWalletToWebhook]: on a truthy reply every wallet not yet in the
    active set is added to it. *)
Definition addKolWalletToWebhook (w : World) (reply : ProviderReply)
    (walletAddress : list string) : World * Outcome (gset string) :=
  let activeKols := getWatchedKOLWallets environment (redis w) in
  match reply with
  | Failed => (w, Thrown)
  | Declined => (w, Returned activeKols)
  | Accepted =>
      let r' :=
        fold_left
          (fun r wallet =>
             if bool_decide (wallet ∈ activeKols) then r
             else addKOLWallet environment r wallet)
          walletAddress (redis w) in
      let w' := {| redis := r';
                   providerAddresses :=
                     providerAddresses w ∪ list_to_set walletAddress |} in
      (w', Returned (getWatchedKOLWallets environment r'))
  end.

(** [removeKOLWalletWebhook]: the reply of the provider is not inspected;
    unless the call rejects, the wallet leaves the active set. *)
Definition removeKOLWalletWebhook (w : World) (reply : ProviderReply)
    (walletAddress : string) : World * Outcome (gset string) :=
  match reply with
  | Failed => (w, Thrown)
  | _ =>
      let r' := removeKOLWallet environment (redis w) walletAddress in
      let w' := {| redis := r';
                   providerAddresses :=
                     match reply with
                     | Accepted => providerAddresses w ∖ {[walletAddress]}
                     | _ => providerAddresses w
                     end |} in
      (w', Returned (getWatchedKOLWallets environment r'))
  end.

Definition subscribeToKOL (w : World) (f : Fresh) (reply : ProviderReply)
    (subscription : SubscriptionInput)
    : World * Outcome (list UserSubscription) :=
  let '(r1, sub) := addSubscription environment (redis w) f subscription in
  let w1 := {| redis := r1; providerAddresses := providerAddresses w |} in
  let activeKols := getWatchedKOLWallets environment r1 in
  if bool_decide (kolWallet subscription ∈ activeKols) then (w1, Returned sub)
  else
    match addKolWalletToWebhook w1 reply [kolWallet subscription] with
    | (w2, Returned _) => (w2, Returned sub)
    | (w2, Thrown) => (w2, Thrown)
    end.

(** [unsubscribeFromKOL] catches every exception; the boolean is the
    [success] field of its reply. *)
Definition unsubscribeFromKOL (w : World) (reply : ProviderReply)
    (user wallet : string) : World * bool :=
  let '(r1, _) := removeSubscription environment (redis w) user wallet in
  let w1 := {| redis := r1; providerAddresses := providerAddresses w |} in
  let kolsSubscriptions := getSubscriptionsForKOL environment r1 wallet in
  if Nat.eqb (length kolsSubscriptions) 0 then
    match removeKOLWalletWebhook w1 reply wallet with
    | (w2, Returned _) => (w2, true)
    | (w2, Thrown) => (w2, false)
    end
  else (w1, true).

End Webhook.

(** ** [CopyTradingService] *)

(** What [getTokenInfo] resolves with. *)
Record TokenInfo := {
  ti_name : string;
  ti_symbol : string;
  ti_uri : string
}.

(** Payload of the [kol_trade_detected] event.  The constant envelope
    fields ([type], [timestamp], [retryCount], [priority]) are left out. *)
Record KOLTradeDetectedEvent := {
  ev_id : string;
  ev_trade : KOLTrade;
  ev_tokenInfo : TokenInfo;
  affectedSubscriptions : list UserSubscription;
  estimatedCopyTrades : nat
}.

(** Payload of one [client_notification] event. *)
Record NotificationEvent := {
  n_id : string;
  n_userId : string;
  notificationType : string;
  n_trade : KOLTrade;
  n_tokenInfo : TokenInfo;
  n_subscription : UserSubscription;
  estimatedCopyAmount : Js.num
}.

Inductive Emission :=
| FromWebhookService (e : Effect)
| PublishEvent (ev : KOLTradeDetectedEvent)
| PublishNotification (n : NotificationEvent).

(** [data.amountIn] where [data] is the request body, a JSON array of
    transactions: an array has no property of that name, so the lookup
    yields [undefined] whatever the transactions hold. *)
Definition bodyAmountIn (data : list HeliusWebhookData) : option Js.num := None.

(** [(data.amountIn || 0) * (subscription.copyPercentage / 100) || 0]. *)
Definition estimateCopyAmount (data : list HeliusWebhookData)
    (subscription : UserSubscription) : Js.num :=
  Js.orZero
    (Some (Js.mul (Js.orZero (bodyAmountIn data))
             (Js.div (copyPercentage (fields subscription)) (Js.ofZ 100)))).

Section Service.

Variable environment : string.
Variable Number : string -> Js.num.

(** [HeliusWebhookService.processWebhookData] on an array: every
    transaction in turn.  [uuid i] is the identifier drawn for the i-th
    transaction. *)
Fixpoint processTransactions (r : Redis) (uuid : nat -> string)
    (transactions : list HeliusWebhookData) : list Effect :=
  match transactions with
  | [] => []
  | transaction :: rest =>
      processTransaction environment Number r (uuid O) transaction
      ++ processTransactions r (fun i => uuid (S i)) rest
  end.

Definition notificationFor (data : list HeliusWebhookData) (uuid : string)
    (t : KOLTrade) (info : TokenInfo) (subscription : UserSubscription)
    : NotificationEvent :=
  {| n_id := uuid;
     n_userId := userId (fields subscription);
     notificationType := "trade_detected";
     n_trade := t;
     n_tokenInfo := info;
     n_subscription := subscription;
     estimatedCopyAmount := estimateCopyAmount data subscription |}.

Fixpoint notifications (data : list HeliusWebhookData) (uuid : nat -> string)
    (t : KOLTrade) (info : TokenInfo) (subscriptions : list UserSubscription)
    : list NotificationEvent :=
  match subscriptions with
  | [] => []
  | subscription :: rest =>
      notificationFor data (uuid O) t info subscription
      :: notifications data (fun i => uuid (S i)) t info rest
  end.

(** [CopyTradingService.processWebhookData].  [tokenInfo] is what
    [getTokenInfo] resolves with, [None] when it rejects; [uuid] numbers
    the identifiers drawn.  An empty body has no [data[0]]: the first
    statement throws and nothing is sent. *)
Definition processWebhookData (r : Redis) (uuid : nat -> string)
    (tokenInfo : option TokenInfo) (data : list HeliusWebhookData)
    : list Emission :=
  match data with
  | [] => []
  | first :: _ =>
      let wallet := feePayer first in
      let kolTrade := parseKOLTradeFromWebhook Number (uuid O) first wallet in
      let subscriptions := getSubscriptionsForKOL environment r wallet in
      let n := length data in
      let sent :=
        map FromWebhookService
          (processTransactions r (fun i => uuid (1 + i)%nat) data) in
      match kolTrade, tokenInfo with
      | Some t, Some info =>
          sent
          ++ [PublishEvent
                {| ev_id := uuid (1 + n)%nat; ev_trade := t;
                   ev_tokenInfo := info;
                   affectedSubscriptions := subscriptions;
                   estimatedCopyTrades := length subscriptions |}]
          ++ map PublishNotification
               (notifications data (fun i => uuid (2 + n + i)%nat) t info
                  subscriptions)
      | _, _ => sent
      end
  end.

End Service.

(** The notifications among the emissions. *)
Definition notificationsOf (es : list Emission) : list NotificationEvent :=
  omap (fun e => match e with
                 | PublishNotification n => Some n
                 | _ => None
                 end) es.

(** The batches of copy-trade commands among the emissions. *)
Definition batchesOf (es : list Effect) : list (list QueuedTradeParams) :=
  omap (fun e => match e with
                 | PerformBatchTrades b => Some b
                 | _ => None
                 end) es.

(** ** Registry operations and reachable states *)

Definition emptyWorld : World :=
  {| redis := emptyRedis; providerAddresses := ∅ |}.

(** What happens to the registry: the four methods of the RPC surface,
    the two store-level mutations of [CacheService], and the expiry of one
    of its keys.  A user list always carries a TTL ([addSubscription] and
    [removeSubscription] write it with
    [config.cache.ttl.subscriptions || 86400] seconds); the subscriber sets
    and the active set carry one where [config.cache.ttl.kolWallets] is
    positive. *)
Inductive RegistryOp :=
| OpSubscribeToKOL (f : Fresh) (reply : ProviderReply) (s : SubscriptionInput)
| OpUnsubscribeFromKOL (reply : ProviderReply) (user wallet : string)
| OpAddSubscription (f : Fresh) (s : SubscriptionInput)
| OpRemoveSubscription (user wallet : string)
| OpAddKolWalletToWebhook (reply : ProviderReply) (wallets : list string)
| OpRemoveKOLWalletWebhook (reply : ProviderReply) (wallet : string)
| OpExpireSubscriptions (user : string)
| OpExpireSubscribers (wallet : string)
| OpExpireActive.

Section Registry.

Variable environment : string.

Definition runOp (w : World) (op : RegistryOp) : World :=
  match op with
  | OpSubscribeToKOL f reply s => (subscribeToKOL environment w f reply s).1
  | OpUnsubscribeFromKOL reply user wallet =>
      (unsubscribeFromKOL environment w reply user wallet).1
  | OpAddSubscription f s =>
      {| redis := (addSubscription environment (redis w) f s).1;
         providerAddresses := providerAddresses w |}
  | OpRemoveSubscription user wallet =>
      {| redis := (removeSubscription environment (redis w) user wallet).1;
         providerAddresses := providerAddresses w |}
  | OpAddKolWalletToWebhook reply wallets =>
      (addKolWalletToWebhook environment w reply wallets).1
  | OpRemoveKOLWalletWebhook reply wallet =>
      (removeKOLWalletWebhook environment w reply wallet).1
  | OpExpireSubscriptions user =>
      {| redis := expireSubs (redis w) (subscriptionsKey environment user);
         providerAddresses := providerAddresses w |}
  | OpExpireSubscribers wallet =>
      {| redis := expireSet (redis w) (subscribersKey environment wallet);
         providerAddresses := providerAddresses w |}
  | OpExpireActive =>
      {| redis := expireSet (redis w) (activeKey environment);
         providerAddresses := providerAddresses w |}
  end.

(** The state after a sequence of operations and expiries on the empty
    registry. *)
Definition runOps (ops : list RegistryOp) : World :=
  fold_left runOp ops emptyWorld.

(** [K ∈ active-set ⇔ |subscribers(K)| > 0], for every wallet. *)
Definition activeIffSubscribed (r : Redis) : Prop :=
  ∀ wallet : string,
    wallet ∈ getWatchedKOLWallets environment r
    ↔ smembers r (subscribersKey environment wallet) ≠ ∅.

(** Every subscriber of a wallet holds a subscription to it. *)
Definition subscribersHoldSubscription (r : Redis) : Prop :=
  ∀ wallet user : string,
    user ∈ smembers r (subscribersKey environment wallet) →
    ∃ sub, sub ∈ getUserSubscriptions environment r user
           ∧ kolWallet (fields sub) = wallet.

Definition registryInv (r : Redis) : Prop :=
  activeIffSubscribed r ∧ subscribersHoldSubscription r.

(** The operations that move both sides of the invariant together:
    [subscribeToKOL] answered by the provider, [unsubscribeFromKOL] and
    [removeSubscription].  The store-level [addSubscription], the two
    provider operations and the expiry of a key are not among them. *)
Definition pairedOp (op : RegistryOp) : bool :=
  match op with
  | OpSubscribeToKOL _ Accepted _ => true
  | OpUnsubscribeFromKOL _ _ _ => true
  | OpRemoveSubscription _ _ => true
  | _ => false
  end.

(** The user's subscriptions to one wallet. *)
Definition subscriptionsTo (r : Redis) (user wallet : string)
    : list UserSubscription :=
  List.filter (sameKol wallet) (getUserSubscriptions environment r user).

(** The reading under which an upsert keeps the identity of the record it
    replaces: a prior subscription of the same user to the same wallet
    passes its [id] and [createdAt] on to the stored one. *)
Definition keepsPriorIdentity : Prop :=
  ∀ (r : Redis) (f : Fresh) (s : SubscriptionInput) (old : UserSubscription),
    old ∈ subscriptionsTo r (userId s) (kolWallet s) →
    ∃ new, subscriptionsTo (addSubscription environment r f s).1
             (userId s) (kolWallet s) = [new]
           ∧ id new = id old ∧ createdAt new = createdAt old.

End Registry.

(** ** Classifier: the specification's reading of a parse failure *)

(** [Number] with every parse failure replaced by zero. *)
Definition zeroOnFailure (Number : string -> Js.num) (s : string) : Js.num :=
  if Js.isNaN (Number s) then Js.ofZ 0 else Number s.

(** The mint map of the user [parseSwap] analyses, when there is one. *)
Definition selectedChanges (Number : string -> Js.num) (tx : TransactionData)
    (targetUser : option string) : option (Js.Map Js.num) :=
  uc ← buildUserChanges Number tx;
  u ← userToCheck uc targetUser;
  Js.get uc u.

(** A payload with one account [W] whose native balance moves by
    [lamports] and whose balance of mint [M] moves by [raw] at the given
    number of decimals. *)
Definition singleSwapTx (W M : string) (lamports : Z) (raw : string)
    (dec : Z) : TransactionData :=
  {| accountData :=
       Some [ {| account := W;
                 nativeBalanceChange := lamports;
                 tokenBalanceChanges :=
                   Some [ {| tbc_mint := M;
                             rawTokenAmount :=
                               {| decimals := dec; tokenAmount := raw |};
                             tokenAccount := "";
                             userAccount := W |} ] |} ];
     tokenTransfers := [] |}.

(** The largest integer below which every integer is a JavaScript
    number. *)
Definition MAX_SAFE_INTEGER : Z := 9007199254740991.

(** ** Sample data *)

Module Sample.

Definition env : string := "development".

Definition watchCfg : WatchConfig :=
  {| takeProfitPercentage := Some (Js.ofZ 50);
     stopLossPercentage := Some (Js.ofZ 20);
     enableTrailingStop := None;
     trailingPercentage := None;
     maxHoldTimeMinutes := None |}.

(** User U1 copies wallet K1: a trade subscription with a quota of one
    purchase per token and a watch configuration. *)
Definition subU1 : SubscriptionInput :=
  {| userId := "U1"; kolWallet := "K1"; isActive := true;
     copyPercentage := Js.ofZ 50;
     maxAmount := None; minAmount := Some (Js.Fin (1 # 100));
     tokenBuyCount := Some 1;
     privateKey := "key-U1"; walletAddress := "wallet-U1";
     settings := None; type := trade; watchConfig := Some watchCfg |}.

(** User U2 watches the same wallet. *)
Definition subU2 : SubscriptionInput :=
  {| userId := "U2"; kolWallet := "K1"; isActive := true;
     copyPercentage := Js.ofZ 10;
     maxAmount := None; minAmount := None;
     tokenBuyCount := None;
     privateKey := "key-U2"; walletAddress := "wallet-U2";
     settings := None; type := watch; watchConfig := None |}.

(** The same user and wallet with other settings. *)
Definition subU1' : SubscriptionInput :=
  {| userId := "U1"; kolWallet := "K1"; isActive := true;
     copyPercentage := Js.ofZ 25;
     maxAmount := None; minAmount := None;
     tokenBuyCount := None;
     privateKey := "key-U1"; walletAddress := "wallet-U1";
     settings := None; type := watch; watchConfig := None |}.

Definition fresh1 : Fresh :=
  {| freshId := "id-1"; nowCreated := 1000; nowUpdated := 1000 |}.

Definition fresh2 : Fresh :=
  {| freshId := "id-2"; nowCreated := 2000; nowUpdated := 2000 |}.

(** K1 buys 1000 of token T for 0.05 SOL. *)
Definition buyTx : HeliusWebhookData :=
  {| txData :=
       {| accountData :=
            accountData (singleSwapTx "K1" "T" (-50000000) "1000000000" 6);
          tokenTransfers :=
            [ {| fromTokenAccount := "pool-T"; fromUserAccount := "pool";
                 tt_mint := "T";
                 toTokenAccount := "K1-T"; toUserAccount := "K1";
                 tt_tokenAmount := Js.ofZ 1000 |} ] |};
     description := "K1 swapped 0.05 SOL for 1000 T";
     fee := Js.ofZ 5000;
     feePayer := "K1";
     nativeTransfers := [];
     signature := "sig-1";
     slot := 1;
     source := "JUPITER";
     timestamp := 1700000000;
     txType := "SWAP" |}.

(** U1 has subscribed to K1 and the provider has accepted the wallet. *)
Definition subscribed : World :=
  (subscribeToKOL env emptyWorld fresh1 Accepted subU1).1.

(** Then U1 has bought T once: the counter of (U1, T) is 1, the quota. *)
Definition boughtOnce : Redis :=
  (incrementAndValidatePurchase env (redis subscribed) NoFault 5000
     "U1" "T" 1 "id-1").1.

Definition uuids (i : nat) : string :=
  match i with
  | 0%nat => "uuid-0" | 1%nat => "uuid-1" | 2%nat => "uuid-2"
  | _ => "uuid-3"
  end.

Definition tokenT : TokenInfo :=
  {| ti_name := "Token T"; ti_symbol := "T"; ti_uri := "" |}.

(** U1 and U2 subscribe to K1. *)
Definition bothSubscribe : list RegistryOp :=
  [ OpSubscribeToKOL fresh1 Accepted subU1;
    OpSubscribeToKOL fresh2 Accepted subU2 ].

(** Then U1 changes the settings and unsubscribes: U2 is left. *)
Definition registryRun : list RegistryOp :=
  bothSubscribe
  ++ [ OpSubscribeToKOL fresh2 Accepted subU1';
       OpUnsubscribeFromKOL Accepted "U1" "K1" ].

(** Or the list of U2 expires while both are subscribed. *)
Definition expiryRun : list RegistryOp :=
  bothSubscribe ++ [ OpExpireSubscriptions "U2" ].

End Sample.

(** ** Further code of the classifier ([utils/swapClassifier.ts]) *)

(** [a - b]. *)
Definition jsSub (a b : Js.num) : Js.num :=
  match a, b with
  | Js.Fin x, Js.Fin y => Js.Fin (Qred (x - y))
  | _, _ => Js.NaN
  end.

Record SwapInfo := {
  sw_type : Side;
  sw_tokenMint : string;
  sw_tokenAmount : Js.num;  (* non-SOL token (absolute) *)
  sw_solAmount : Js.num     (* SOL/WSOL (absolute) *)
}.

Definition WSOL_MINT : string := "So11111111111111111111111111111111111111112".

Definition unknownSwap : SwapInfo :=
  {| sw_type := unknown; sw_tokenMint := "";
     sw_tokenAmount := Js.ofZ 0; sw_solAmount := Js.ofZ 0 |}.

(** The net change one transfer makes to the owner's balance of its mint:
    [let change = 0;
     if (t.fromUserAccount === ownerKey) change -= t.tokenAmount;
     if (t.toUserAccount === ownerKey) change += t.tokenAmount;] *)
Definition transferChange (ownerKey : string) (t : TokenTransfer) : Js.num :=
  let c1 := if String.eqb (fromUserAccount t) ownerKey
            then jsSub (Js.ofZ 0) (tt_tokenAmount t) else Js.ofZ 0 in
  if String.eqb (toUserAccount t) ownerKey
  then Js.add c1 (tt_tokenAmount t) else c1.

(** One round of the accumulation loop of [classifySwap]. *)
Definition accumulateTransfer (ownerKey : string) (delta : Js.Map Js.num)
    (t : TokenTransfer) : Js.Map Js.num :=
  let change := transferChange ownerKey t in
  if Js.isZero change then delta
  else Js.set delta (tt_mint t)
         (Js.add (Js.orZero (Js.get delta (tt_mint t))) change).

(** [classifySwap]: the owner's swap read off the token transfers. *)
Definition classifySwap (transfers : list TokenTransfer) (owner : string)
    : SwapInfo :=
  let delta := fold_left (accumulateTransfer owner) transfers [] in
  match delta with
  | [(mintA, changeA); (mintB, changeB)] =>
      let isA_SOL := String.eqb mintA WSOL_MINT in
      let isB_SOL := String.eqb mintB WSOL_MINT in
      if negb isA_SOL && negb isB_SOL then unknownSwap
      else
        let solChange := if isA_SOL then changeA else changeB in
        let tokenMint := if isA_SOL then mintB else mintA in
        let tokenChange := if isA_SOL then changeB else changeA in
        if Js.gt solChange (Js.ofZ 0) && Js.lt tokenChange (Js.ofZ 0) then
          {| sw_type := sell; sw_tokenMint := tokenMint;
             sw_tokenAmount := Js.abs tokenChange;
             sw_solAmount := Js.abs solChange |}
        else if Js.lt solChange (Js.ofZ 0) && Js.gt tokenChange (Js.ofZ 0) then
          {| sw_type := buy; sw_tokenMint := tokenMint;
             sw_tokenAmount := Js.abs tokenChange;
             sw_solAmount := Js.abs solChange |}
        else unknownSwap
  | _ => unknownSwap
  end.

(** The statements a payload makes about one user: a token balance change
    of the user, or a non-zero native balance change of the user's own
    account. *)
Definition hasTokenChange (tx : TransactionData) (user : string) : Prop :=
  ∃ accs acc tbcs tbc,
    accountData tx = Some accs ∧ acc ∈ accs
    ∧ tokenBalanceChanges acc = Some tbcs ∧ tbc ∈ tbcs
    ∧ userAccount tbc = user.

Definition hasNativeChange (tx : TransactionData) (user : string) : Prop :=
  ∃ accs acc,
    accountData tx = Some accs ∧ acc ∈ accs
    ∧ account acc = user ∧ nativeBalanceChange acc ≠ 0.

(** A payload with every field [parseSwap] iterates over. *)
Definition wellShaped (tx : TransactionData) : Prop :=
  ∃ accs, accountData tx = Some accs
          ∧ ∀ acc, acc ∈ accs → is_Some (tokenBalanceChanges acc).

(** ** Classifier: the changes of one user

    What the two loops of [parseSwap] do to the mint map of one user,
    read off the payload: the other users' changes leave it alone. *)

(** The token-balance changes of a payload that name [user], in the order
    the first loop meets them. *)
Definition tokenChangesOf (tx : TransactionData) (user : string)
    : list TokenBalanceChange :=
  List.filter (fun tbc => String.eqb (userAccount tbc) user)
    (concat (map (fun acc => default [] (tokenBalanceChanges acc))
               (default [] (accountData tx)))).

(** The non-zero native changes, in lamports, of the account [user]
    itself, in the order the second loop meets them. *)
Definition nativeChangesOf (tx : TransactionData) (user : string) : list Z :=
  map nativeBalanceChange
    (List.filter
       (fun acc => String.eqb (account acc) user
                   && negb (nativeBalanceChange acc =? 0)%Z)
       (default [] (accountData tx))).

(** Their sum: the one native change when there is at most one. *)
Definition nativeDelta (tx : TransactionData) (user : string) : Z :=
  foldr Z.add 0%Z (nativeChangesOf tx user).


(** [mintMap.set(mint, (mintMap.get(mint) || 0) + delta)] on the mint map
    of a user, which is created when the user has none. *)
Definition addToMintMap (changes : option (Js.Map Js.num)) (mint : string)
    (delta : Js.num) : option (Js.Map Js.num) :=
  let mintMap := default [] changes in
  Some (Js.set mintMap mint
          (Js.add (Js.orZero (Js.get mintMap mint)) delta)).

Section UserChangesOf.

Variable Number : string -> Js.num.

Definition addTokenTo (changes : option (Js.Map Js.num))
    (tbc : TokenBalanceChange) : option (Js.Map Js.num) :=
  addToMintMap changes (tbc_mint tbc)
    (toHuman Number (tokenAmount (rawTokenAmount tbc))
       (decimals (rawTokenAmount tbc))).

Definition addNativeTo (changes : option (Js.Map Js.num)) (lamports : Z)
    : option (Js.Map Js.num) :=
  addToMintMap changes SOL_MINT
    (Js.div (Js.ofZ lamports) (Js.ofZ 1000000000)).

(** The mint map the two loops build from a user's token changes and
    native changes; none when there is no change at all. *)
Definition mintMapOf (toks : list TokenBalanceChange) (nats : list Z)
    : option (Js.Map Js.num) :=
  fold_left addNativeTo nats (fold_left addTokenTo toks None).

End UserChangesOf.



(** ** The indexes of the registry *)

Section RegistryIndex.

Variable environment : string.

(** Every subscription in a user's list carries that user's id. *)
Definition listsOwned (r : Redis) : Prop :=
  ∀ (user : string) (sub : UserSubscription),
    sub ∈ getUserSubscriptions environment r user →
    userId (fields sub) = user.

(** The owner of a list is in the subscriber set of every wallet the list
    names. *)
Definition listsIndexed (r : Redis) : Prop :=
  ∀ (user : string) (sub : UserSubscription),
    sub ∈ getUserSubscriptions environment r user →
    user ∈ smembers r (subscribersKey environment (kolWallet (fields sub))).

(** A user holds at most one subscription per wallet. *)
Definition onePerWallet (r : Redis) : Prop :=
  ∀ user wallet : string,
    (length (subscriptionsTo environment r user wallet) ≤ 1)%nat.

(** The indexes are consistent; [holders] and [indexed] say which of the
    two directions between lists and subscriber sets is claimed. *)
Definition indexInv (holders indexed : bool) (r : Redis) : Prop :=
  (holders = true → subscribersHoldSubscription environment r)
  ∧ (indexed = true → listsIndexed r)
  ∧ listsOwned r ∧ onePerWallet r.

End RegistryIndex.

(** The events that leave every user list in place, and those that leave
    every subscriber set in place: all but the expiry of such a key. *)
Definition keepsLists (op : RegistryOp) : bool :=
  match op with
  | OpExpireSubscriptions _ => false
  | _ => true
  end.

Definition keepsSubscribers (op : RegistryOp) : bool :=
  match op with
  | OpExpireSubscribers _ => false
  | _ => true
  end.

(** ** Runs of the quota gate *)

(** What varies between the calls of a run: the fault the store shows
    during the call, [Date.now()] and the subscription id. *)
Record PurchaseCall := {
  callFault : Fault;
  callNow : Z;
  callSub : string
}.

Section TrackerRuns.

Variable environment : string.

(** Successive calls of [incrementAndValidatePurchase] for one user, token
    and quota: the final store and the answers in order. *)
Fixpoint purchases (r : Redis) (calls : list PurchaseCall)
    (user tokenMint : string) (maxPurchaseCount : Z)
    : Redis * list IncrementResult :=
  match calls with
  | [] => (r, [])
  | c :: rest =>
      let out := incrementAndValidatePurchase environment r (callFault c)
                   (callNow c) user tokenMint maxPurchaseCount (callSub c) in
      let outs := purchases out.1 rest user tokenMint maxPurchaseCount in
      (outs.1, out.2 :: outs.2)
  end.

(** What happens to the two keys of a pair in the course of time: a call
    of [incrementAndValidatePurchase], or the expiry of the counter or of
    the record.  Every call renews the TTL of the counter, only a
    successful one writes the record and its TTL. *)
Inductive PurchaseEvent :=
| Purchase (call : PurchaseCall)
| CountExpires
| RecordExpires.

Definition purchaseEvent (user tokenMint : string) (maxPurchaseCount : Z)
    (r : Redis) (event : PurchaseEvent) : Redis :=
  match event with
  | Purchase c =>
      (incrementAndValidatePurchase environment r (callFault c) (callNow c)
         user tokenMint maxPurchaseCount (callSub c)).1
  | CountExpires => expireCount r (buildCountKey environment user tokenMint)
  | RecordExpires =>
      expirePurchaseRecord r (buildRecordKey environment user tokenMint)
  end.

(** The store after a sequence of events for one user, token and quota. *)
Definition purchaseEvents (r : Redis) (events : list PurchaseEvent)
    (user tokenMint : string) (maxPurchaseCount : Z) : Redis :=
  fold_left (purchaseEvent user tokenMint maxPurchaseCount) events r.

End TrackerRuns.

(** The events during which the store shows no fault, and those that are
    no expiry. *)
Definition noFault (event : PurchaseEvent) : bool :=
  match event with
  | Purchase c => match callFault c with NoFault => true | _ => false end
  | _ => true
  end.

Definition noExpiry (event : PurchaseEvent) : bool :=
  match event with
  | Purchase _ => true
  | _ => false
  end.

(** ** Keys and addresses *)

(** A string without a colon. *)
Definition colonFree (s : string) : Prop := ∀ a b : string, s ≠ a +:+ ":" +:+ b.

(** The addresses of a transaction in the order [findWalletAddress] scans
    them: the accounts, both ends of every native transfer, both ends of
    every token transfer, then the fee payer when there is one. *)
Definition scannedAddresses (transaction : HeliusWebhookData) : list string :=
  map account (default [] (accountData (txData transaction)))
  ++ flat_map (fun t => [nt_fromUserAccount t; nt_toUserAccount t])
       (nativeTransfers transaction)
  ++ flat_map (fun t => [fromUserAccount t; toUserAccount t])
       (tokenTransfers (txData transaction))
  ++ (if String.eqb (feePayer transaction) "" then []
      else [feePayer transaction]).

(** The command of the batch for a trade that could not be classified. *)
Definition unclassifiedCommand (sub : UserSubscription) : QueuedTradeParams :=
  {| agentId := userId (fields sub);
     q_tradeType := Some tradeBuy;
     amount := minAmount (fields sub);
     q_privateKey := privateKey (fields sub);
     q_mint := Some "UNKNOWN";
     priority := "high";
     q_watchConfig := watchConfig (fields sub) |}.

Module MoreSamples.

(** The trade of the sample buy. *)
Definition tradeT : KOLTrade :=
  {| trade_id := "uuid-1"; trade_kolWallet := "K1";
     trade_signature := "sig-1"; trade_timestamp := 1700000000000;
     tokenIn := "T"; tokenOut := SOL_MINT;
     amountIn := Js.Fin 1000; amountOut := Js.Fin (1 # 20);
     tradeType := tradeBuy; mint := "T"; dexProgram := "JUPITER";
     slotNumber := 1; blockTime := 1700000000;
     trade_fee := Js.ofZ 5000 |}.

(** Two earlier trades of K1. *)
Definition tradeOld : KOLTrade :=
  {| trade_id := "uuid-0"; trade_kolWallet := "K1";
     trade_signature := "sig-0"; trade_timestamp := 1699999000000;
     tokenIn := SOL_MINT; tokenOut := "T";
     amountIn := Js.Fin (1 # 10); amountOut := Js.Fin 2000;
     tradeType := tradeSell; mint := "T"; dexProgram := "JUPITER";
     slotNumber := 0; blockTime := 1699999000;
     trade_fee := Js.ofZ 5000 |}.

Definition tradeMid : KOLTrade :=
  {| trade_id := "uuid-2"; trade_kolWallet := "K1";
     trade_signature := "sig-2"; trade_timestamp := 1699999500000;
     tokenIn := "T"; tokenOut := SOL_MINT;
     amountIn := Js.Fin 10; amountOut := Js.Fin (1 # 1000);
     tradeType := tradeBuy; mint := "T"; dexProgram := "JUPITER";
     slotNumber := 0; blockTime := 1699999500;
     trade_fee := Js.ofZ 5000 |}.

(** A swap of K1 whose payload carries no token transfers. *)
Definition bareTx : HeliusWebhookData :=
  {| txData := {| accountData := accountData (txData Sample.buyTx);
                  tokenTransfers := [] |};
     description := description Sample.buyTx;
     fee := fee Sample.buyTx;
     feePayer := feePayer Sample.buyTx;
     nativeTransfers := nativeTransfers Sample.buyTx;
     signature := signature Sample.buyTx;
     slot := slot Sample.buyTx;
     source := source Sample.buyTx;
     timestamp := timestamp Sample.buyTx;
     txType := txType Sample.buyTx |}.


(** One account W whose balance of mint M is touched by several changes,
    given by their raw amounts at 0 decimals. *)
Definition manyChangesTx (lamports : Z) (raws : list string)
    : TransactionData :=
  {| accountData :=
       Some [ {| account := "W"; nativeBalanceChange := lamports;
                 tokenBalanceChanges :=
                   Some (map (fun raw =>
                                {| tbc_mint := "M";
                                   rawTokenAmount :=
                                     {| decimals := 0; tokenAmount := raw |};
                                   tokenAccount := "W-M";
                                   userAccount := "W" |}) raws) |} ];
     tokenTransfers := [] |}.

(** The buy payload with a further account that lacks
    [tokenBalanceChanges]. *)
Definition tornTx : TransactionData :=
  {| accountData :=
       Some (default []
               (accountData
                  (singleSwapTx "W" "M" (-50000000) "1000000000" 6))
             ++ [ {| account := "X"; nativeBalanceChange := 0;
                     tokenBalanceChanges := None |} ]);
     tokenTransfers := [] |}.

End MoreSamples.

(** ** Transaction history ([HeliusWebhookService]) *)

Section History.

Variable Number : string -> Js.num.

(** The copy [getTransactionsByAddress] makes of a transaction of the
    response before it is classified: a missing [accountData] or
    [tokenBalanceChanges] becomes the empty array. *)
Definition normalizedTx (tx : TransactionData) : TransactionData :=
  {| tokenTransfers := tokenTransfers tx;
     accountData :=
       Some (map (fun acc =>
                    {| account := account acc;
                       nativeBalanceChange := nativeBalanceChange acc;
                       tokenBalanceChanges :=
                         Some (default [] (tokenBalanceChanges acc)) |})
                 (default [] (accountData tx))) |}.

(** [getTransactionsByAddress]: the [transactions] of its answer.
    [response] is the body of the provider's reply, [None] when the
    request fails.  [parseSwap] never returns [null], so the final filter
    keeps every record. *)
Definition getTransactionsByAddress (response : option (list TransactionData))
    (address : string) : list ParsedSwap :=
  match response with
  | Some transactions =>
      map (fun tx => parseSwap Number (normalizedTx tx) (Some address))
          transactions
  | None => []
  end.

Definition isBuyOrSell (tx : ParsedSwap) : bool :=
  match sideOf tx with
  | Some buy | Some sell => true
  | _ => false
  end.

(** [getKOLSwapTransactions]: the [transactions] of its answer. *)
Definition getKOLSwapTransactions (response : option (list TransactionData))
    (kolWallet : string) : list ParsedSwap :=
  List.filter isBuyOrSell (getTransactionsByAddress response kolWallet).

End History.

(** ** Trade history ([CacheService])

    A Redis sorted set is the list of its members with their scores, in
    ascending order of score and, among equal scores, in the order of the
    members.  Scores are the integral millisecond instants the service
    stores. *)

Section SortedSets.

Context {M : Type}.

(** The order and the equality of members. *)
Variable mlt : M -> M -> bool.
Variable meq : M -> M -> bool.

Definition zless (a b : Z * M) : bool :=
  (a.1 <? b.1) || ((a.1 =? b.1) && mlt a.2 b.2).

Fixpoint zinsert (e : Z * M) (s : list (Z * M)) : list (Z * M) :=
  match s with
  | [] => [e]
  | x :: s' => if zless e x then e :: x :: s' else x :: zinsert e s'
  end.

(** [ZADD key score member]: the member is added, or moved to its new
    score. *)
Definition zadd (s : list (Z * M)) (score : Z) (member : M)
    : list (Z * M) :=
  zinsert (score, member)
    (List.filter (fun e => negb (meq e.2 member)) s).

End SortedSets.

(** The range of ranks [start..stop] among [n] elements as Redis reads it:
    a negative index counts from the end, the range is clipped to the
    elements there are.  The answer is the offset and the number of
    elements, [None] for an empty range. *)
Definition zrangeBounds (n start stop : Z) : option (nat * nat) :=
  let start1 := if start <? 0 then n + start else start in
  let stop1 := if stop <? 0 then n + stop else stop in
  let start2 := if start1 <? 0 then 0 else start1 in
  if (start2 >? stop1) || (start2 >=? n) then None
  else
    let stop2 := if stop1 >=? n then n - 1 else stop1 in
    Some (Z.to_nat start2, Z.to_nat (stop2 - start2 + 1)).

(** [ZREMRANGEBYRANK key start stop]. *)
Definition zremrangebyrank {M} (s : list (Z * M)) (start stop : Z)
    : list (Z * M) :=
  match zrangeBounds (Z.of_nat (length s)) start stop with
  | Some (offset, count) => take offset s ++ drop (offset + count) s
  | None => s
  end.

(** [ZREVRANGE key start stop]: the members from the highest score down. *)
Definition zrevrange {M} (s : list (Z * M)) (start stop : Z) : list M :=
  match zrangeBounds (Z.of_nat (length s)) start stop with
  | Some (offset, count) => map snd (take count (drop offset (reverse s)))
  | None => []
  end.

(** The keys of the trade history: the trade records under
    [trade:kol:<wallet>:<id>], one sorted set of trade ids per wallet
    under [trade:recent:<wallet>], and the sorted set of all trades under
    [trade:recent], whose members are the serialised trades. *)
Record TradeStore := {
  tradeRecords : gmap string KOLTrade;
  recentByKol : gmap string (list (Z * string));
  recentGlobal : list (Z * KOLTrade)
}.

Definition emptyTradeStore : TradeStore :=
  {| tradeRecords := ∅; recentByKol := ∅; recentGlobal := [] |}.

Section TradeHistory.

Variable environment : string.

(** [JSON.stringify] on trades. *)
Variable stringify : KOLTrade -> string.

Definition tradeKey (wallet tradeId : string) : string :=
  getRedisKey environment "trade:" ("kol:" +:+ wallet +:+ ":" +:+ tradeId).

Definition recentKey (wallet : string) : string :=
  getRedisKey environment "trade:" ("recent:" +:+ wallet).

(** The sorted set of a wallet; a missing key is the empty set. *)
Definition kolRecent (h : TradeStore) (wallet : string) : list (Z * string) :=
  default [] (recentByKol h !! recentKey wallet).

(** Store a KOL trade in cache for quick access. *)
Definition storeKOLTrade (h : TradeStore) (trade : KOLTrade) : TradeStore :=
  let wallet := trade_kolWallet trade in
  let recent :=
    zadd String.ltb String.eqb (kolRecent h wallet)
      (trade_timestamp trade) (trade_id trade) in
  let globalRecent :=
    zadd (fun a b => String.ltb (stringify a) (stringify b))
         (fun a b => String.eqb (stringify a) (stringify b))
         (recentGlobal h) (trade_timestamp trade) trade in
  {| tradeRecords :=
       <[tradeKey wallet (trade_id trade) := trade]> (tradeRecords h);
     (* keep only last 100 trades per KOL *)
     recentByKol :=
       <[recentKey wallet := zremrangebyrank recent 0 (-101)]>
         (recentByKol h);
     (* trim global list to last N trades *)
     recentGlobal := zremrangebyrank globalRecent 0 (-1001) |}.

(** Get recent trades for a KOL wallet.  [limit] is an integer. *)
Definition getRecentKOLTrades (h : TradeStore) (wallet : string) (limit : Z)
    : list KOLTrade :=
  let tradeIds := zrevrange (kolRecent h wallet) 0 (limit - 1) in
  omap (fun tradeId => tradeRecords h !! tradeKey wallet tradeId) tradeIds.

(** [getRecentTrades]: the members of the global set, one fixed member
    left out. *)
Definition getRecentTrades (h : TradeStore) (limit : Z) : list KOLTrade :=
  List.filter
    (fun t => negb (String.eqb (stringify t)
                      "9c4ff65c-ce4a-4793-a350-0b6d813b60a9"))
    (zrevrange (recentGlobal h) 0 (limit - 1)).

(** What holds of the history in every state [storeKOLTrade] reaches: the
    sorted set of a wallet is in ascending order of score, and every id in
    it has its record, a trade of that wallet and id whose instant is the
    score.  [P] is a property of the trades stored. *)
Definition historyInv (P : KOLTrade -> Prop) (h : TradeStore) : Prop :=
  ∀ wallet : string,
    StronglySorted (fun a b : Z * string => a.1 ≤ b.1) (kolRecent h wallet)
    ∧ ∀ e, e ∈ kolRecent h wallet →
        colonFree e.2
        ∧ ∃ t, tradeRecords h !! tradeKey wallet e.2 = Some t
               ∧ trade_timestamp t = e.1
               ∧ trade_kolWallet t = wallet
               ∧ P t.

(** The history after storing the trades in turn. *)
Definition storeAll (trades : list KOLTrade) : TradeStore :=
  fold_left storeKOLTrade trades emptyTradeStore.

End TradeHistory.

(** ** Message retry ([MessageProcessor]) *)

(** The fields of a [RabbitMQMessage] the processor reads. *)
Record RabbitMQMessage := {
  msg_id : string;
  msg_type : string;
  retryCount : Z
}.

(** [MessageHandler]: [handle] answers [false] when the handler throws. *)
Record MessageHandler := {
  canHandle : RabbitMQMessage -> bool;
  handle : RabbitMQMessage -> bool
}.

(** How the processor settles a delivery: [ack], [nack] without requeue
    (the broker moves the message to the dead letter queue), or [ack]
    together with a copy published again after a delay. *)
Inductive Disposition :=
| Acked
| DeadLettered
| Retried (delay : Js.num) (again : RabbitMQMessage).

Definition atRetry (message : RabbitMQMessage) (n : Z) : RabbitMQMessage :=
  {| msg_id := msg_id message; msg_type := msg_type message;
     retryCount := n |}.

Section Messaging.

(** [config.processing.retryAttempts] and [config.processing.retryDelayMs]. *)
Variable retryAttempts : Z.
Variable retryDelayMs : Z.

(** [retryDelayMs * Math.pow(2, message.retryCount)]. *)
Definition retryDelay (n : Z) : Js.num :=
  Js.mul (Js.ofZ retryDelayMs) (Js.Fin (Qred (Qpower 2 n))).

(** Retry a failed message. *)
Definition retryMessage (message : RabbitMQMessage) : Disposition :=
  Retried (retryDelay (retryCount message))
    (atRetry message (retryCount message + 1)).

(** Handle incoming messages.  [content] is the parsed body, [None] when
    [JSON.parse] throws; the handlers are in the order of their
    registration. *)
Definition handleIncomingMessage (handlers : list MessageHandler)
    (content : option RabbitMQMessage) : Disposition :=
  match content with
  | Some message =>
      match List.find (fun handler => canHandle handler message) handlers with
      | Some handler =>
          if handle handler message then Acked
          else if retryCount message <? retryAttempts
               then retryMessage message
               else DeadLettered
      | None => Acked  (* acknowledge to prevent infinite redelivery *)
      end
  | None => DeadLettered
  end.

(** The deliveries of one message until it is settled, every copy
    published for a retry being delivered in turn: the delays waited and
    how the last delivery was settled.  [fuel] bounds the number of
    deliveries; [None] when it runs out. *)
Fixpoint deliveries (fuel : nat) (handlers : list MessageHandler)
    (message : RabbitMQMessage) : list Js.num * option Disposition :=
  match fuel with
  | O => ([], None)
  | S fuel' =>
      match handleIncomingMessage handlers (Some message) with
      | Retried delay again =>
          let rest := deliveries fuel' handlers again in
          (delay :: rest.1, rest.2)
      | settled => ([], Some settled)
      end
  end.

End Messaging.

(** * Properties *)

(** ** JavaScript numbers and maps *)

Module JsFacts.

Lemma lt_zero_not_zero (a : Js.num) :
  Js.lt a (Js.ofZ 0) = true → Js.isZero a = false.
Proof.
  destruct a as [x|]; simpl; [|done].
  intros H. apply negb_true_iff in H.
  destruct (Qeq_bool x 0) eqn:E; [|done].
  apply Qeq_bool_iff in E.
  assert (Qle_bool (inject_Z 0) x = true) as Hle.
  { apply Qle_bool_iff. rewrite E. apply Qle_refl. }
  congruence.
Qed.

Lemma gt_zero_not_zero (a : Js.num) :
  Js.gt a (Js.ofZ 0) = true → Js.isZero a = false.
Proof.
  destruct a as [x|]; simpl; [|done].
  intros H. apply negb_true_iff in H.
  destruct (Qeq_bool x 0) eqn:E; [|done].
  apply Qeq_bool_iff in E.
  assert (Qle_bool x (inject_Z 0) = true) as Hle.
  { apply Qle_bool_iff. rewrite E. apply Qle_refl. }
  congruence.
Qed.

Lemma lt_zero_not_gt (a : Js.num) :
  Js.lt a (Js.ofZ 0) = true → Js.gt a (Js.ofZ 0) = false.
Proof.
  destruct a as [x|]; simpl; [|done].
  intros H. apply negb_true_iff in H. apply negb_false_iff.
  apply Qle_bool_iff.
  destruct (Qlt_le_dec x (inject_Z 0)) as [Hlt|Hle].
  - apply Qlt_le_weak, Hlt.
  - apply Qle_bool_iff in Hle. congruence.
Qed.

Lemma lt_NaN_r (a : Js.num) : Js.lt a Js.NaN = false.
Proof. by destruct a. Qed.

Lemma mul_zero_l (b : Js.num) :
  Js.truthy (Js.mul (Js.ofZ 0) b) = false.
Proof. by destruct b as [y|]. Qed.

Lemma lt_add_zero (x : Js.num) :
  Js.lt (Js.add (Js.ofZ 0) x) (Js.ofZ 0) = Js.lt x (Js.ofZ 0).
Proof.
  destruct x as [q|]; [|done]. cbn [Js.lt Js.add Js.ofZ]. f_equal.
  apply Qleb_comp; [reflexivity|]. rewrite Qred_correct. apply Qplus_0_l.
Qed.

Lemma gt_add_zero (x : Js.num) :
  Js.gt (Js.add (Js.ofZ 0) x) (Js.ofZ 0) = Js.gt x (Js.ofZ 0).
Proof.
  destruct x as [q|]; [|done]. unfold Js.gt. cbn [Js.lt Js.add Js.ofZ]. f_equal.
  apply Qleb_comp; [|reflexivity]. rewrite Qred_correct. apply Qplus_0_l.
Qed.

Lemma lamports_lt_zero (l : Z) :
  Js.lt (Js.div (Js.ofZ l) (Js.ofZ 1000000000)) (Js.ofZ 0) = (l <? 0).
Proof.
  unfold Js.div, Js.ofZ. change (Qeq_bool (inject_Z 1000000000) 0) with false.
  cbn [Js.lt].
  rewrite (Qleb_comp _ _ (Qeq_refl _) _ _ (Qred_correct _)).
  unfold Qle_bool, Qdiv, Qmult, Qinv, inject_Z. cbn [Qnum Qden].
  destruct (Z.leb_spec (0 * Z.pos 1) (l * 1 * Z.pos 1)%Z), (Z.ltb_spec l 0);
    cbn [negb]; lia.
Qed.

Lemma lamports_gt_zero (l : Z) :
  Js.gt (Js.div (Js.ofZ l) (Js.ofZ 1000000000)) (Js.ofZ 0) = (0 <? l).
Proof.
  unfold Js.gt, Js.div, Js.ofZ.
  change (Qeq_bool (inject_Z 1000000000) 0) with false.
  cbn [Js.lt].
  rewrite (Qleb_comp _ _ (Qred_correct _) _ _ (Qeq_refl _)).
  unfold Qle_bool, Qdiv, Qmult, Qinv, inject_Z. cbn [Qnum Qden].
  destruct (Z.leb_spec (l * 1 * Z.pos 1) (0 * Z.pos (1 * 1000000000)))%Z,
           (Z.ltb_spec 0 l);
    cbn [negb]; lia.
Qed.

End JsFacts.

(** ** Swap classifier *)

Section ClassifierFacts.

Variable Number : string -> Js.num.

Lemma parseSwap_selected (tx : TransactionData) (target : option string) :
  parseSwap Number tx target
  = match selectedChanges Number tx target with
    | Some changes => classifyChanges changes
    | None => EmptySwap
    end.
Proof.
  unfold parseSwap, parseSwapBody, selectedChanges.
  destruct (buildUserChanges Number tx) as [uc|]; simpl; [|done].
  destruct (userToCheck uc target) as [u|]; simpl; [|done].
  by destruct (Js.get uc u).
Qed.

Lemma classifyChanges_buy (changes : Js.Map Js.num) :
  sideOf (classifyChanges changes) = Some buy
  ↔ ∃ m tc, tokenEntries changes = [(m, tc)]
            ∧ Js.lt (solChange changes) (Js.ofZ 0) = true
            ∧ Js.gt tc (Js.ofZ 0) = true.
Proof.
  unfold classifyChanges.
  destruct (tokenEntries changes) as [|[m tc] [|e rest]]; cbn [sideOf].
  - split; [done | by intros (? & ? & ? & _)].
  - split.
    + destruct (Js.isZero (solChange changes) || Js.isZero tc); [done|].
      cbn [sideOf].
      destruct (Js.lt (solChange changes) (Js.ofZ 0)) eqn:E1,
               (Js.gt tc (Js.ofZ 0)) eqn:E2; cbn [andb];
        try (by eauto);
        by destruct (Js.lt tc (Js.ofZ 0)
                     && Js.gt (solChange changes) (Js.ofZ 0)).
    + intros (m' & tc' & [= <- <-] & H1 & H2).
      rewrite (JsFacts.lt_zero_not_zero _ H1), (JsFacts.gt_zero_not_zero _ H2).
      cbn [orb sideOf]. by rewrite H1, H2.
  - split; [done | by intros (? & ? & ? & _)].
Qed.

Lemma classifyChanges_sell (changes : Js.Map Js.num) :
  sideOf (classifyChanges changes) = Some sell
  ↔ ∃ m tc, tokenEntries changes = [(m, tc)]
            ∧ Js.lt tc (Js.ofZ 0) = true
            ∧ Js.gt (solChange changes) (Js.ofZ 0) = true.
Proof.
  unfold classifyChanges.
  destruct (tokenEntries changes) as [|[m tc] [|e rest]]; cbn [sideOf].
  - split; [done | by intros (? & ? & ? & _)].
  - split.
    + destruct (Js.isZero (solChange changes) || Js.isZero tc); [done|].
      cbn [sideOf].
      destruct (Js.lt (solChange changes) (Js.ofZ 0) && Js.gt tc (Js.ofZ 0));
        [done|].
      destruct (Js.lt tc (Js.ofZ 0)) eqn:E1,
               (Js.gt (solChange changes) (Js.ofZ 0)) eqn:E2; cbn [andb];
        by eauto.
    + intros (m' & tc' & [= <- <-] & H1 & H2).
      rewrite (JsFacts.lt_zero_not_zero _ H1), (JsFacts.gt_zero_not_zero _ H2).
      cbn [orb sideOf]. rewrite (JsFacts.lt_zero_not_gt _ H1), andb_false_r.
      by rewrite H1, H2.
  - split; [done | by intros (? & ? & ? & _)].
Qed.

Lemma classifyChanges_unknown (changes : Js.Map Js.num) :
  sideOf (classifyChanges changes) = Some unknown
  ↔ ∃ m tc, tokenEntries changes = [(m, tc)]
            ∧ Js.isZero (solChange changes) = false
            ∧ Js.isZero tc = false
            ∧ Js.lt (solChange changes) (Js.ofZ 0) && Js.gt tc (Js.ofZ 0)
              = false
            ∧ Js.lt tc (Js.ofZ 0) && Js.gt (solChange changes) (Js.ofZ 0)
              = false.
Proof.
  unfold classifyChanges.
  destruct (tokenEntries changes) as [|[m tc] [|e rest]]; cbn [sideOf].
  - split; [done | by intros (? & ? & ? & _)].
  - destruct (Js.isZero (solChange changes)) eqn:Z1,
             (Js.isZero tc) eqn:Z2; cbn [orb sideOf];
      try (split; [done | intros (? & ? & [= <- <-] & ? & ? & _); congruence]).
    destruct (Js.lt (solChange changes) (Js.ofZ 0) && Js.gt tc (Js.ofZ 0))
      eqn:B;
      [split; [done | intros (? & ? & [= <- <-] & _ & _ & ? & _); congruence]|].
    destruct (Js.lt tc (Js.ofZ 0) && Js.gt (solChange changes) (Js.ofZ 0))
      eqn:S;
      [split; [done | intros (? & ? & [= <- <-] & _ & _ & _ & ?); congruence]|].
    split; [|done]. intros _. by exists m, tc.
  - split; [done | by intros (? & ? & ? & _)].
Qed.

(** The amounts of a classified swap are the absolute deltas. *)
Lemma classifyChanges_amounts (changes : Js.Map Js.num) (s : Side)
    (m : string) (ta sa : Js.num) :
  classifyChanges changes = Swap s m ta sa →
  ∃ tc, tokenEntries changes = [(m, tc)]
        ∧ ta = Js.abs tc ∧ sa = Js.abs (solChange changes).
Proof.
  unfold classifyChanges.
  destruct (tokenEntries changes) as [|[m' tc] [|e rest]]; try done.
  destruct (Js.isZero (solChange changes) || Js.isZero tc); [done|].
  intros [= _ <- <- <-]. by exists tc.
Qed.

Lemma classifyChanges_empty (changes : Js.Map Js.num) :
  classifyChanges changes = EmptySwap
  ↔ length (tokenEntries changes) ≠ 1%nat
    ∨ ∃ m tc, tokenEntries changes = [(m, tc)]
              ∧ (Js.isZero (solChange changes) = true
                 ∨ Js.isZero tc = true).
Proof.
  unfold classifyChanges.
  destruct (tokenEntries changes) as [|[m tc] [|e rest]]; cbn [length].
  - split; [by left | done].
  - destruct (Js.isZero (solChange changes)) eqn:E1,
             (Js.isZero tc) eqn:E2; cbn [orb];
      (split; [ try (by right; eauto) | try done ]).
    intros [H|(? & ? & [= <- <-] & [?|?])]; [by destruct H | done | congruence].
  - split; [by left | done].
Qed.


Lemma addChange_nil (u m : string) (d : Js.num) :
  addChange [] u m d = [(u, [(m, Js.add (Js.ofZ 0) d)])].
Proof.
  unfold addChange. cbn [Js.has Js.get Js.set].
  by rewrite String.eqb_refl.
Qed.

Lemma addChange_head (u m : string) (mm : Js.Map Js.num)
    (rest : UserChanges) (d : Js.num) :
  addChange ((u, mm) :: rest) u m d
  = (u, Js.set mm m (Js.add (Js.orZero (Js.get mm m)) d)) :: rest.
Proof.
  unfold addChange, Js.has. cbn [Js.get]. rewrite String.eqb_refl.
  cbn [Js.get Js.set default]. by rewrite !String.eqb_refl.
Qed.


(** The mint map of the account of a single-account payload. *)
Lemma selectedChanges_singleSwapTx (W M : string) (lamports : Z)
    (raw : string) (dec : Z) :
  W ≠ "" → M ≠ SOL_MINT →
  selectedChanges Number (singleSwapTx W M lamports raw dec) (Some W)
  = Some ((M, Js.add (Js.ofZ 0) (toHuman Number raw dec))
          :: if lamports =? 0 then []
             else [(SOL_MINT,
                    Js.add (Js.ofZ 0)
                      (Js.div (Js.ofZ lamports) (Js.ofZ 1000000000)))]).
Proof.
  intros HW HM. apply String.eqb_neq in HW, HM.
  unfold selectedChanges, buildUserChanges, singleSwapTx.
  cbn [accountData mbind option_bind tokenLoop tokenBalanceChanges fold_left].
  unfold addTokenChange, addNativeChange.
  cbn [userAccount tbc_mint rawTokenAmount tokenAmount decimals
       nativeBalanceChange account].
  rewrite addChange_nil.
  destruct (lamports =? 0).
  - unfold userToCheck. rewrite HW. cbn [mbind option_bind Js.get].
    by rewrite String.eqb_refl.
  - rewrite addChange_head. cbn [Js.get Js.set]. rewrite HM.
    unfold userToCheck. rewrite HW. cbn [mbind option_bind Js.get].
    by rewrite String.eqb_refl.
Qed.

(** On a single-account payload the side follows the signs of the two
    deltas of the payload. *)
Lemma parseSwap_singleSwapTx (W M : string) (lamports : Z) (raw : string)
    (dec : Z) :
  W ≠ "" → M ≠ SOL_MINT →
  let r := parseSwap Number (singleSwapTx W M lamports raw dec) (Some W) in
  (sideOf r = Some buy
   ↔ lamports < 0 ∧ Js.gt (toHuman Number raw dec) (Js.ofZ 0) = true)
  ∧ (sideOf r = Some sell
     ↔ 0 < lamports ∧ Js.lt (toHuman Number raw dec) (Js.ofZ 0) = true).
Proof.
  intros HW HM r. subst r.
  rewrite parseSwap_selected, selectedChanges_singleSwapTx by done.
  apply String.eqb_neq in HM.
  set (tc := Js.add (Js.ofZ 0) (toHuman Number raw dec)).
  set (changes := (M, tc) :: _).
  assert (tokenEntries changes = [(M, tc)]) as He.
  { unfold changes, tokenEntries. cbn [List.filter fst]. rewrite HM. cbn [negb].
    destruct (lamports =? 0); [done|].
    cbn [List.filter fst]. by rewrite String.eqb_refl. }
  assert (Js.lt (solChange changes) (Js.ofZ 0) = (lamports <? 0)
          ∧ Js.gt (solChange changes) (Js.ofZ 0) = (0 <? lamports))
    as [Hlt Hgt].
  { unfold changes, solChange. cbn [Js.get]. rewrite HM.
    destruct (Z.eqb_spec lamports 0) as [->|Hne]; [done|].
    cbn [Js.get]. rewrite String.eqb_refl. cbn [Js.nullishZero].
    by rewrite JsFacts.lt_add_zero, JsFacts.gt_add_zero,
      JsFacts.lamports_lt_zero, JsFacts.lamports_gt_zero. }
  rewrite classifyChanges_buy, classifyChanges_sell, He.
  split; split.
  - intros (m & tc' & [= <- <-] & H1 & H2).
    rewrite Hlt in H1. unfold tc in H2. rewrite JsFacts.gt_add_zero in H2.
    split; [by apply Z.ltb_lt | done].
  - intros [H1 H2]. exists M, tc. rewrite Hlt. unfold tc.
    rewrite JsFacts.gt_add_zero. split; [done|]. split; [|done].
    by apply Z.ltb_lt.
  - intros (m & tc' & [= <- <-] & H1 & H2).
    rewrite Hgt in H2. unfold tc in H1. rewrite JsFacts.lt_add_zero in H1.
    split; [by apply Z.ltb_lt | done].
  - intros [H1 H2]. exists M, tc. rewrite Hgt. unfold tc.
    rewrite JsFacts.lt_add_zero. split; [done|]. split; [done|].
    by apply Z.ltb_lt.
Qed.

Lemma parseSwap_buy_iff (tx : TransactionData) (target : option string) :
  sideOf (parseSwap Number tx target) = Some buy
  ↔ ∃ changes m tc,
      selectedChanges Number tx target = Some changes
      ∧ tokenEntries changes = [(m, tc)]
      ∧ Js.lt (solChange changes) (Js.ofZ 0) = true
      ∧ Js.gt tc (Js.ofZ 0) = true.
Proof.
  rewrite parseSwap_selected.
  destruct (selectedChanges Number tx target) as [changes|].
  - rewrite classifyChanges_buy. split.
    + intros (m & tc & ?). by exists changes, m, tc.
    + intros (c & m & tc & [= <-] & ?). by exists m, tc.
  - split; [done | by intros (? & ? & ? & ? & _)].
Qed.

Lemma parseSwap_sell_iff (tx : TransactionData) (target : option string) :
  sideOf (parseSwap Number tx target) = Some sell
  ↔ ∃ changes m tc,
      selectedChanges Number tx target = Some changes
      ∧ tokenEntries changes = [(m, tc)]
      ∧ Js.lt tc (Js.ofZ 0) = true
      ∧ Js.gt (solChange changes) (Js.ofZ 0) = true.
Proof.
  rewrite parseSwap_selected.
  destruct (selectedChanges Number tx target) as [changes|].
  - rewrite classifyChanges_sell. split.
    + intros (m & tc & ?). by exists changes, m, tc.
    + intros (c & m & tc & [= <-] & ?). by exists m, tc.
  - split; [done | by intros (? & ? & ? & ? & _)].
Qed.

Lemma parseSwap_unknown_iff (tx : TransactionData) (target : option string) :
  sideOf (parseSwap Number tx target) = Some unknown
  ↔ ∃ changes m tc,
      selectedChanges Number tx target = Some changes
      ∧ tokenEntries changes = [(m, tc)]
      ∧ Js.isZero (solChange changes) = false
      ∧ Js.isZero tc = false
      ∧ Js.lt (solChange changes) (Js.ofZ 0) && Js.gt tc (Js.ofZ 0) = false
      ∧ Js.lt tc (Js.ofZ 0) && Js.gt (solChange changes) (Js.ofZ 0) = false.
Proof.
  rewrite parseSwap_selected.
  destruct (selectedChanges Number tx target) as [changes|].
  - rewrite classifyChanges_unknown. split.
    + intros (m & tc & ?). by exists changes, m, tc.
    + intros (c & m & tc & [= <-] & ?). by exists m, tc.
  - split; [done | by intros (? & ? & ? & ? & _)].
Qed.

Lemma parseSwap_amounts (tx : TransactionData) (target : option string)
    (s : Side) (m : string) (ta sa : Js.num) :
  parseSwap Number tx target = Swap s m ta sa →
  ∃ changes tc,
    selectedChanges Number tx target = Some changes
    ∧ tokenEntries changes = [(m, tc)]
    ∧ ta = Js.abs tc ∧ sa = Js.abs (solChange changes).
Proof.
  rewrite parseSwap_selected.
  destruct (selectedChanges Number tx target) as [changes|]; [|done].
  intros H. apply classifyChanges_amounts in H as (tc & ?).
  by exists changes, tc.
Qed.

Lemma parseSwap_empty_iff (tx : TransactionData) (target : option string) :
  parseSwap Number tx target = EmptySwap
  ↔ selectedChanges Number tx target = None
    ∨ ∃ changes,
        selectedChanges Number tx target = Some changes
        ∧ (length (tokenEntries changes) ≠ 1%nat
           ∨ ∃ m tc, tokenEntries changes = [(m, tc)]
                     ∧ (Js.isZero (solChange changes) = true
                        ∨ Js.isZero tc = true)).
Proof.
  rewrite parseSwap_selected.
  destruct (selectedChanges Number tx target) as [changes|].
  - rewrite classifyChanges_empty. split.
    + intros H. right. by exists changes.
    + by intros [?|(c & [= <-] & H)].
  - split; [by left | done].
Qed.

End ClassifierFacts.

Section MalformedAmounts.

Variable Number : string -> Js.num.

Lemma get_set_eq {V} (m : Js.Map V) (k : string) (v : V) :
  Js.get (Js.set m k v) k = Some v.
Proof.
  induction m as [|[k' v'] m IH]; cbn [Js.get Js.set].
  - by rewrite String.eqb_refl.
  - destruct (String.eqb k' k) eqn:E; cbn [Js.get]; by rewrite E.
Qed.

(** After [addChange] the net change of [user] for [mint] is the previous
    one, with a falsy or missing value read as zero, plus the delta. *)
Lemma addChange_lookup (uc : UserChanges) (user mint : string)
    (delta : Js.num) :
  (Js.get (addChange uc user mint delta) user ≫= λ mm, Js.get mm mint)
  = Some (Js.add
            (Js.orZero (Js.get (default [] (Js.get uc user)) mint)) delta).
Proof.
  unfold addChange, Js.has. rewrite get_set_eq. cbn [mbind option_bind].
  rewrite get_set_eq.
  destruct (Js.get uc user) as [mm|] eqn:E; [by rewrite E|].
  by rewrite get_set_eq.
Qed.

Lemma add_NaN_r (a : Js.num) : Js.add a Js.NaN = Js.NaN.
Proof. by destruct a. Qed.

Lemma toHuman_NaN (raw : string) (dec : Z) :
  Number (Js.removeFirstDash raw) = Js.NaN → toHuman Number raw dec = Js.NaN.
Proof.
  intros H. unfold toHuman. rewrite H.
  by destruct (Js.startsWithDash raw).
Qed.

Lemma classifyChanges_NaN (changes : Js.Map Js.num) (m : string)
    (tc : Js.num) :
  tokenEntries changes = [(m, tc)] →
  tc = Js.NaN ∨ solChange changes = Js.NaN →
  Js.isZero (solChange changes) = false → Js.isZero tc = false →
  classifyChanges changes
  = Swap unknown m (Js.abs tc) (Js.abs (solChange changes)).
Proof.
  intros He Hnan Z1 Z2.
  assert (Js.lt (solChange changes) (Js.ofZ 0) && Js.gt tc (Js.ofZ 0) = false)
    as Hb.
  { destruct Hnan as [-> | ->]; [by rewrite andb_false_r | done]. }
  assert (Js.lt tc (Js.ofZ 0) && Js.gt (solChange changes) (Js.ofZ 0) = false)
    as Hs.
  { destruct Hnan as [-> | ->]; [done|].
    unfold Js.gt. by rewrite JsFacts.lt_NaN_r, andb_false_r. }
  unfold classifyChanges. rewrite He, Z1, Z2. cbn [orb].
  by rewrite Hb, Hs.
Qed.

(** No buy and no sell comes out of a [NaN] delta. *)
Lemma classifyChanges_NaN_side (changes : Js.Map Js.num) :
  solChange changes = Js.NaN ∨ (∃ m, tokenEntries changes = [(m, Js.NaN)]) →
  sideOf (classifyChanges changes) ≠ Some buy
  ∧ sideOf (classifyChanges changes) ≠ Some sell.
Proof.
  intros Hnan. split.
  - intros H. apply classifyChanges_buy in H as (m & tc & He & H1 & H2).
    destruct Hnan as [Hs | [m' He']].
    + by rewrite Hs in H1.
    + rewrite He in He'. injection He' as _ ->. done.
  - intros H. apply classifyChanges_sell in H as (m & tc & He & H1 & H2).
    destruct Hnan as [Hs | [m' He']].
    + rewrite Hs in H2. unfold Js.gt in H2.
      by rewrite JsFacts.lt_NaN_r in H2.
    + rewrite He in He'. injection He' as _ ->. done.
Qed.

End MalformedAmounts.

(** ** Redis keys and set commands *)

Lemma append_inj_r (s a b : string) : s +:+ a = s +:+ b → a = b.
Proof.
  induction s as [|c s IH]; cbn [String.append]; [done|].
  intros [= H]. by apply IH.
Qed.

Section KeyFacts.

Variable environment : string.

Lemma getRedisKey_inj (prefix k1 k2 : string) :
  getRedisKey environment prefix k1 = getRedisKey environment prefix k2 →
  k1 = k2.
Proof.
  unfold getRedisKey. intros H.
  by apply append_inj_r, append_inj_r in H.
Qed.

Lemma subscribersKey_inj (k1 k2 : string) :
  subscribersKey environment k1 = subscribersKey environment k2 → k1 = k2.
Proof.
  unfold subscribersKey. intros H.
  by apply getRedisKey_inj, append_inj_r in H.
Qed.

Lemma subscriptionsKey_inj (u1 u2 : string) :
  subscriptionsKey environment u1 = subscriptionsKey environment u2 → u1 = u2.
Proof.
  unfold subscriptionsKey. intros H.
  by apply getRedisKey_inj, append_inj_r in H.
Qed.

Lemma activeKey_ne_subscribersKey (wallet : string) :
  activeKey environment ≠ subscribersKey environment wallet.
Proof.
  unfold activeKey, subscribersKey. intros H.
  apply getRedisKey_inj in H. cbn in H. discriminate H.
Qed.

End KeyFacts.

Lemma smembers_sadd_eq r key x :
  smembers (sadd r key x) key = {[x]} ∪ smembers r key.
Proof. unfold smembers at 1, sadd. cbn. by rewrite lookup_insert_eq. Qed.

Lemma smembers_sadd_ne r key key' x :
  key ≠ key' → smembers (sadd r key x) key' = smembers r key'.
Proof.
  intros H. unfold smembers at 1, sadd. cbn. by rewrite lookup_insert_ne.
Qed.

Lemma smembers_srem_eq r key x :
  smembers (srem r key x) key = smembers r key ∖ {[x]}.
Proof.
  unfold smembers at 1, srem. cbn.
  destruct (decide (smembers r key ∖ {[x]} = ∅)) as [E|E].
  - by rewrite lookup_delete_eq, E.
  - by rewrite lookup_insert_eq.
Qed.

Lemma smembers_srem_ne r key key' x :
  key ≠ key' → smembers (srem r key x) key' = smembers r key'.
Proof.
  intros H. unfold smembers at 1, srem. cbn.
  destruct (decide (smembers r key ∖ {[x]} = ∅)).
  - by rewrite lookup_delete_ne.
  - by rewrite lookup_insert_ne.
Qed.

Lemma smembers_delSet_eq r key : smembers (delSet r key) key = ∅.
Proof. unfold smembers, delSet. cbn. by rewrite lookup_delete_eq. Qed.

Lemma smembers_delSet_ne r key key' :
  key ≠ key' → smembers (delSet r key) key' = smembers r key'.
Proof.
  intros H. unfold smembers, delSet. cbn. by rewrite lookup_delete_ne.
Qed.

Lemma scard_zero r key :
  Nat.eqb (scard r key) 0 = true ↔ smembers r key = ∅.
Proof.
  unfold scard. rewrite Nat.eqb_eq, size_empty_iff. by unfold_leibniz.
Qed.

(** ** [CacheService]: what the mutations do to the three indexes *)

Section CacheFacts.

Variable environment : string.

Local Abbreviation subscribers r wallet :=
  (smembers r (subscribersKey environment wallet)).
Local Abbreviation active r := (getWatchedKOLWallets environment r).
Local Abbreviation userSubs r user := (getUserSubscriptions environment r user).

Lemma removeKOLWalletSubscriber_subs r wallet user :
  subs (removeKOLWalletSubscriber environment r wallet user) = subs r.
Proof.
  unfold removeKOLWalletSubscriber.
  by destruct (Nat.eqb _ 0).
Qed.

Lemma removeKOLWalletSubscriber_subscribers r wallet user wallet' :
  subscribers (removeKOLWalletSubscriber environment r wallet user) wallet'
  = if decide (wallet' = wallet) then subscribers r wallet ∖ {[user]}
    else subscribers r wallet'.
Proof.
  unfold removeKOLWalletSubscriber.
  destruct (decide (wallet' = wallet)) as [->|Hne].
  - destruct (Nat.eqb _ 0) eqn:E.
    + apply scard_zero in E. rewrite smembers_delSet_eq.
      by rewrite smembers_srem_eq in E.
    + apply smembers_srem_eq.
  - assert (subscribersKey environment wallet
            ≠ subscribersKey environment wallet') as Hk.
    { intros H. by apply subscribersKey_inj in H. }
    destruct (Nat.eqb _ 0).
    + rewrite smembers_delSet_ne by done.
      unfold removeKOLWallet. rewrite smembers_srem_ne.
      * by apply smembers_srem_ne.
      * apply activeKey_ne_subscribersKey.
    + by apply smembers_srem_ne.
Qed.

Lemma removeKOLWalletSubscriber_active r wallet user :
  active (removeKOLWalletSubscriber environment r wallet user)
  = if decide (subscribers r wallet ∖ {[user]} = ∅)
    then active r ∖ {[wallet]} else active r.
Proof.
  unfold removeKOLWalletSubscriber, getWatchedKOLWallets.
  pose proof (activeKey_ne_subscribersKey environment wallet) as Hk.
  destruct (Nat.eqb _ 0) eqn:E.
  - apply scard_zero in E. rewrite smembers_srem_eq in E.
    rewrite decide_True by done.
    rewrite smembers_delSet_ne by done.
    unfold removeKOLWallet. rewrite smembers_srem_eq.
    by rewrite smembers_srem_ne.
  - assert (subscribers r wallet ∖ {[user]} ≠ ∅) as Hne.
    { intros H. rewrite <- smembers_srem_eq in H. apply scard_zero in H.
      congruence. }
    rewrite decide_False by done.
    by rewrite smembers_srem_ne.
Qed.

Lemma removeSubscription_userSubs r user wallet user' :
  userSubs (removeSubscription environment r user wallet).1 user'
  = if decide (user' = user)
    then List.filter (otherKol wallet) (userSubs r user)
    else userSubs r user'.
Proof.
  unfold removeSubscription. cbn [fst].
  unfold getUserSubscriptions at 1.
  rewrite removeKOLWalletSubscriber_subs.
  destruct (decide (user' = user)) as [->|Hne].
  - destruct (List.filter (otherKol wallet) (userSubs r user)) as [|s l] eqn:E;
      cbn.
    + by rewrite lookup_delete_eq.
    + by rewrite lookup_insert_eq.
  - assert (subscriptionsKey environment user
            ≠ subscriptionsKey environment user') as Hk.
    { intros H. by apply subscriptionsKey_inj in H. }
    destruct (Nat.ltb 0 _); cbn.
    + by rewrite lookup_insert_ne.
    + by rewrite lookup_delete_ne.
Qed.

Lemma removeSubscription_subscribers r user wallet wallet' :
  subscribers (removeSubscription environment r user wallet).1 wallet'
  = if decide (wallet' = wallet) then subscribers r wallet ∖ {[user]}
    else subscribers r wallet'.
Proof.
  unfold removeSubscription. cbn [fst].
  rewrite removeKOLWalletSubscriber_subscribers.
  by destruct (Nat.ltb 0 _).
Qed.

Lemma removeSubscription_active r user wallet :
  active (removeSubscription environment r user wallet).1
  = if decide (subscribers r wallet ∖ {[user]} = ∅)
    then active r ∖ {[wallet]} else active r.
Proof.
  unfold removeSubscription. cbn [fst].
  rewrite removeKOLWalletSubscriber_active.
  by destruct (Nat.ltb 0 _).
Qed.

Lemma addSubscription_userSubs r f s user' :
  userSubs (addSubscription environment r f s).1 user'
  = if decide (user' = userId s)
    then List.filter (otherKol (kolWallet s)) (userSubs r (userId s))
         ++ [ {| id := freshId f; createdAt := nowCreated f;
                 updatedAt := nowUpdated f; fields := s |} ]
    else userSubs r user'.
Proof.
  unfold addSubscription. cbn [fst].
  unfold getUserSubscriptions at 1. cbn.
  destruct (decide (user' = userId s)) as [->|Hne].
  - by rewrite lookup_insert_eq.
  - rewrite lookup_insert_ne; [done|].
    intros H. by apply subscriptionsKey_inj in H.
Qed.

Lemma addSubscription_returns r f s :
  (addSubscription environment r f s).2
  = userSubs (addSubscription environment r f s).1 (userId s).
Proof.
  rewrite addSubscription_userSubs. by rewrite decide_True.
Qed.

Lemma addSubscription_subscribers r f s wallet' :
  subscribers (addSubscription environment r f s).1 wallet'
  = if decide (wallet' = kolWallet s)
    then {[userId s]} ∪ subscribers r (kolWallet s)
    else subscribers r wallet'.
Proof.
  unfold addSubscription, addKOLWalletSubscriber. cbn [fst].
  destruct (decide (wallet' = kolWallet s)) as [->|Hne].
  - by rewrite smembers_sadd_eq.
  - rewrite smembers_sadd_ne; [done|].
    intros H. by apply subscribersKey_inj in H.
Qed.

Lemma addSubscription_active r f s :
  active (addSubscription environment r f s).1 = active r.
Proof.
  unfold addSubscription, addKOLWalletSubscriber, getWatchedKOLWallets.
  cbn [fst]. rewrite smembers_sadd_ne; [done|].
  apply not_eq_sym, activeKey_ne_subscribersKey.
Qed.

End CacheFacts.

(** ** Registry: upsert, removal and the active-set invariant *)

Section RegistryFacts.

Variable environment : string.

Local Abbreviation subscribers r wallet :=
  (smembers r (subscribersKey environment wallet)).
Local Abbreviation active r := (getWatchedKOLWallets environment r).
Local Abbreviation userSubs r user := (getUserSubscriptions environment r user).

Lemma filter_sameKol_otherKol wallet (l : list UserSubscription) :
  List.filter (sameKol wallet) (List.filter (otherKol wallet) l) = [].
Proof.
  induction l as [|s l IH]; [done|]. cbn [List.filter].
  unfold otherKol at 1.
  destruct (String.eqb (kolWallet (fields s)) wallet) eqn:E; cbn [negb];
    [done|].
  cbn [List.filter]. unfold sameKol at 1. by rewrite E.
Qed.

(** After [addSubscription] the user holds exactly one subscription to the
    wallet, the record just built. *)
Lemma addSubscription_subscriptionsTo r f s :
  subscriptionsTo environment (addSubscription environment r f s).1
    (userId s) (kolWallet s)
  = [ {| id := freshId f; createdAt := nowCreated f;
         updatedAt := nowUpdated f; fields := s |} ].
Proof.
  unfold subscriptionsTo. rewrite addSubscription_userSubs.
  rewrite decide_True by done.
  rewrite List.filter_app, filter_sameKol_otherKol.
  cbn [List.filter app]. unfold sameKol. cbn [fields].
  by rewrite String.eqb_refl.
Qed.

Lemma filter_otherKol_idem wallet (l : list UserSubscription) :
  List.filter (otherKol wallet) (List.filter (otherKol wallet) l)
  = List.filter (otherKol wallet) l.
Proof.
  induction l as [|s l IH]; [done|]. cbn [List.filter].
  destruct (otherKol wallet s) eqn:E; [|done].
  cbn [List.filter]. by rewrite E, IH.
Qed.

(** An upsert for the same user and wallet overwrites the one before it:
    the user's list is what the second upsert alone would have stored. *)
Lemma addSubscription_overwrites r f f' s s' :
  userId s = userId s' → kolWallet s = kolWallet s' →
  userSubs (addSubscription environment
              (addSubscription environment r f s).1 f' s').1 (userId s')
  = userSubs (addSubscription environment r f' s').1 (userId s').
Proof.
  intros Hu Hk. rewrite !addSubscription_userSubs.
  rewrite <- Hu, <- Hk. rewrite !decide_True by done.
  rewrite List.filter_app, filter_otherKol_idem.
  cbn [List.filter]. unfold otherKol at 2. cbn [fields].
  rewrite String.eqb_refl. cbn [negb]. by rewrite app_nil_r.
Qed.

(** C7.  Two upserts in a row for the same user and wallet leave the user
    with exactly one subscription to that wallet; its fields other than
    [id], [createdAt] and [updatedAt] are those of the second upsert.  The
    first upsert leaves no trace: the user's list is the one the second
    upsert alone would have stored, and it is the list the second call
    returns. *)
Theorem addSubscription_twice (r : Redis) (f f' : Fresh)
    (s s' : SubscriptionInput) :
  userId s = userId s' → kolWallet s = kolWallet s' →
  let r1 := (addSubscription environment r f s).1 in
  let r2 := (addSubscription environment r1 f' s').1 in
  (∃ stored,
     subscriptionsTo environment r2 (userId s') (kolWallet s') = [stored]
     ∧ fields stored = s')
  ∧ userSubs r2 (userId s')
    = userSubs (addSubscription environment r f' s').1 (userId s')
  ∧ (addSubscription environment r1 f' s').2 = userSubs r2 (userId s').
Proof.
  intros Hu Hk r1 r2. split; [|split].
  - eexists. split; [apply addSubscription_subscriptionsTo | done].
  - by apply addSubscription_overwrites.
  - apply addSubscription_returns.
Qed.

(** C8, as the code has it.  [addSubscription] stamps the stored record
    with the identifier and the two instants drawn in this call, whether or
    not the user already held a subscription to the wallet; the record it
    replaces passes nothing on. *)
Theorem addSubscription_always_fresh (r : Redis) (f : Fresh)
    (s : SubscriptionInput) :
  ∃ stored,
    subscriptionsTo environment (addSubscription environment r f s).1
      (userId s) (kolWallet s) = [stored]
    ∧ id stored = freshId f
    ∧ createdAt stored = nowCreated f
    ∧ updatedAt stored = nowUpdated f
    ∧ fields stored = s.
Proof.
  eexists. split; [apply addSubscription_subscriptionsTo | done].
Qed.

Lemma holds_no_subscription r user wallet :
  subscriptionsTo environment r user wallet = [] →
  List.filter (otherKol wallet) (userSubs r user) = userSubs r user.
Proof.
  unfold subscriptionsTo.
  induction (userSubs r user) as [|s l IH]; [done|]. cbn [List.filter].
  unfold sameKol at 1, otherKol at 1.
  destruct (String.eqb (kolWallet (fields s)) wallet); cbn [negb]; [done|].
  intros H. by rewrite (IH H).
Qed.

Lemma removeSubscription_absent r user wallet :
  subscriptionsTo environment r user wallet = [] →
  let r' := (removeSubscription environment r user wallet).1 in
  (∀ user', userSubs r' user' = userSubs r user')
  ∧ (removeSubscription environment r user wallet).2 = userSubs r user
  ∧ subscribers r' wallet = subscribers r wallet ∖ {[user]}
  ∧ (∀ wallet', wallet' ≠ wallet →
       subscribers r' wallet' = subscribers r wallet')
  ∧ (subscribers r wallet ∖ {[user]} = ∅ →
     active r' = active r ∖ {[wallet]}
     ∧ sets r' !! subscribersKey environment wallet = None)
  ∧ (subscribers r wallet ∖ {[user]} ≠ ∅ → active r' = active r).
Proof.
  intros Habs r'. subst r'. repeat split.
  - intros user'. rewrite removeSubscription_userSubs.
    destruct (decide (user' = user)) as [->|]; [|done].
    by apply holds_no_subscription.
  - unfold removeSubscription. cbn [snd]. by apply holds_no_subscription.
  - rewrite removeSubscription_subscribers. by rewrite decide_True.
  - intros wallet' Hne. rewrite removeSubscription_subscribers.
    by rewrite decide_False.
  - rewrite removeSubscription_active. by rewrite decide_True.
  - pose proof (removeSubscription_subscribers environment r user wallet wallet)
      as Hs.
    rewrite decide_True in Hs by done. rewrite H in Hs.
    unfold smembers in Hs.
    destruct (sets (removeSubscription environment r user wallet).1
              !! subscribersKey environment wallet) as [x|] eqn:E; [|done].
    cbn in Hs. subst x. exfalso. revert E.
    unfold removeSubscription, removeKOLWalletSubscriber. cbn [fst].
    set (r1 := if Nat.ltb 0 _ then _ else _).
    assert (smembers r1 (subscribersKey environment wallet)
            = subscribers r wallet) as Hr1.
    { unfold r1. by destruct (Nat.ltb 0 _). }
    destruct (Nat.eqb _ 0) eqn:Ec.
    + unfold delSet. cbn. by rewrite lookup_delete_eq.
    + apply Nat.eqb_neq in Ec. exfalso. apply Ec. apply Nat.eqb_eq, scard_zero.
      by rewrite smembers_srem_eq, Hr1.
  - intros Hne. rewrite removeSubscription_active. by rewrite decide_False.
Qed.

(** C10.  Removing a subscription the user does not hold leaves every
    user's subscription list as it was and returns the user's list, yet it
    takes the user out of the wallet's subscriber set; when that set is
    then empty, the wallet leaves the active watch set and the subscribers
    key is gone (otherwise the active set is untouched).  So the removal of
    a subscription that never existed deactivates a wallet that was active
    with no subscriber. *)
Theorem removeSubscription_nonexistent :
  (∀ (r : Redis) (user wallet : string),
     subscriptionsTo environment r user wallet = [] →
     let r' := (removeSubscription environment r user wallet).1 in
     (∀ user', userSubs r' user' = userSubs r user')
     ∧ (removeSubscription environment r user wallet).2 = userSubs r user
     ∧ subscribers r' wallet = subscribers r wallet ∖ {[user]}
     ∧ (∀ wallet', wallet' ≠ wallet →
          subscribers r' wallet' = subscribers r wallet')
     ∧ (subscribers r wallet ∖ {[user]} = ∅ →
        active r' = active r ∖ {[wallet]}
        ∧ sets r' !! subscribersKey environment wallet = None)
     ∧ (subscribers r wallet ∖ {[user]} ≠ ∅ → active r' = active r))
  ∧ (∃ (r : Redis) (user wallet : string),
       subscriptionsTo environment r user wallet = []
       ∧ subscribers r wallet = ∅
       ∧ wallet ∈ active r
       ∧ wallet ∉ active (removeSubscription environment r user wallet).1).
Proof.
  split; [apply removeSubscription_absent|].
  exists (addKOLWallet environment emptyRedis "K1"), "U1", "K1".
  assert (subscribers (addKOLWallet environment emptyRedis "K1") "K1" = ∅)
    as Hs.
  { unfold addKOLWallet. rewrite smembers_sadd_ne; [done|].
    apply activeKey_ne_subscribersKey. }
  assert (subscriptionsTo environment
            (addKOLWallet environment emptyRedis "K1") "U1" "K1" = [])
    as Habs by done.
  split; [done|]. split; [done|]. split.
  - unfold getWatchedKOLWallets, addKOLWallet. rewrite smembers_sadd_eq.
    set_solver.
  - destruct (removeSubscription_absent _ _ _ Habs)
      as (_ & _ & _ & _ & H & _).
    destruct H as [-> _]; [rewrite Hs|]; set_solver.
Qed.

(** *** The invariant of the registry *)

Lemma smembers_empty key : smembers emptyRedis key = ∅.
Proof. unfold smembers. cbn. by rewrite lookup_empty. Qed.

Lemma registryInv_empty : registryInv environment emptyRedis.
Proof.
  split.
  - intros wallet. unfold getWatchedKOLWallets. rewrite !smembers_empty.
    set_solver.
  - intros wallet user. rewrite smembers_empty. set_solver.
Qed.

Lemma elem_of_filter_otherKol wallet sub (l : list UserSubscription) :
  sub ∈ l → kolWallet (fields sub) ≠ wallet →
  sub ∈ List.filter (otherKol wallet) l.
Proof.
  intros Hin Hne. apply list_elem_of_In, List.filter_In.
  split; [by apply list_elem_of_In|].
  unfold otherKol. apply negb_true_iff. by apply String.eqb_neq.
Qed.

Lemma registryInv_removeSubscription r user wallet :
  registryInv environment r →
  registryInv environment (removeSubscription environment r user wallet).1.
Proof.
  intros [HA HJ]. split.
  - intros wallet'. rewrite removeSubscription_active,
      removeSubscription_subscribers.
    specialize (HA wallet') as HA'. specialize (HA wallet).
    destruct (decide (wallet' = wallet)) as [->|Hne];
      destruct (decide (subscribers r wallet ∖ {[user]} = ∅)) as [E|E];
      set_solver.
  - intros wallet' user'. rewrite removeSubscription_subscribers,
      removeSubscription_userSubs.
    destruct (decide (wallet' = wallet)) as [->|Hne].
    + intros Hin.
      destruct (decide (user' = user)) as [->|Hu]; [set_solver|].
      apply HJ. set_solver.
    + intros Hin. destruct (HJ _ _ Hin) as (sub & Hsub & Hk).
      exists sub. split; [|done].
      destruct (decide (user' = user)) as [->|Hu]; [|done].
      apply elem_of_filter_otherKol; [done | congruence].
Qed.

(** What [subscribeToKOL] leaves in the store when the provider accepts
    the registration. *)
Lemma subscribeToKOL_accepted w f s :
  let r := redis w in
  let r' := redis (subscribeToKOL environment w f Accepted s).1 in
  active r' = {[kolWallet s]} ∪ active r
  ∧ (∀ wallet',
       subscribers r' wallet'
       = if decide (wallet' = kolWallet s)
         then {[userId s]} ∪ subscribers r (kolWallet s)
         else subscribers r wallet')
  ∧ (∀ user',
       userSubs r' user'
       = userSubs (addSubscription environment r f s).1 user').
Proof.
  intros r r'. subst r r'. unfold subscribeToKOL.
  destruct (addSubscription environment (redis w) f s) as [r1 l] eqn:E.
  assert (r1 = (addSubscription environment (redis w) f s).1) as Hr1
    by (by rewrite E).
  cbn [fst].
  destruct (bool_decide (kolWallet s ∈ active r1)) eqn:Hact.
  - apply bool_decide_eq_true in Hact. cbn [fst redis]. subst r1.
    rewrite addSubscription_active in Hact.
    split; [rewrite addSubscription_active; set_solver|].
    split; [intros; apply addSubscription_subscribers | done].
  - apply bool_decide_eq_false in Hact.
    unfold addKolWalletToWebhook. cbn [redis fold_left fst].
    rewrite bool_decide_eq_false_2 by done. cbn [fst redis].
    unfold addKOLWallet, getWatchedKOLWallets.
    split; [|split].
    + rewrite smembers_sadd_eq. subst r1.
      fold (active (addSubscription environment (redis w) f s).1).
      by rewrite addSubscription_active.
    + intros wallet'. rewrite smembers_sadd_ne
        by apply activeKey_ne_subscribersKey.
      subst r1. apply addSubscription_subscribers.
    + intros user'. by subst r1.
Qed.

Lemma registryInv_subscribeToKOL w f s :
  registryInv environment (redis w) →
  registryInv environment (redis (subscribeToKOL environment w f Accepted s).1).
Proof.
  intros [HA HJ].
  destruct (subscribeToKOL_accepted w f s) as (Hact & Hsub & Hus).
  split.
  - intros wallet'. rewrite Hact, Hsub. specialize (HA wallet').
    destruct (decide (wallet' = kolWallet s)) as [->|Hne]; set_solver.
  - intros wallet' user'. rewrite Hsub, Hus, addSubscription_userSubs.
    intros Hin.
    destruct (decide (wallet' = kolWallet s)) as [->|Hne].
    + destruct (decide (user' = userId s)) as [->|Hu].
      * eexists. split; [apply elem_of_app; right; apply list_elem_of_singleton;
                         reflexivity | done].
      * apply HJ. set_solver.
    + destruct (HJ _ _ Hin) as (sub & Hsub' & Hk).
      exists sub. split; [|done].
      destruct (decide (user' = userId s)) as [->|Hu]; [|done].
      apply elem_of_app. left.
      apply elem_of_filter_otherKol; [done | congruence].
Qed.

Lemma getSubscriptionsForKOL_nil r wallet :
  subscribersHoldSubscription environment r →
  getSubscriptionsForKOL environment r wallet = [] →
  subscribers r wallet = ∅.
Proof.
  intros HJ Hnil. apply set_eq. intros user. split; [|set_solver].
  intros Hin. exfalso.
  destruct (HJ _ _ Hin) as (sub & Hsub & Hk).
  destruct (List.find (sameKol wallet) (userSubs r user)) as [found|] eqn:Ef.
  - assert (found ∈ getSubscriptionsForKOL environment r wallet) as Hf.
    { unfold getSubscriptionsForKOL. apply list_elem_of_omap.
      exists user. split; [|done].
      unfold getUsersForKOL. by apply elem_of_elements. }
    rewrite Hnil in Hf. by apply elem_of_nil in Hf.
  - apply List.find_none with (x := sub) in Ef;
      [|by apply list_elem_of_In].
    unfold sameKol in Ef. rewrite Hk, String.eqb_refl in Ef. done.
Qed.

Lemma registryInv_removeKOLWallet r wallet :
  registryInv environment r → subscribers r wallet = ∅ →
  registryInv environment (removeKOLWallet environment r wallet).
Proof.
  intros [HA HJ] Hempty.
  assert (∀ wallet',
            subscribers (removeKOLWallet environment r wallet) wallet'
            = subscribers r wallet') as Hsub.
  { intros wallet'. unfold removeKOLWallet.
    apply smembers_srem_ne, activeKey_ne_subscribersKey. }
  split.
  - intros wallet'. rewrite Hsub.
    unfold getWatchedKOLWallets, removeKOLWallet. rewrite smembers_srem_eq.
    specialize (HA wallet') as HA'. specialize (HA wallet).
    unfold getWatchedKOLWallets in HA, HA'.
    destruct (decide (wallet' = wallet)) as [->|Hne]; set_solver.
  - intros wallet' user'. rewrite Hsub. apply HJ.
Qed.

Lemma registryInv_unsubscribeFromKOL w reply user wallet :
  registryInv environment (redis w) →
  registryInv environment
    (redis (unsubscribeFromKOL environment w reply user wallet).1).
Proof.
  intros Hinv. unfold unsubscribeFromKOL.
  destruct (removeSubscription environment (redis w) user wallet)
    as [r1 l] eqn:E.
  assert (registryInv environment r1) as Hinv1.
  { replace r1 with (removeSubscription environment (redis w) user wallet).1
      by (by rewrite E).
    by apply registryInv_removeSubscription. }
  cbn [redis].
  destruct (Nat.eqb (length (getSubscriptionsForKOL environment r1 wallet)) 0)
    eqn:El; [|done].
  apply Nat.eqb_eq, length_zero_iff_nil in El.
  apply getSubscriptionsForKOL_nil in El; [|apply Hinv1].
  unfold removeKOLWalletWebhook.
  destruct reply; cbn [fst redis]; try done;
    by apply registryInv_removeKOLWallet.
Qed.

Lemma registryInv_runOp w op :
  pairedOp op = true → registryInv environment (redis w) →
  registryInv environment (redis (runOp environment w op)).
Proof.
  destruct op as [f reply s|reply user wallet| | | | | | |]; try done.
  - destruct reply; try done. intros _. apply registryInv_subscribeToKOL.
  - intros _. apply registryInv_unsubscribeFromKOL.
  - intros _. cbn [runOp redis]. apply registryInv_removeSubscription.
Qed.

Lemma registryInv_fold ops w :
  forallb pairedOp ops = true → registryInv environment (redis w) →
  registryInv environment (redis (fold_left (runOp environment) ops w)).
Proof.
  revert w. induction ops as [|op ops IH]; intros w Hall Hinv; [done|].
  cbn [forallb] in Hall. apply andb_true_iff in Hall as [Hop Hall].
  cbn [fold_left]. apply IH; [done|]. by apply registryInv_runOp.
Qed.

(** C2, as the code has it.  In every state reached from the empty
    registry through [subscribeToKOL] calls that the provider accepts,
    [unsubscribeFromKOL] and [removeSubscription], with no key of the
    registry expiring in between, a wallet is in the active watch set if
    and only if its subscriber set is non-empty (and every subscriber of a
    wallet holds a subscription to it). *)
Theorem active_iff_subscribed (ops : list RegistryOp) :
  forallb pairedOp ops = true →
  activeIffSubscribed environment (redis (runOps environment ops))
  ∧ subscribersHoldSubscription environment (redis (runOps environment ops)).
Proof.
  intros Hall. apply registryInv_fold; [done | apply registryInv_empty].
Qed.

End RegistryFacts.

(** ** Purchase-quota gate *)

Section TrackerFacts.

Variable environment : string.

Local Abbreviation counter r user tokenMint :=
  (getCurrentPurchaseCount environment r user tokenMint).

(** C5.  When the counter of a user and token already equals the quota
    (a quota that is an exact JavaScript integer), the next
    [incrementAndValidatePurchase] answers
    [{success: false, newCount: maxCount, wasAtLimit: true}] and leaves the
    stored counter at the quota: the increment is undone by the decrement.
    Nothing else in the store changes. *)
Theorem incrementAndValidatePurchase_at_limit (r : Redis) (now : Z)
    (user tokenMint : string) (maxPurchaseCount : Z) (subId : string) :
  maxPurchaseCount <= MAX_SAFE_INTEGER →
  counter r user tokenMint = maxPurchaseCount →
  let out := incrementAndValidatePurchase environment r NoFault now
               user tokenMint maxPurchaseCount subId in
  out.2 = {| success := false; newCount := maxPurchaseCount;
             wasAtLimit := true |}
  ∧ counter out.1 user tokenMint = maxPurchaseCount
  ∧ purchaseRecords out.1 = purchaseRecords r
  ∧ subs out.1 = subs r ∧ sets out.1 = sets r.
Proof.
  intros Hmax Hc out. subst out.
  unfold incrementAndValidatePurchase.
  unfold getCurrentPurchaseCount in Hc. rewrite Hc.
  unfold MAX_SAFE_INTEGER in Hmax.
  destruct (maxPurchaseCount =? REDIS_INT_MAX) eqn:E1.
  { apply Z.eqb_eq in E1. unfold REDIS_INT_MAX in E1. lia. }
  destruct (maxPurchaseCount + 1 >? maxPurchaseCount) eqn:E2; [|lia].
  cbn [fst snd].
  replace (maxPurchaseCount + 1 - 1) with maxPurchaseCount by lia.
  repeat split.
  unfold getCurrentPurchaseCount. cbn. by rewrite lookup_insert_eq.
Qed.

(** C9.  When the counter is below the quota, so that the increment
    succeeds, and the write of the purchase record fails, the call answers
    [{success: false, newCount: 0, wasAtLimit: false}] although the stored
    counter has gone up by one; no purchase record is written, and the
    reported count differs from the stored one. *)
Theorem incrementAndValidatePurchase_record_write_fails (r : Redis) (now : Z)
    (user tokenMint : string) (maxPurchaseCount : Z) (subId : string) :
  0 <= counter r user tokenMint →
  counter r user tokenMint + 1 <= maxPurchaseCount →
  maxPurchaseCount <= MAX_SAFE_INTEGER →
  let out := incrementAndValidatePurchase environment r SetFault now
               user tokenMint maxPurchaseCount subId in
  out.2 = {| success := false; newCount := 0; wasAtLimit := false |}
  ∧ counter out.1 user tokenMint = counter r user tokenMint + 1
  ∧ purchaseRecords out.1 = purchaseRecords r
  ∧ newCount out.2 ≠ counter out.1 user tokenMint.
Proof.
  intros H0 Hlt Hmax out. subst out.
  unfold incrementAndValidatePurchase.
  unfold getCurrentPurchaseCount in *.
  set (old := default 0 (counts r !! buildCountKey environment user tokenMint))
    in *.
  unfold MAX_SAFE_INTEGER in Hmax.
  destruct (old =? REDIS_INT_MAX) eqn:E1.
  { apply Z.eqb_eq in E1. unfold REDIS_INT_MAX in E1. lia. }
  destruct (old + 1 >? maxPurchaseCount) eqn:E2; [lia|].
  cbn [fst snd withCounts counts purchaseRecords newCount failClosed].
  rewrite lookup_insert_eq. unfold default, from_option, Datatypes.id.
  repeat split; lia.
Qed.

End TrackerFacts.

(** The gate at the limit on the sample store. *)
Lemma incrementAndValidatePurchase_at_limit_witness :
  (incrementAndValidatePurchase Sample.env Sample.boughtOnce NoFault 6000
     "U1" "T" 1 "id-1").2
  = {| success := false; newCount := 1; wasAtLimit := true |}.
Proof.
  apply (incrementAndValidatePurchase_at_limit Sample.env Sample.boughtOnce
           6000 "U1" "T" 1 "id-1"); [by vm_compute | reflexivity].
Defined.

(** The record write fails on the first purchase of the sample user. *)
Lemma incrementAndValidatePurchase_record_write_fails_witness :
  (incrementAndValidatePurchase Sample.env (redis Sample.subscribed) SetFault
     5000 "U1" "T" 1 "id-1").2
  = {| success := false; newCount := 0; wasAtLimit := false |}
  ∧ getCurrentPurchaseCount Sample.env
      (incrementAndValidatePurchase Sample.env (redis Sample.subscribed)
         SetFault 5000 "U1" "T" 1 "id-1").1 "U1" "T" = 1.
Proof.
  destruct (incrementAndValidatePurchase_record_write_fails Sample.env
              (redis Sample.subscribed) 5000 "U1" "T" 1 "id-1")
    as (H1 & H2 & _); [by vm_compute | by vm_compute | by vm_compute |].
  split; [exact H1 | exact H2].
Defined.

(** ** Dispatcher *)

Section DispatcherFacts.

Variable environment : string.
Variable Number : string -> Js.num.

(** [processTransaction] reads the subscription lists and the two set
    indexes only: the purchase counters and records play no part in what
    it sends. *)
Lemma processTransaction_ignores_counters r uuid transaction c p :
  processTransaction environment Number
    (withPurchaseRecords (withCounts r c) p) uuid transaction
  = processTransaction environment Number r uuid transaction.
Proof. reflexivity. Qed.

(** The batch of a swap of a watched wallet with subscribers: one command
    per subscription of type trade, whatever its quota. *)
Lemma processTransaction_batch r uuid transaction walletAddress :
  isSwapTransaction transaction = true →
  findWalletAddress environment r transaction = Some walletAddress →
  walletAddress ≠ "" →
  getSubscriptionsForKOL environment r walletAddress ≠ [] →
  batchesOf (processTransaction environment Number r uuid transaction)
  = [ map (queuedTrade
             (parseKOLTradeFromWebhook Number uuid transaction walletAddress))
          (List.filter isTradeSubscription
             (getSubscriptionsForKOL environment r walletAddress)) ].
Proof.
  intros Hswap Hw Hwallet Hne. unfold processTransaction. rewrite Hswap, Hw.
  apply String.eqb_neq in Hwallet as ->.
  destruct (getSubscriptionsForKOL environment r walletAddress) as [|s l];
    [done|].
  reflexivity.
Qed.

Lemma notifications_amount data uuid t info subscriptions n :
  n ∈ notifications data uuid t info subscriptions →
  estimatedCopyAmount n = Js.ofZ 0.
Proof.
  revert uuid. induction subscriptions as [|s l IH]; intros uuid Hin.
  - by apply elem_of_nil in Hin.
  - cbn [notifications] in Hin. apply elem_of_cons in Hin as [-> | Hin].
    + cbn [notificationFor estimatedCopyAmount]. unfold estimateCopyAmount.
      cbn [bodyAmountIn Js.orZero].
      by rewrite JsFacts.mul_zero_l.
    + by apply IH in Hin.
Qed.

(** C3 on the code.  Whatever the trade and the subscription, every
    notification [processWebhookData] publishes carries an
    [estimatedCopyAmount] of zero: the amount is read from the request
    body, which has no [amountIn], not from the trade. *)
Theorem estimatedCopyAmount_is_zero (r : Redis) (uuid : nat → string)
    (tokenInfo : option TokenInfo) (data : list HeliusWebhookData)
    (n : NotificationEvent) :
  n ∈ notificationsOf
        (processWebhookData environment Number r uuid tokenInfo data) →
  estimatedCopyAmount n = Js.ofZ 0.
Proof.
  unfold notificationsOf, processWebhookData. intros Hin.
  apply list_elem_of_omap in Hin as (e & He & Hn).
  destruct e as [| |n']; try done. injection Hn as ->.
  destruct data as [|first rest]; [by apply elem_of_nil in He|].
  destruct (parseKOLTradeFromWebhook Number (uuid 0%nat) first (feePayer first))
    as [t|]; [destruct tokenInfo as [info|]|].
  - rewrite !elem_of_app in He. destruct He as [He|[He|He]].
    + apply list_elem_of_fmap in He as (? & ? & _). done.
    + apply list_elem_of_singleton in He. done.
    + apply list_elem_of_fmap in He as (n' & [= ->] & Hn).
      by apply notifications_amount in Hn.
  - apply list_elem_of_fmap in He as (? & ? & _). done.
  - apply list_elem_of_fmap in He as (? & ? & _). done.
Qed.

End DispatcherFacts.

(** The notification of the sample buy: U1 copies 50% of a trade whose
    quote amount is 0.05 SOL, so 0.025 was to be expected; the published
    estimate is zero. *)
Lemma estimatedCopyAmount_is_zero_witness :
  Forall (λ n, estimatedCopyAmount n = Js.ofZ 0)
    (notificationsOf
       (processWebhookData Sample.env Js.NumberOfDigits Sample.boughtOnce
          Sample.uuids (Some Sample.tokenT) [Sample.buyTx]))
  ∧ map (λ n, (n_userId n, amountOut (n_trade n),
               copyPercentage (fields (n_subscription n))))
      (notificationsOf
         (processWebhookData Sample.env Js.NumberOfDigits Sample.boughtOnce
            Sample.uuids (Some Sample.tokenT) [Sample.buyTx]))
    = [("U1", Js.Fin (1 # 20), Js.Fin 50)]
  ∧ Js.mul (Js.Fin (1 # 20)) (Js.div (Js.Fin 50) (Js.ofZ 100))
    = Js.Fin (1 # 40).
Proof.
  split; [|split; reflexivity].
  apply Forall_forall. intros n Hn.
  exact (estimatedCopyAmount_is_zero Sample.env Js.NumberOfDigits
           Sample.boughtOnce Sample.uuids (Some Sample.tokenT)
           [Sample.buyTx] n Hn).
Defined.

(** C1 on the code.  The sample user holds a trade subscription with a
    quota of one purchase per token and a watch configuration, and has
    already bought token T once.  The quota gate rejects another purchase
    of T, yet the batch [processTransaction] sends for a further buy of T
    by the watched wallet contains the command for that user, and neither
    the counters nor the purchase records are consulted. *)
Theorem processTransaction_skips_quota_gate :
  tokenBuyCount Sample.subU1 = Some 1
  ∧ watchConfig Sample.subU1 = Some Sample.watchCfg
  ∧ (incrementAndValidatePurchase Sample.env Sample.boughtOnce NoFault 6000
       "U1" "T" 1 "id-1").2
    = {| success := false; newCount := 1; wasAtLimit := true |}
  ∧ batchesOf
      (processTransaction Sample.env Js.NumberOfDigits Sample.boughtOnce
         "uuid-1" Sample.buyTx)
    = [ [ {| agentId := "U1"; q_tradeType := Some tradeBuy;
             amount := Some (Js.Fin (1 # 100)); q_privateKey := "key-U1";
             q_mint := Some "T"; priority := "high";
             q_watchConfig := Some Sample.watchCfg |} ] ]
  ∧ (∀ c p,
       processTransaction Sample.env Js.NumberOfDigits
         (withPurchaseRecords (withCounts Sample.boughtOnce c) p)
         "uuid-1" Sample.buyTx
       = processTransaction Sample.env Js.NumberOfDigits Sample.boughtOnce
           "uuid-1" Sample.buyTx).
Proof.
  split; [reflexivity|]. split; [reflexivity|].
  split; [by vm_compute|]. split; [by vm_compute|].
  intros c p. apply processTransaction_ignores_counters.
Qed.

(** ** Registry: concrete runs *)

(** C2 as stated fails: registering a wallet with the provider through
    [addKolWalletToWebhook] puts it in the active set although nobody
    subscribes to it. *)
Lemma active_iff_subscribed_counterexample :
  let w := runOps Sample.env [OpAddKolWalletToWebhook Accepted ["K1"]] in
  "K1" ∈ getWatchedKOLWallets Sample.env (redis w)
  ∧ smembers (redis w) (subscribersKey Sample.env "K1") = ∅
  ∧ ¬ activeIffSubscribed Sample.env (redis w).
Proof.
  assert ("K1" ∈ getWatchedKOLWallets Sample.env
                   (redis (runOps Sample.env
                             [OpAddKolWalletToWebhook Accepted ["K1"]])))
    as H1 by (by vm_compute).
  assert (smembers
            (redis (runOps Sample.env
                      [OpAddKolWalletToWebhook Accepted ["K1"]]))
            (subscribersKey Sample.env "K1") = ∅) as H2 by (by vm_compute).
  split; [done|]. split; [done|].
  intros H. by apply (H "K1") in H1.
Qed.

(** U1 and U2 subscribe to K1, U1 replaces the subscription and then
    unsubscribes: in the state reached U2 is the one subscriber of K1, K1
    is watched, and the invariant holds. *)
Lemma active_iff_subscribed_witness :
  activeIffSubscribed Sample.env
    (redis (runOps Sample.env Sample.registryRun))
  ∧ smembers (redis (runOps Sample.env Sample.registryRun))
      (subscribersKey Sample.env "K1") = {["U2"]}
  ∧ getWatchedKOLWallets Sample.env
      (redis (runOps Sample.env Sample.registryRun)) = {["K1"]}.
Proof.
  split; [|split; by vm_compute].
  apply (active_iff_subscribed Sample.env Sample.registryRun).
  reflexivity.
Defined.

(** The equivalence does not survive the expiry of a user list.  U1 and U2
    subscribe to K1 and the list of U2 expires; when U1 then unsubscribes,
    [unsubscribeFromKOL] finds no subscription to K1 in any list and takes
    K1 off the active set, although U2 is still in its subscriber set. *)
Lemma unsubscribeFromKOL_after_expiry :
  let w := runOps Sample.env
             (Sample.expiryRun ++ [OpUnsubscribeFromKOL Accepted "U1" "K1"]) in
  smembers (redis w) (subscribersKey Sample.env "K1") = {["U2"]}
  ∧ getWatchedKOLWallets Sample.env (redis w) = ∅
  ∧ ¬ activeIffSubscribed Sample.env (redis w).
Proof.
  cbv zeta.
  set (w := runOps Sample.env
              (Sample.expiryRun ++ [OpUnsubscribeFromKOL Accepted "U1" "K1"])).
  assert (smembers (redis w) (subscribersKey Sample.env "K1") = {["U2"]})
    as H1 by (by vm_compute).
  assert (getWatchedKOLWallets Sample.env (redis w) = ∅)
    as H2 by (by vm_compute).
  split; [done|]. split; [done|].
  intros H. specialize (H "K1"). rewrite H1, H2 in H.
  assert (({["U2"]} : gset string) ≠ ∅) as Hne.
  { intros E. assert ("U2" ∈ (∅ : gset string)) as Hin
      by (rewrite <- E; by apply elem_of_singleton).
    by apply not_elem_of_empty in Hin. }
  apply H in Hne. by apply not_elem_of_empty in Hne.
Qed.

(** The sample user subscribes twice to the same wallet. *)
Lemma addSubscription_twice_witness :
  ∃ stored,
    subscriptionsTo Sample.env
      (addSubscription Sample.env
         (addSubscription Sample.env emptyRedis Sample.fresh1 Sample.subU1).1
         Sample.fresh2 Sample.subU1').1 "U1" "K1" = [stored]
    ∧ fields stored = Sample.subU1'.
Proof.
  apply (addSubscription_twice Sample.env emptyRedis Sample.fresh1 Sample.fresh2
           Sample.subU1 Sample.subU1'); reflexivity.
Defined.

(** C8 as stated fails: the second upsert of the sample user stores the
    identifier and creation instant drawn in that call, not those of the
    record it replaces. *)
Lemma addSubscription_identity_counterexample :
  let r1 :=
    (addSubscription Sample.env emptyRedis Sample.fresh1 Sample.subU1).1 in
  let r2 := (addSubscription Sample.env r1 Sample.fresh2 Sample.subU1').1 in
  map (λ s, (id s, createdAt s)) (subscriptionsTo Sample.env r1 "U1" "K1")
  = [("id-1", 1000)]
  ∧ map (λ s, (id s, createdAt s)) (subscriptionsTo Sample.env r2 "U1" "K1")
    = [("id-2", 2000)]
  ∧ ¬ keepsPriorIdentity Sample.env.
Proof.
  split; [by vm_compute|]. split; [by vm_compute|].
  intros H.
  destruct (H (addSubscription Sample.env emptyRedis Sample.fresh1
                 Sample.subU1).1
              Sample.fresh2 Sample.subU1'
              {| id := "id-1"; createdAt := 1000; updatedAt := 1000;
                 fields := Sample.subU1 |})
    as (new & Hnew & Hid & _).
  - vm_compute. apply list_elem_of_singleton. reflexivity.
  - vm_compute in Hnew. injection Hnew as <-. discriminate Hid.
Qed.

(** User U2 never subscribed to K1; removing that subscription changes no
    list and leaves the active set alone while U1 still subscribes. *)
Lemma removeSubscription_nonexistent_witness :
  getWatchedKOLWallets Sample.env
    (removeSubscription Sample.env (redis Sample.subscribed) "U2" "K1").1
  = getWatchedKOLWallets Sample.env (redis Sample.subscribed).
Proof.
  destruct (removeSubscription_nonexistent Sample.env) as [H _].
  destruct (H (redis Sample.subscribed) "U2" "K1") as (_ & _ & _ & _ & _ & H');
    [reflexivity|].
  apply H'. by vm_compute.
Defined.

(** * Further properties *)

(** ** Classifier *)

Module JsSigns.

Lemma lt_zero_fin (a : Js.num) :
  Js.lt a (Js.ofZ 0) = true → ∃ q, a = Js.Fin q ∧ (q < 0)%Q.
Proof.
  destruct a as [q|]; [|done]. cbn [Js.lt Js.ofZ]. intros H.
  exists q. split; [done|]. change (inject_Z 0) with 0%Q in H.
  apply negb_true_iff in H. apply Qnot_le_lt. intros Hle.
  apply Qle_bool_iff in Hle. congruence.
Qed.

Lemma gt_zero_fin (a : Js.num) :
  Js.gt a (Js.ofZ 0) = true → ∃ q, a = Js.Fin q ∧ (0 < q)%Q.
Proof.
  destruct a as [q|]; [|done]. unfold Js.gt. cbn [Js.lt Js.ofZ]. intros H.
  exists q. split; [done|]. change (inject_Z 0) with 0%Q in H.
  apply negb_true_iff in H. apply Qnot_le_lt. intros Hle.
  apply Qle_bool_iff in Hle. congruence.
Qed.

Lemma gt_zero_of_pos (q : Q) : (0 < q)%Q → Js.gt (Js.Fin q) (Js.ofZ 0) = true.
Proof.
  intros H. unfold Js.gt. cbn [Js.lt Js.ofZ]. apply negb_true_iff.
  change (inject_Z 0) with 0%Q.
  destruct (Qle_bool q 0) eqn:E; [|done].
  apply Qle_bool_iff in E. exfalso. by apply (Qlt_not_le _ _ H).
Qed.

Lemma lt_zero_of_neg (q : Q) : (q < 0)%Q → Js.lt (Js.Fin q) (Js.ofZ 0) = true.
Proof.
  intros H. cbn [Js.lt Js.ofZ]. apply negb_true_iff.
  change (inject_Z 0) with 0%Q.
  destruct (Qle_bool 0 q) eqn:E; [|done].
  apply Qle_bool_iff in E. exfalso. by apply (Qlt_not_le _ _ H).
Qed.

Lemma abs_pos_of_lt (a : Js.num) :
  Js.lt a (Js.ofZ 0) = true → Js.gt (Js.abs a) (Js.ofZ 0) = true.
Proof.
  intros H. apply lt_zero_fin in H as (q & -> & Hq).
  cbn [Js.abs]. apply gt_zero_of_pos. rewrite Qred_correct.
  rewrite Qabs_neg by (by apply Qlt_le_weak).
  by apply (Qopp_lt_compat q 0).
Qed.

Lemma abs_pos_of_gt (a : Js.num) :
  Js.gt a (Js.ofZ 0) = true → Js.gt (Js.abs a) (Js.ofZ 0) = true.
Proof.
  intros H. apply gt_zero_fin in H as (q & -> & Hq).
  cbn [Js.abs]. apply gt_zero_of_pos. rewrite Qred_correct.
  by rewrite Qabs_pos by (by apply Qlt_le_weak).
Qed.

End JsSigns.

Lemma tokenEntries_not_sol (changes : Js.Map Js.num) (m : string)
    (tc : Js.num) :
  (m, tc) ∈ tokenEntries changes → m ≠ SOL_MINT.
Proof.
  unfold tokenEntries. intros H.
  apply list_elem_of_In, List.filter_In in H as [_ H]. cbn [fst] in H.
  apply negb_true_iff in H. by apply String.eqb_neq.
Qed.

Lemma parseSwap_swap_positive (Number : string → Js.num)
    (tx : TransactionData) (target : option string) (s : Side) (m : string)
    (ta sa : Js.num) :
  parseSwap Number tx target = Swap s m ta sa →
  m ≠ SOL_MINT
  ∧ (s ≠ unknown →
     Js.gt ta (Js.ofZ 0) = true ∧ Js.gt sa (Js.ofZ 0) = true).
Proof.
  intros Hr.
  destruct (parseSwap_amounts Number tx target s m ta sa Hr)
    as (changes & tc & Hsel & He & -> & ->).
  split.
  { apply (tokenEntries_not_sol changes m tc). rewrite He. set_solver. }
  intros Hs. destruct s; [| |done].
  - assert (sideOf (parseSwap Number tx target) = Some buy) as Hb
      by (by rewrite Hr).
    apply parseSwap_buy_iff in Hb as (c & m' & tc' & Hsel' & He' & H1 & H2).
    rewrite Hsel in Hsel'. injection Hsel' as <-.
    rewrite He in He'. injection He' as <- <-.
    split; [by apply JsSigns.abs_pos_of_gt | by apply JsSigns.abs_pos_of_lt].
  - assert (sideOf (parseSwap Number tx target) = Some sell) as Hb
      by (by rewrite Hr).
    apply parseSwap_sell_iff in Hb as (c & m' & tc' & Hsel' & He' & H1 & H2).
    rewrite Hsel in Hsel'. injection Hsel' as <-.
    rewrite He in He'. injection He' as <- <-.
    split; [by apply JsSigns.abs_pos_of_lt | by apply JsSigns.abs_pos_of_gt].
Qed.

(** X1.  Every record [parseSwap] returns names a mint other than the
    native one, and in a record of side buy or sell both amounts are
    positive numbers (never zero, negative or [NaN]). *)
Theorem parseSwap_amounts_positive (Number : string → Js.num)
    (tx : TransactionData) (target : option string) (s : Side) (m : string)
    (ta sa : Js.num) :
  parseSwap Number tx target = Swap s m ta sa →
  m ≠ SOL_MINT
  ∧ (s ≠ unknown →
     Js.gt ta (Js.ofZ 0) = true ∧ Js.gt sa (Js.ofZ 0) = true).
Proof. apply parseSwap_swap_positive. Qed.

(** The sell of the specification's second scenario has positive
    amounts. *)
Lemma parseSwap_amounts_positive_witness :
  "M" ≠ SOL_MINT
  ∧ (sell ≠ unknown →
     Js.gt (Js.Fin 500) (Js.ofZ 0) = true
     ∧ Js.gt (Js.Fin (1 # 10)) (Js.ofZ 0) = true).
Proof.
  apply (parseSwap_amounts_positive Js.NumberOfDigits
           (singleSwapTx "W" "M" 100000000 "-500000000" 6) (Some "W")).
  reflexivity.
Defined.

(** *** Which users a payload speaks about *)

Lemma get_set_ne {V} (m : Js.Map V) (k k' : string) (v : V) :
  k ≠ k' → Js.get (Js.set m k v) k' = Js.get m k'.
Proof.
  intros Hne. induction m as [|[k0 v0] m IH]; cbn [Js.get Js.set].
  - by apply String.eqb_neq in Hne as ->.
  - destruct (String.eqb k0 k) eqn:E; cbn [Js.get]; [|by rewrite IH].
    apply String.eqb_eq in E as ->.
    by apply String.eqb_neq in Hne as ->.
Qed.

Section PayloadUsers.

Variable Number : string → Js.num.

Lemma addChange_users (uc : UserChanges) (user mint : string)
    (delta : Js.num) (u : string) :
  is_Some (Js.get (addChange uc user mint delta) u)
  ↔ u = user ∨ is_Some (Js.get uc u).
Proof.
  unfold addChange. cbv zeta. destruct (decide (u = user)) as [->|Hne].
  - rewrite get_set_eq. split; [by left | by eexists].
  - rewrite get_set_ne by done.
    destruct (Js.has uc user); [|rewrite get_set_ne by done];
      (split; [by right | by intros [?|?]]).
Qed.

Lemma tokenChanges_users (tbcs : list TokenBalanceChange) (uc : UserChanges)
    (u : string) :
  is_Some (Js.get (fold_left (addTokenChange Number) tbcs uc) u)
  ↔ is_Some (Js.get uc u) ∨ ∃ tbc, tbc ∈ tbcs ∧ userAccount tbc = u.
Proof.
  revert uc. induction tbcs as [|tbc tbcs IH]; intros uc; cbn [fold_left].
  - split; [by left | intros [?|(? & H & _)]; [done | by apply elem_of_nil in H]].
  - rewrite IH. unfold addTokenChange. rewrite addChange_users. split.
    + intros [[->|?]|(t & Ht & Hu)].
      * right. exists tbc. split; [by left | done].
      * by left.
      * right. exists t. split; [by right | done].
    + intros [?|(t & Ht & Hu)]; [by left; right|].
      apply elem_of_cons in Ht as [->|Ht]; [by left; left|].
      right. by exists t.
Qed.

Lemma tokenLoop_is_Some (accs : list Account) (uc : UserChanges) :
  is_Some (tokenLoop Number accs uc)
  ↔ ∀ acc, acc ∈ accs → is_Some (tokenBalanceChanges acc).
Proof.
  revert uc. induction accs as [|acc accs IH]; intros uc; cbn [tokenLoop].
  - split; [intros _ ? H; by apply elem_of_nil in H | by eexists].
  - destruct (tokenBalanceChanges acc) as [tbcs|] eqn:E;
      cbn [mbind option_bind].
    + rewrite IH. split.
      * intros H a Ha. apply elem_of_cons in Ha as [->|Ha]; [by rewrite E|].
        by apply H.
      * intros H a Ha. apply H. by right.
    + split; [by intros [? ?]|]. intros H.
      destruct (H acc) as [? Hs]; [by left|]. by rewrite E in Hs.
Qed.

Lemma tokenLoop_users (accs : list Account) (uc uc' : UserChanges)
    (u : string) :
  tokenLoop Number accs uc = Some uc' →
  is_Some (Js.get uc' u)
  ↔ is_Some (Js.get uc u)
    ∨ ∃ acc tbcs tbc, acc ∈ accs ∧ tokenBalanceChanges acc = Some tbcs
                      ∧ tbc ∈ tbcs ∧ userAccount tbc = u.
Proof.
  revert uc. induction accs as [|acc accs IH]; intros uc; cbn [tokenLoop].
  - intros [= <-]. split; [by left|].
    intros [?|(? & ? & ? & H & _)]; [done | by apply elem_of_nil in H].
  - destruct (tokenBalanceChanges acc) as [tbcs|] eqn:E;
      cbn [mbind option_bind]; [|done].
    intros H. rewrite (IH _ H), tokenChanges_users. split.
    + intros [[?|(t & Ht & Hu)]|(a & ts & t & Ha & Hts & Ht & Hu)].
      * by left.
      * right. exists acc, tbcs, t. split; [by left | done].
      * right. exists a, ts, t. split; [by right | done].
    + intros [?|(a & ts & t & Ha & Hts & Ht & Hu)]; [by left; left|].
      apply elem_of_cons in Ha as [->|Ha].
      * left. right. exists t. rewrite E in Hts. by injection Hts as <-.
      * right. by exists a, ts, t.
Qed.

Lemma nativeChanges_users (accs : list Account) (uc : UserChanges)
    (u : string) :
  is_Some (Js.get (fold_left addNativeChange accs uc) u)
  ↔ is_Some (Js.get uc u)
    ∨ ∃ acc, acc ∈ accs ∧ account acc = u ∧ nativeBalanceChange acc ≠ 0.
Proof.
  revert uc. induction accs as [|acc accs IH]; intros uc; cbn [fold_left].
  - split; [by left | intros [?|(? & H & _)]; [done | by apply elem_of_nil in H]].
  - rewrite IH. unfold addNativeChange.
    destruct (Z.eqb_spec (nativeBalanceChange acc) 0) as [Hz|Hz].
    + split.
      * intros [?|(a & Ha & ?)]; [by left|]. right. exists a.
        split; [by right | done].
      * intros [?|(a & Ha & Hu & Hn)]; [by left|].
        apply elem_of_cons in Ha as [->|Ha]; [done|]. right. by exists a.
    + rewrite addChange_users. split.
      * intros [[->|?]|(a & Ha & ?)].
        -- right. exists acc. split; [by left | done].
        -- by left.
        -- right. exists a. split; [by right | done].
      * intros [?|(a & Ha & Hu & Hn)]; [by left; right|].
        apply elem_of_cons in Ha as [->|Ha]; [by left; left|].
        right. by exists a.
Qed.

(** X2.  The users [parseSwap] can analyse are exactly those the payload
    speaks about: the map it builds has an entry for a user if and only if
    some token balance change names the user or the user's own account has
    a non-zero native change.  Asked for any other user, [parseSwap]
    returns the empty record. *)
Theorem parseSwap_users (tx : TransactionData) :
  (∀ uc u, buildUserChanges Number tx = Some uc →
     is_Some (Js.get uc u) ↔ hasTokenChange tx u ∨ hasNativeChange tx u)
  ∧ (∀ u, ¬ hasTokenChange tx u → ¬ hasNativeChange tx u →
       parseSwap Number tx (Some u) = EmptySwap).
Proof.
  assert (∀ uc u, buildUserChanges Number tx = Some uc →
            is_Some (Js.get uc u) ↔ hasTokenChange tx u ∨ hasNativeChange tx u)
    as Hdom.
  { intros uc u. unfold buildUserChanges, hasTokenChange, hasNativeChange.
    destruct (accountData tx) as [accs|]; cbn [mbind option_bind]; [|done].
    destruct (tokenLoop Number accs []) as [uc1|] eqn:E;
      cbn [mbind option_bind]; [|done].
    intros [= <-]. rewrite nativeChanges_users, (tokenLoop_users _ _ _ _ E).
    split.
    - intros [[[? H]|(a & ts & t & ?)]|(a & ?)]; [done| |].
      + left. by exists accs, a, ts, t.
      + right. by exists accs, a.
    - intros [(l & a & ts & t & [= <-] & ?)|(l & a & [= <-] & ?)].
      + left. right. by exists a, ts, t.
      + right. by exists a. }
  split; [done|].
  intros u Ht Hn. rewrite parseSwap_selected. unfold selectedChanges.
  destruct (buildUserChanges Number tx) as [uc|] eqn:E;
    cbn [mbind option_bind]; [|done].
  destruct (userToCheck uc (Some u)) as [u'|] eqn:Eu;
    cbn [mbind option_bind]; [|done].
  assert (u' = u) as ->.
  { unfold userToCheck in Eu. destruct (String.eqb u ""); congruence. }
  destruct (Js.get uc u) as [changes|] eqn:Eg; [|done].
  exfalso. destruct (Hdom uc u eq_refl) as [H _].
  destruct H as [?|?]; [by eexists | done | done].
Qed.

Lemma parseSwapBody_wellShaped (tx : TransactionData)
    (target : option string) :
  wellShaped tx → is_Some (parseSwapBody Number tx target).
Proof.
  unfold parseSwapBody, buildUserChanges. intros (accs & -> & H).
  cbn [mbind option_bind].
  apply tokenLoop_is_Some with (uc := []) in H as [uc ->].
  cbn [mbind option_bind]. destruct (userToCheck _ target); [|by eexists].
  destruct (Js.get _ _); by eexists.
Qed.

(** X3.  A payload that lacks [accountData], or in which some account
    lacks [tokenBalanceChanges], is answered with the empty record,
    whoever is asked for and whatever the other accounts hold: the first
    loop raises on it and the [catch] clause answers. *)
Theorem parseSwap_missing_fields (tx : TransactionData)
    (target : option string) :
  accountData tx = None
  ∨ (∃ accs acc, accountData tx = Some accs ∧ acc ∈ accs
                 ∧ tokenBalanceChanges acc = None) →
  parseSwapBody Number tx target = None
  ∧ parseSwap Number tx target = EmptySwap.
Proof.
  intros H.
  assert (parseSwapBody Number tx target = None) as Hb;
    [|split; [done | unfold parseSwap; by rewrite Hb]].
  unfold parseSwapBody, buildUserChanges.
  destruct H as [->|(accs & acc & -> & Hin & Hnone)]; [done|].
  cbn [mbind option_bind].
  destruct (tokenLoop Number accs []) as [uc|] eqn:E; [|done].
  assert (is_Some (tokenLoop Number accs [])) as Hs by (by rewrite E).
  destruct (proj1 (tokenLoop_is_Some accs []) Hs acc Hin) as [l Hl].
  by rewrite Hnone in Hl.
Qed.

End PayloadUsers.

(** The buy payload with a further account that lacks
    [tokenBalanceChanges]: asked for the buyer, [parseSwap] returns the
    empty record. *)
Lemma parseSwap_missing_fields_witness :
  parseSwapBody Js.NumberOfDigits MoreSamples.tornTx (Some "W") = None
  ∧ parseSwap Js.NumberOfDigits MoreSamples.tornTx (Some "W") = EmptySwap.
Proof.
  apply (parseSwap_missing_fields Js.NumberOfDigits MoreSamples.tornTx
           (Some "W")).
  right. eexists _, {| account := "X"; nativeBalanceChange := 0;
                       tokenBalanceChanges := None |}.
  split; [reflexivity|]. split; [|reflexivity].
  apply elem_of_app. right. by apply list_elem_of_singleton.
Defined.

(** Asked for a user the buy payload does not mention, [parseSwap]
    returns the empty record. *)
Lemma parseSwap_users_witness :
  parseSwap Js.NumberOfDigits
    (singleSwapTx "W" "M" (-50000000) "1000000000" 6) (Some "V")
  = EmptySwap.
Proof.
  apply (parseSwap_users Js.NumberOfDigits
           (singleSwapTx "W" "M" (-50000000) "1000000000" 6)).
  - intros (accs & acc & tbcs & tbc & [= <-] & Ha & Ht & Hb & Hu).
    apply list_elem_of_singleton in Ha as ->.
    injection Ht as <-. apply list_elem_of_singleton in Hb as ->.
    discriminate Hu.
  - intros (accs & acc & [= <-] & Ha & Hu & _).
    apply list_elem_of_singleton in Ha as ->. discriminate Hu.
Defined.

(** *** [classifySwap] *)

Lemma keys_set {V} (m : Js.Map V) (k : string) (v : V) (x : string) :
  x ∈ Js.keys (Js.set m k v) ↔ x = k ∨ x ∈ Js.keys m.
Proof.
  unfold Js.keys. induction m as [|[k0 v0] m IH]; cbn [Js.set map fst].
  - set_solver.
  - destruct (String.eqb k0 k) eqn:E; cbn [map fst].
    + apply String.eqb_eq in E as ->. set_solver.
    + set_solver.
Qed.

Lemma NoDup_keys_set {V} (m : Js.Map V) (k : string) (v : V) :
  NoDup (Js.keys m) → NoDup (Js.keys (Js.set m k v)).
Proof.
  induction m as [|[k0 v0] m IH]; cbn [Js.set].
  - intros _. apply NoDup_singleton.
  - intros [Hn Hm]%NoDup_cons.
    destruct (String.eqb k0 k) eqn:E.
    + by apply NoDup_cons.
    + apply NoDup_cons. split; [|by apply IH].
      change (k0 ∉ Js.keys (Js.set m k v)). rewrite keys_set.
      apply String.eqb_neq in E. by intros [?|?].
Qed.

Lemma NoDup_keys_accumulate (owner : string) (ts : list TokenTransfer)
    (delta : Js.Map Js.num) :
  NoDup (Js.keys delta) →
  NoDup (Js.keys (fold_left (accumulateTransfer owner) ts delta)).
Proof.
  revert delta. induction ts as [|t ts IH]; intros delta Hd; [done|].
  cbn [fold_left]. apply IH. unfold accumulateTransfer.
  destruct (Js.isZero _); [done|]. by apply NoDup_keys_set.
Qed.

(** X4.  [classifySwap] returns either the all-zero record of type
    unknown, or a record of type buy or sell whose token mint is not the
    wrapped-SOL mint and whose two amounts are positive numbers. *)
Theorem classifySwap_wellformed (transfers : list TokenTransfer)
    (owner : string) :
  classifySwap transfers owner = unknownSwap
  ∨ (sw_type (classifySwap transfers owner) ≠ unknown
     ∧ sw_tokenMint (classifySwap transfers owner) ≠ WSOL_MINT
     ∧ Js.gt (sw_tokenAmount (classifySwap transfers owner)) (Js.ofZ 0)
       = true
     ∧ Js.gt (sw_solAmount (classifySwap transfers owner)) (Js.ofZ 0)
       = true).
Proof.
  pose proof (NoDup_keys_accumulate owner transfers [] (NoDup_nil_2)) as Hnd.
  unfold classifySwap.
  destruct (fold_left (accumulateTransfer owner) transfers [])
    as [|[mintA changeA] [|[mintB changeB] [|? ?]]]; [by left..| |by left].
  cbv zeta. unfold Js.keys in Hnd. cbn [map fst] in Hnd.
  assert (mintA ≠ mintB) as Hab.
  { apply NoDup_cons in Hnd as [Hn _]. set_solver. }
  assert (∀ (tm : string) (sc tc : Js.num), tm ≠ WSOL_MINT →
    let r :=
      if Js.gt sc (Js.ofZ 0) && Js.lt tc (Js.ofZ 0) then
        {| sw_type := sell; sw_tokenMint := tm;
           sw_tokenAmount := Js.abs tc; sw_solAmount := Js.abs sc |}
      else if Js.lt sc (Js.ofZ 0) && Js.gt tc (Js.ofZ 0) then
        {| sw_type := buy; sw_tokenMint := tm;
           sw_tokenAmount := Js.abs tc; sw_solAmount := Js.abs sc |}
      else unknownSwap in
    r = unknownSwap
    ∨ (sw_type r ≠ unknown ∧ sw_tokenMint r ≠ WSOL_MINT
       ∧ Js.gt (sw_tokenAmount r) (Js.ofZ 0) = true
       ∧ Js.gt (sw_solAmount r) (Js.ofZ 0) = true)) as Hside.
  { intros tm sc tc Htm. cbv zeta.
    destruct (Js.gt sc (Js.ofZ 0)) eqn:E1, (Js.lt tc (Js.ofZ 0)) eqn:E2;
      cbn [andb].
    1: { right. cbn. repeat split; [done|done| |].
         - by apply JsSigns.abs_pos_of_lt.
         - by apply JsSigns.abs_pos_of_gt. }
    all: destruct (Js.lt sc (Js.ofZ 0)) eqn:E3,
           (Js.gt tc (Js.ofZ 0)) eqn:E4; cbn [andb]; try (by left).
    all: right; cbn; repeat split; [done|done| |];
      [by apply JsSigns.abs_pos_of_gt | by apply JsSigns.abs_pos_of_lt]. }
  destruct (String.eqb mintA WSOL_MINT) eqn:EA.
  - apply String.eqb_eq in EA. cbn [negb andb].
    apply Hside. congruence.
  - destruct (String.eqb mintB WSOL_MINT) eqn:EB; cbn [negb andb];
      [|by left].
    apply Hside. by apply String.eqb_neq.
Qed.

Lemma accumulate_untouched (owner : string) (ts : list TokenTransfer)
    (delta : Js.Map Js.num) :
  (∀ t, t ∈ ts → fromUserAccount t ≠ owner ∧ toUserAccount t ≠ owner) →
  fold_left (accumulateTransfer owner) ts delta = delta.
Proof.
  revert delta. induction ts as [|t ts IH]; intros delta H; [done|].
  cbn [fold_left]. destruct (H t) as [Hf Ht]; [by left|].
  assert (accumulateTransfer owner delta t = delta) as ->.
  { unfold accumulateTransfer, transferChange.
    apply String.eqb_neq in Hf as ->. by apply String.eqb_neq in Ht as ->. }
  apply IH. intros t' Ht'. apply H. by right.
Qed.

(** X5.  Transfers that neither leave nor reach the owner say nothing
    about the owner: [classifySwap] returns the all-zero record of type
    unknown, whatever mints and amounts they carry. *)
Theorem classifySwap_untouched (transfers : list TokenTransfer)
    (owner : string) :
  (∀ t, t ∈ transfers →
     fromUserAccount t ≠ owner ∧ toUserAccount t ≠ owner) →
  classifySwap transfers owner = unknownSwap.
Proof.
  intros H. unfold classifySwap. by rewrite accumulate_untouched.
Qed.

Lemma classifySwap_untouched_witness :
  classifySwap
    [ {| fromTokenAccount := "a1"; fromUserAccount := "A";
         tt_mint := WSOL_MINT; toTokenAccount := "b1";
         toUserAccount := "B"; tt_tokenAmount := Js.ofZ 2 |};
      {| fromTokenAccount := "b2"; fromUserAccount := "B";
         tt_mint := "M"; toTokenAccount := "a2";
         toUserAccount := "A"; tt_tokenAmount := Js.ofZ 700 |} ] "C"
  = unknownSwap.
Proof.
  apply classifySwap_untouched. intros t Ht.
  apply elem_of_cons in Ht as [->|Ht]; [by split|].
  apply list_elem_of_singleton in Ht as ->. by split.
Defined.

(** X6.  The two legs of a simple swap are read back: when the owner pays
    [x] wrapped SOL to a pool and receives [y] of another mint,
    [classifySwap] reports a buy of [y] for [x]; with the legs reversed
    it reports a sell of [y] for [x]. *)
Theorem classifySwap_simple (owner pool M : string) (x y : Q)
    (a1 a2 a3 a4 : string) :
  owner ≠ pool → M ≠ WSOL_MINT → (0 < x)%Q → (0 < y)%Q →
  classifySwap
    [ {| fromTokenAccount := a1; fromUserAccount := owner;
         tt_mint := WSOL_MINT; toTokenAccount := a2;
         toUserAccount := pool; tt_tokenAmount := Js.Fin x |};
      {| fromTokenAccount := a3; fromUserAccount := pool;
         tt_mint := M; toTokenAccount := a4;
         toUserAccount := owner; tt_tokenAmount := Js.Fin y |} ] owner
  = {| sw_type := buy; sw_tokenMint := M;
       sw_tokenAmount := Js.Fin (Qred y); sw_solAmount := Js.Fin (Qred x) |}
  ∧ classifySwap
      [ {| fromTokenAccount := a1; fromUserAccount := owner;
           tt_mint := M; toTokenAccount := a2;
           toUserAccount := pool; tt_tokenAmount := Js.Fin y |};
        {| fromTokenAccount := a3; fromUserAccount := pool;
           tt_mint := WSOL_MINT; toTokenAccount := a4;
           toUserAccount := owner; tt_tokenAmount := Js.Fin x |} ] owner
    = {| sw_type := sell; sw_tokenMint := M;
         sw_tokenAmount := Js.Fin (Qred y);
         sw_solAmount := Js.Fin (Qred x) |}.
Proof.
  intros Hp HM Hx Hy.
  assert (∀ q, (0 < q)%Q → Js.isZero (jsSub (Js.ofZ 0) (Js.Fin q)) = false)
    as Hout.
  { intros q Hq. cbn [jsSub Js.ofZ Js.isZero].
    destruct (Qeq_bool _ 0) eqn:E; [|done]. apply Qeq_bool_eq in E.
    rewrite Qred_correct in E. change (inject_Z 0) with 0%Q in E.
    exfalso. apply (Qlt_not_eq _ _ Hq). symmetry.
    rewrite <- (Qopp_involutive q). rewrite <- (Qplus_0_l (- q)).
    by rewrite E. }
  assert (∀ q, (0 < q)%Q → Js.isZero (Js.add (Js.ofZ 0) (Js.Fin q)) = false)
    as Hin.
  { intros q Hq. cbn [Js.add Js.ofZ Js.isZero].
    destruct (Qeq_bool _ 0) eqn:E; [|done]. apply Qeq_bool_eq in E.
    rewrite Qred_correct in E. change (inject_Z 0) with 0%Q in E.
    rewrite Qplus_0_l in E. exfalso. apply (Qlt_not_eq _ _ Hq).
    by symmetry. }
  assert (∀ q, (0 < q)%Q →
            Js.lt (Js.add (Js.ofZ 0) (jsSub (Js.ofZ 0) (Js.Fin q)))
              (Js.ofZ 0) = true
            ∧ Js.abs (Js.add (Js.ofZ 0) (jsSub (Js.ofZ 0) (Js.Fin q)))
              = Js.Fin (Qred q)) as Hneg.
  { intros q Hq. cbn [jsSub Js.add Js.ofZ]. change (inject_Z 0) with 0%Q.
    assert (Qred (0 + Qred (0 - q)) == - q)%Q as Hv.
    { rewrite !Qred_correct. ring. }
    assert (Qred (0 + Qred (0 - q)) < 0)%Q as Hlt.
    { rewrite Hv. by apply (Qopp_lt_compat 0 q). }
    split.
    - by apply JsSigns.lt_zero_of_neg.
    - cbn [Js.abs]. f_equal. apply Qred_complete.
      rewrite Qabs_neg by (by apply Qlt_le_weak). rewrite Hv.
      apply Qopp_involutive. }
  assert (∀ q, (0 < q)%Q →
            Js.gt (Js.add (Js.ofZ 0) (Js.add (Js.ofZ 0) (Js.Fin q)))
              (Js.ofZ 0) = true
            ∧ Js.abs (Js.add (Js.ofZ 0) (Js.add (Js.ofZ 0) (Js.Fin q)))
              = Js.Fin (Qred q)) as Hpos.
  { intros q Hq. cbn [Js.add Js.ofZ]. change (inject_Z 0) with 0%Q.
    assert (Qred (0 + Qred (0 + q)) == q)%Q as Hv.
    { rewrite !Qred_correct. ring. }
    assert (0 < Qred (0 + Qred (0 + q)))%Q as Hgt by (by rewrite Hv).
    split.
    - by apply JsSigns.gt_zero_of_pos.
    - cbn [Js.abs]. f_equal. apply Qred_complete.
      by rewrite Qabs_pos by (by apply Qlt_le_weak). }
  assert (String.eqb pool owner = false) as Epo
    by (apply String.eqb_neq; congruence).
  assert (String.eqb M WSOL_MINT = false) as EM by (by apply String.eqb_neq).
  assert (String.eqb WSOL_MINT M = false) as EM'
    by (apply String.eqb_neq; congruence).
  destruct (Hneg x Hx) as [Hx1 Hx2]. destruct (Hneg y Hy) as [Hy1 Hy2].
  destruct (Hpos x Hx) as [Hx3 Hx4]. destruct (Hpos y Hy) as [Hy3 Hy4].
  split.
  - unfold classifySwap. cbn [fold_left].
    unfold accumulateTransfer at 2, transferChange.
    cbn [fromUserAccount toUserAccount tt_mint tt_tokenAmount].
    rewrite String.eqb_refl, Epo, Hout by done. cbn [Js.get Js.orZero Js.set].
    unfold accumulateTransfer, transferChange.
    cbn [fromUserAccount toUserAccount tt_mint tt_tokenAmount].
    rewrite String.eqb_refl, Epo, Hin by done.
    cbn [Js.get Js.orZero Js.set]. rewrite EM'. cbn [Js.set Js.get].
    rewrite String.eqb_refl, EM. cbn [negb andb Js.orZero].
    pose proof Hx1 as Hx1'.
    rewrite Hx1, Hy3, Hx2, Hy4.
    by rewrite (JsFacts.lt_zero_not_gt _ Hx1').
  - unfold classifySwap. cbn [fold_left].
    unfold accumulateTransfer at 2, transferChange.
    cbn [fromUserAccount toUserAccount tt_mint tt_tokenAmount].
    rewrite String.eqb_refl, Epo, Hout by done. cbn [Js.get Js.orZero Js.set].
    unfold accumulateTransfer, transferChange.
    cbn [fromUserAccount toUserAccount tt_mint tt_tokenAmount].
    rewrite String.eqb_refl, Epo, Hin by done.
    cbn [Js.get Js.orZero Js.set]. rewrite EM. cbn [Js.set Js.get].
    rewrite String.eqb_refl, EM. cbn [negb andb Js.orZero].
    by rewrite Hx3, Hy1, Hx4, Hy2.
Qed.

Lemma classifySwap_simple_witness :
  classifySwap
    [ {| fromTokenAccount := "o1"; fromUserAccount := "O";
         tt_mint := WSOL_MINT; toTokenAccount := "p1";
         toUserAccount := "P"; tt_tokenAmount := Js.Fin 2 |};
      {| fromTokenAccount := "p2"; fromUserAccount := "P";
         tt_mint := "M"; toTokenAccount := "o2";
         toUserAccount := "O"; tt_tokenAmount := Js.Fin 700 |} ] "O"
  = {| sw_type := buy; sw_tokenMint := "M";
       sw_tokenAmount := Js.Fin (Qred 700);
       sw_solAmount := Js.Fin (Qred 2) |}.
Proof.
  apply (classifySwap_simple "O" "P" "M" 2 700 "o1" "p1" "p2" "o2");
    done.
Defined.

(** *** [toHuman] *)

Lemma pow10_pos (d : Z) : (0 < Qred (10 ^ d))%Q.
Proof. rewrite Qred_correct. by apply Qpower_0_lt. Qed.

(** X7.  [toHuman] takes the sign of its result from the first character
    alone: when the text left after removing the first dash reads as a
    number of at least one and the decimals are between 0 and 308 (where
    the power of ten is finite and the quotient does not vanish), the
    result is negative if the raw text starts with a dash and positive
    otherwise. *)
Theorem toHuman_sign (Number : string → Js.num) (raw : string) (d : Z)
    (q : Q) :
  Number (Js.removeFirstDash raw) = Js.Fin q → (1 <= q)%Q →
  0 <= d <= 308 →
  if Js.startsWithDash raw
  then Js.lt (toHuman Number raw d) (Js.ofZ 0) = true
  else Js.gt (toHuman Number raw d) (Js.ofZ 0) = true.
Proof.
  intros HN Hq1 _.
  assert (0 < q)%Q as Hq by (by apply Qlt_le_trans with 1%Q).
  unfold toHuman. cbv zeta. rewrite HN.
  pose proof (pow10_pos d) as Hp. unfold Js.pow10.
  assert (Qeq_bool (Qred (10 ^ d)) 0 = false) as Hnz.
  { destruct (Qeq_bool _ 0) eqn:E; [|done]. apply Qeq_bool_eq in E.
    rewrite E in Hp. by apply Qlt_irrefl in Hp. }
  destruct (Js.startsWithDash raw); cbn [Js.ofZ Js.mul Js.div];
    rewrite Hnz.
  - apply JsSigns.lt_zero_of_neg. rewrite Qred_correct.
    apply Qlt_shift_div_r; [done|]. rewrite Qmult_0_l, Qred_correct.
    assert (inject_Z (-1) * q == - q)%Q as -> by ring.
    by apply (Qopp_lt_compat 0 q).
  - apply JsSigns.gt_zero_of_pos. rewrite Qred_correct.
    apply Qlt_shift_div_l; [done|]. rewrite Qmult_0_l, Qred_correct.
    assert (inject_Z 1 * q == q)%Q as -> by ring. done.
Qed.

Lemma toHuman_sign_witness :
  Js.lt (toHuman Js.NumberOfDigits "-500000000" 6) (Js.ofZ 0) = true.
Proof.
  apply (toHuman_sign Js.NumberOfDigits "-500000000" 6 500000000);
    [reflexivity | discriminate | lia].
Defined.

(** *** The user analysed by default *)

Lemma head_keys_set {V} (m : Js.Map V) (k : string) (v : V) :
  head (Js.keys (Js.set m k v)) = Some (default k (head (Js.keys m))).
Proof.
  destruct m as [|[k0 v0] m]; cbn [Js.set Js.keys map fst head]; [done|].
  by destruct (String.eqb k0 k).
Qed.

Lemma head_keys_addChange (uc : UserChanges) (user mint : string)
    (delta : Js.num) :
  head (Js.keys (addChange uc user mint delta))
  = Some (default user (head (Js.keys uc))).
Proof.
  unfold addChange. cbv zeta. rewrite head_keys_set.
  destruct (Js.has uc user); [done|]. by rewrite head_keys_set.
Qed.

Section DefaultUser.

Variable Number : string → Js.num.

Lemma head_keys_tokenChanges (tbcs : list TokenBalanceChange)
    (uc : UserChanges) (h : string) :
  head (Js.keys uc) = Some h →
  head (Js.keys (fold_left (addTokenChange Number) tbcs uc)) = Some h.
Proof.
  revert uc. induction tbcs as [|tbc tbcs IH]; intros uc H; [done|].
  cbn [fold_left]. apply IH. unfold addTokenChange.
  by rewrite head_keys_addChange, H.
Qed.

Lemma head_keys_tokenLoop (accs : list Account) (uc uc' : UserChanges)
    (h : string) :
  head (Js.keys uc) = Some h → tokenLoop Number accs uc = Some uc' →
  head (Js.keys uc') = Some h.
Proof.
  revert uc. induction accs as [|acc accs IH]; intros uc H;
    cbn [tokenLoop]; [by intros [= <-]|].
  destruct (tokenBalanceChanges acc) as [tbcs|]; cbn [mbind option_bind];
    [|done].
  apply IH. by apply head_keys_tokenChanges.
Qed.

Lemma head_keys_nativeChanges (accs : list Account) (uc : UserChanges)
    (h : string) :
  head (Js.keys uc) = Some h →
  head (Js.keys (fold_left addNativeChange accs uc)) = Some h.
Proof.
  revert uc. induction accs as [|acc accs IH]; intros uc H; [done|].
  cbn [fold_left]. apply IH. unfold addNativeChange.
  destruct (nativeBalanceChange acc =? 0); [done|].
  by rewrite head_keys_addChange, H.
Qed.

(** X8.  Without a target user, [parseSwap] analyses the user named by the
    first token balance change of the first account: the answer is the one
    it gives when asked for that user, whatever else the payload holds. *)
Theorem parseSwap_default_user (tx : TransactionData) (acc : Account)
    (accs : list Account) (tbc : TokenBalanceChange)
    (tbcs : list TokenBalanceChange) :
  accountData tx = Some (acc :: accs) →
  tokenBalanceChanges acc = Some (tbc :: tbcs) →
  parseSwap Number tx None = parseSwap Number tx (Some (userAccount tbc)).
Proof.
  intros Ha Ht. unfold parseSwap, parseSwapBody.
  destruct (buildUserChanges Number tx) as [uc|] eqn:E;
    cbn [mbind option_bind]; [|done].
  assert (head (Js.keys uc) = Some (userAccount tbc)) as Hh.
  { unfold buildUserChanges in E. rewrite Ha in E.
    cbn [mbind option_bind tokenLoop] in E. rewrite Ht in E.
    cbn [mbind option_bind fold_left] in E.
    destruct (tokenLoop Number accs _) as [uc1|] eqn:E1;
      cbn [mbind option_bind] in E; [|done].
    injection E as <-. apply (head_keys_nativeChanges (acc :: accs)).
    eapply head_keys_tokenLoop; [|exact E1].
    apply head_keys_tokenChanges. unfold addTokenChange.
    by rewrite head_keys_addChange. }
  unfold userToCheck. by rewrite Hh.
Qed.

End DefaultUser.

Lemma parseSwap_default_user_witness :
  parseSwap Js.NumberOfDigits
    (singleSwapTx "W" "M" 100000000 "-500000000" 6) None
  = parseSwap Js.NumberOfDigits
      (singleSwapTx "W" "M" 100000000 "-500000000" 6) (Some "W").
Proof.
  apply (parseSwap_default_user Js.NumberOfDigits
           (singleSwapTx "W" "M" 100000000 "-500000000" 6)
           {| account := "W"; nativeBalanceChange := 100000000;
              tokenBalanceChanges :=
                Some [ {| tbc_mint := "M";
                          rawTokenAmount :=
                            {| decimals := 6;
                               tokenAmount := "-500000000" |};
                          tokenAccount := ""; userAccount := "W" |} ] |}
           []
           {| tbc_mint := "M";
              rawTokenAmount :=
                {| decimals := 6; tokenAmount := "-500000000" |};
              tokenAccount := ""; userAccount := "W" |} []);
    reflexivity.
Defined.

(** ** Registry: the lists and the subscriber sets index each other *)

Lemma elem_of_List_filter {A} (p : A → bool) (l : list A) (x : A) :
  x ∈ List.filter p l ↔ x ∈ l ∧ p x = true.
Proof. rewrite !list_elem_of_In. apply List.filter_In. Qed.

Lemma length_filter_filter {A} (p q : A → bool) (l : list A) :
  (length (List.filter p (List.filter q l)) ≤ length (List.filter p l))%nat.
Proof.
  induction l as [|a l IH]; [done|]. cbn [List.filter].
  destruct (q a), (p a) eqn:E; cbn [List.filter length]; rewrite ?E;
    cbn [length]; lia.
Qed.

Lemma map_omap_id {A B} (f : A → option B) (g : B → A) (P : B → Prop)
    (l : list A) :
  (∀ x, x ∈ l → ∃ y, f x = Some y ∧ g y = x ∧ P y) →
  map g (omap f l) = l ∧ Forall P (omap f l).
Proof.
  induction l as [|a l IH]; intros H; [by split|].
  destruct (H a) as (y & Hf & Hg & HP); [by left|].
  destruct IH as [IH1 IH2]; [intros x Hx; apply H; by right|].
  cbn. rewrite Hf. cbn. split; [by rewrite Hg, IH1 | by constructor].
Qed.

Section RegistryIndexFacts.

Variable environment : string.

Local Abbreviation subscribers r wallet :=
  (smembers r (subscribersKey environment wallet)).
Local Abbreviation active r := (getWatchedKOLWallets environment r).
Local Abbreviation userSubs r user := (getUserSubscriptions environment r user).

Lemma indexInv_ext (a b : bool) (r r' : Redis) :
  (∀ user, userSubs r' user = userSubs r user) →
  (∀ wallet, subscribers r' wallet = subscribers r wallet) →
  indexInv environment a b r → indexInv environment a b r'.
Proof.
  intros Hu Hs (Ha & Hb & Ho & Hc). split; [|split; [|split]].
  - intros E wallet user. rewrite Hs, Hu. by apply Ha.
  - intros E user sub. rewrite Hs, Hu. by apply Hb.
  - intros user sub. rewrite Hu. apply Ho.
  - intros user wallet. unfold subscriptionsTo. rewrite Hu. apply Hc.
Qed.

Lemma indexInv_weaken (a b a' b' : bool) (r : Redis) :
  indexInv environment a b r → indexInv environment (a && a') (b && b') r.
Proof.
  intros (Ha & Hb & Ho & Hc). split; [|split; [|split]]; try done.
  - intros [E _]%andb_true_iff. by apply Ha.
  - intros [E _]%andb_true_iff. by apply Hb.
Qed.

Lemma indexInv_empty : indexInv environment true true emptyRedis.
Proof.
  assert (∀ user, userSubs emptyRedis user = []) as Hnil.
  { intros user. unfold getUserSubscriptions. cbn. by rewrite lookup_empty. }
  split; [|split; [|split]].
  - intros _ wallet user. rewrite smembers_empty. set_solver.
  - intros _ user sub H. rewrite Hnil in H. by apply elem_of_nil in H.
  - intros user sub H. rewrite Hnil in H. by apply elem_of_nil in H.
  - intros user wallet. unfold subscriptionsTo. rewrite Hnil. cbn. lia.
Qed.

Lemma indexInv_addSubscription (a b : bool) (r : Redis) (f : Fresh)
    (s : SubscriptionInput) :
  indexInv environment a b r →
  indexInv environment a b (addSubscription environment r f s).1.
Proof.
  intros (Ha & Hb & Ho & Hc). split; [|split; [|split]].
  - intros E wallet user. specialize (Ha E).
    rewrite addSubscription_subscribers.
    rewrite addSubscription_userSubs. intros Hin.
    destruct (decide (wallet = kolWallet s)) as [->|Hw].
    + destruct (decide (user = userId s)) as [->|Hu].
      * eexists. split; [apply elem_of_app; right; by left | done].
      * apply elem_of_union in Hin as [Hin|Hin]; [set_solver|].
        by apply Ha.
    + destruct (Ha _ _ Hin) as (sub & Hsub & Hk).
      destruct (decide (user = userId s)) as [->|Hu]; [|by exists sub].
      exists sub. split; [|done]. apply elem_of_app. left.
      apply elem_of_filter_otherKol; [done | congruence].
  - intros E user sub. specialize (Hb E).
    rewrite addSubscription_userSubs.
    rewrite addSubscription_subscribers.
    destruct (decide (user = userId s)) as [->|Hu].
    + intros [Hin|Hin]%elem_of_app.
      * apply elem_of_List_filter in Hin as [Hin Hk].
        pose proof (Hb _ _ Hin) as H2.
        unfold otherKol in Hk. apply negb_true_iff, String.eqb_neq in Hk.
        by rewrite decide_False.
      * apply list_elem_of_singleton in Hin as ->. cbn [fields].
        rewrite decide_True by done. set_solver.
    + intros Hin. pose proof (Hb _ _ Hin) as H2.
      destruct (decide _) as [e|]; [rewrite e in H2; set_solver | done].
  - intros user sub. rewrite addSubscription_userSubs.
    destruct (decide (user = userId s)) as [->|Hu]; [|apply Ho].
    intros [Hin|Hin]%elem_of_app.
    + apply elem_of_List_filter in Hin as [Hin _]. by apply Ho.
    + by apply list_elem_of_singleton in Hin as ->.
  - intros user wallet. unfold subscriptionsTo.
    rewrite addSubscription_userSubs.
    destruct (decide (user = userId s)) as [->|Hu]; [|apply Hc].
    rewrite List.filter_app, length_app. cbn [List.filter fields].
    unfold sameKol at 2. cbn [fields].
    destruct (String.eqb (kolWallet s) wallet) eqn:E.
    + apply String.eqb_eq in E as <-.
      rewrite filter_sameKol_otherKol. cbn. lia.
    + cbn [length]. pose proof (Hc (userId s) wallet) as Hle.
      unfold subscriptionsTo in Hle.
      pose proof (length_filter_filter (sameKol wallet)
                    (otherKol (kolWallet s)) (userSubs r (userId s))).
      lia.
Qed.

Lemma indexInv_removeSubscription (a b : bool) (r : Redis)
    (user wallet : string) :
  indexInv environment a b r →
  indexInv environment a b (removeSubscription environment r user wallet).1.
Proof.
  intros (Ha & Hb & Ho & Hc). split; [|split; [|split]].
  - intros E wallet' user'. specialize (Ha E).
    rewrite removeSubscription_subscribers.
    rewrite removeSubscription_userSubs. intros Hin.
    destruct (decide (wallet' = wallet)) as [->|Hw].
    + apply elem_of_difference in Hin as [Hin Hne].
      rewrite decide_False by set_solver. by apply Ha.
    + destruct (Ha _ _ Hin) as (sub & Hsub & Hk).
      destruct (decide (user' = user)) as [->|Hu]; [|by exists sub].
      exists sub. split; [|done].
      apply elem_of_filter_otherKol; [done | congruence].
  - intros E user' sub. specialize (Hb E).
    rewrite removeSubscription_userSubs.
    rewrite removeSubscription_subscribers.
    destruct (decide (user' = user)) as [->|Hu].
    + intros Hin. apply elem_of_List_filter in Hin as [Hin Hk].
      pose proof (Hb _ _ Hin) as H2.
      unfold otherKol in Hk. apply negb_true_iff, String.eqb_neq in Hk.
      by rewrite decide_False.
    + intros Hin. pose proof (Hb _ _ Hin) as H2.
      destruct (decide _) as [e|]; [rewrite e in H2; set_solver | done].
  - intros user' sub. rewrite removeSubscription_userSubs.
    destruct (decide (user' = user)) as [->|Hu]; [|apply Ho].
    intros Hin. apply elem_of_List_filter in Hin as [Hin _]. by apply Ho.
  - intros user' wallet'. unfold subscriptionsTo.
    rewrite removeSubscription_userSubs.
    destruct (decide (user' = user)) as [->|Hu]; [|apply Hc].
    pose proof (Hc user wallet') as Hle. unfold subscriptionsTo in Hle.
    pose proof (length_filter_filter (sameKol wallet')
                  (otherKol wallet) (userSubs r user)).
    lia.
Qed.

(** *** The expiry of a key *)

Lemma expireSubs_userSubs (r : Redis) (user user' : string) :
  userSubs (expireSubs r (subscriptionsKey environment user)) user'
  = if decide (user' = user) then [] else userSubs r user'.
Proof.
  unfold getUserSubscriptions, expireSubs. cbn [subs withSubs].
  destruct (decide (user' = user)) as [->|Hne].
  - by rewrite lookup_delete_eq.
  - rewrite lookup_delete_ne; [done|].
    intros H. by apply subscriptionsKey_inj in H.
Qed.

Lemma expireSet_subscribers (r : Redis) (wallet wallet' : string) :
  subscribers (expireSet r (subscribersKey environment wallet)) wallet'
  = if decide (wallet' = wallet) then ∅ else subscribers r wallet'.
Proof.
  unfold smembers, expireSet, delSet. cbn [sets withSets].
  destruct (decide (wallet' = wallet)) as [->|Hne].
  - by rewrite lookup_delete_eq.
  - rewrite lookup_delete_ne; [done|].
    intros H. by apply subscribersKey_inj in H.
Qed.

Lemma expireSet_active_subscribers (r : Redis) (wallet : string) :
  subscribers (expireSet r (activeKey environment)) wallet
  = subscribers r wallet.
Proof.
  unfold smembers, expireSet, delSet. cbn [sets withSets].
  rewrite lookup_delete_ne; [done|]. apply activeKey_ne_subscribersKey.
Qed.

Lemma indexInv_expireSubscriptions (a b : bool) (r : Redis) (user : string) :
  indexInv environment a b r →
  indexInv environment false b
    (expireSubs r (subscriptionsKey environment user)).
Proof.
  intros (Ha & Hb & Ho & Hc). split; [done|]. split; [|split].
  - intros E user' sub. rewrite expireSubs_userSubs.
    destruct (decide (user' = user)); [by intros ?%elem_of_nil|].
    intros Hin. by apply Hb.
  - intros user' sub. rewrite expireSubs_userSubs.
    destruct (decide (user' = user)); [by intros ?%elem_of_nil|]. apply Ho.
  - intros user' wallet. unfold subscriptionsTo.
    rewrite expireSubs_userSubs.
    destruct (decide (user' = user)); [cbn; lia | apply Hc].
Qed.

Lemma indexInv_expireSubscribers (a b : bool) (r : Redis) (wallet : string) :
  indexInv environment a b r →
  indexInv environment a false
    (expireSet r (subscribersKey environment wallet)).
Proof.
  intros (Ha & Hb & Ho & Hc). split; [|split; [done|split]].
  - intros E wallet' user. rewrite expireSet_subscribers.
    destruct (decide (wallet' = wallet)); [set_solver|]. by apply Ha.
  - exact Ho.
  - exact Hc.
Qed.

(** *** The provider-side operations leave the two indexes alone *)

Lemma addKOLWallet_index (r : Redis) (w : string) :
  subs (addKOLWallet environment r w) = subs r
  ∧ ∀ wallet, subscribers (addKOLWallet environment r w) wallet
              = subscribers r wallet.
Proof.
  split; [done|]. intros wallet. unfold addKOLWallet.
  apply smembers_sadd_ne, activeKey_ne_subscribersKey.
Qed.

Lemma removeKOLWallet_index (r : Redis) (w : string) :
  subs (removeKOLWallet environment r w) = subs r
  ∧ ∀ wallet, subscribers (removeKOLWallet environment r w) wallet
              = subscribers r wallet.
Proof.
  split.
  - unfold removeKOLWallet, srem. cbv zeta. by destruct (decide _).
  - intros wallet. unfold removeKOLWallet.
    apply smembers_srem_ne, activeKey_ne_subscribersKey.
Qed.

Lemma userSubs_of_subs (r r' : Redis) (user : string) :
  subs r' = subs r → userSubs r' user = userSubs r user.
Proof. unfold getUserSubscriptions. by intros ->. Qed.

Lemma addKolWalletToWebhook_index (w : World) (reply : ProviderReply)
    (ws : list string) :
  subs (redis (addKolWalletToWebhook environment w reply ws).1)
  = subs (redis w)
  ∧ ∀ wallet,
      subscribers (redis (addKolWalletToWebhook environment w reply ws).1)
        wallet
      = subscribers (redis w) wallet.
Proof.
  destruct reply; cbn [addKolWalletToWebhook fst redis]; [|done|done].
  generalize (getWatchedKOLWallets environment (redis w)) as A.
  intros A. generalize (redis w) as r.
  induction ws as [|x ws IH]; intros r; cbn [fold_left]; [done|].
  destruct (IH (if bool_decide (x ∈ A) then r
                else addKOLWallet environment r x)) as [H1 H2].
  destruct (addKOLWallet_index r x) as [H3 H4].
  split.
  - rewrite H1. by destruct (bool_decide _).
  - intros wallet. rewrite H2. by destruct (bool_decide _).
Qed.

Lemma removeKOLWalletWebhook_index (w : World) (reply : ProviderReply)
    (x : string) :
  subs (redis (removeKOLWalletWebhook environment w reply x).1)
  = subs (redis w)
  ∧ ∀ wallet,
      subscribers (redis (removeKOLWalletWebhook environment w reply x).1)
        wallet
      = subscribers (redis w) wallet.
Proof.
  destruct reply; cbn [removeKOLWalletWebhook fst redis];
    try apply removeKOLWallet_index; done.
Qed.

Lemma subscribeToKOL_index (w : World) (f : Fresh) (reply : ProviderReply)
    (s : SubscriptionInput) :
  subs (redis (subscribeToKOL environment w f reply s).1)
  = subs (addSubscription environment (redis w) f s).1
  ∧ ∀ wallet,
      subscribers (redis (subscribeToKOL environment w f reply s).1) wallet
      = subscribers (addSubscription environment (redis w) f s).1 wallet.
Proof.
  unfold subscribeToKOL.
  destruct (addSubscription environment (redis w) f s) as [r1 sub].
  cbn [fst]. destruct (bool_decide _); cbn [fst redis]; [done|].
  pose proof (addKolWalletToWebhook_index
                {| redis := r1; providerAddresses := providerAddresses w |}
                reply [kolWallet s]) as H.
  destruct (addKolWalletToWebhook _ _ _ _) as [w2 [?|]]; exact H.
Qed.

Lemma unsubscribeFromKOL_index (w : World) (reply : ProviderReply)
    (user wallet : string) :
  subs (redis (unsubscribeFromKOL environment w reply user wallet).1)
  = subs (removeSubscription environment (redis w) user wallet).1
  ∧ ∀ wallet',
      subscribers
        (redis (unsubscribeFromKOL environment w reply user wallet).1) wallet'
      = subscribers (removeSubscription environment (redis w) user wallet).1
          wallet'.
Proof.
  unfold unsubscribeFromKOL.
  destruct (removeSubscription environment (redis w) user wallet)
    as [r1 l].
  cbn [fst]. destruct (Nat.eqb _ 0); cbn [fst redis]; [|done].
  pose proof (removeKOLWalletWebhook_index
                {| redis := r1; providerAddresses := providerAddresses w |}
                reply wallet) as H.
  destruct (removeKOLWalletWebhook _ _ _ _) as [w2 [?|]]; exact H.
Qed.

Lemma indexInv_runOp (a b : bool) (w : World) (op : RegistryOp) :
  indexInv environment a b (redis w) →
  indexInv environment (a && keepsLists op) (b && keepsSubscribers op)
    (redis (runOp environment w op)).
Proof.
  intros Hinv.
  destruct op as [f reply s|reply user wallet|f s|user wallet
                 |reply ws|reply x|user|wallet|];
    cbn [runOp redis keepsLists keepsSubscribers];
    rewrite ?andb_true_r, ?andb_false_r.
  - destruct (subscribeToKOL_index w f reply s) as [H1 H2].
    eapply indexInv_ext; [intros u; by apply userSubs_of_subs | exact H2|].
    by apply indexInv_addSubscription.
  - destruct (unsubscribeFromKOL_index w reply user wallet) as [H1 H2].
    eapply indexInv_ext; [intros u; by apply userSubs_of_subs | exact H2|].
    by apply indexInv_removeSubscription.
  - by apply indexInv_addSubscription.
  - by apply indexInv_removeSubscription.
  - destruct (addKolWalletToWebhook_index w reply ws) as [H1 H2].
    eapply indexInv_ext; [intros u; by apply userSubs_of_subs | exact H2|].
    done.
  - destruct (removeKOLWalletWebhook_index w reply x) as [H1 H2].
    eapply indexInv_ext; [intros u; by apply userSubs_of_subs | exact H2|].
    done.
  - by apply (indexInv_expireSubscriptions a).
  - by apply (indexInv_expireSubscribers a b).
  - eapply indexInv_ext; [|apply expireSet_active_subscribers | exact Hinv].
    done.
Qed.

Lemma indexInv_runOps (ops : list RegistryOp) :
  indexInv environment (forallb keepsLists ops) (forallb keepsSubscribers ops)
    (redis (runOps environment ops)).
Proof.
  unfold runOps.
  assert (∀ a b w,
            indexInv environment a b (redis w) →
            indexInv environment (a && forallb keepsLists ops)
              (b && forallb keepsSubscribers ops)
              (redis (fold_left (runOp environment) ops w))) as H.
  { induction ops as [|op ops IH]; intros a b w Hw.
    - cbn. by rewrite !andb_true_r.
    - cbn [fold_left forallb]. rewrite !andb_assoc.
      apply IH. by apply indexInv_runOp. }
  apply (H true true). apply indexInv_empty.
Qed.

(** X9.  In every state reached from the empty registry through the six
    registry operations and the expiry of keys, whatever the provider
    replies: as long as no subscriber set has expired, a user whose list
    holds a subscription to a wallet is in the subscriber set of that
    wallet; as long as no user list has expired, a member of the
    subscriber set of a wallet holds a subscription to it; and in every
    case the list holds at most one subscription per wallet, and every
    subscription in it carries the user's own id. *)
Theorem registry_index_consistent (ops : list RegistryOp)
    (user wallet : string) :
  let r := redis (runOps environment ops) in
  (forallb keepsSubscribers ops = true →
   subscriptionsTo environment r user wallet ≠ [] →
   user ∈ subscribers r wallet)
  ∧ (forallb keepsLists ops = true →
     user ∈ subscribers r wallet →
     subscriptionsTo environment r user wallet ≠ [])
  ∧ (length (subscriptionsTo environment r user wallet) ≤ 1)%nat
  ∧ (∀ sub, sub ∈ userSubs r user → userId (fields sub) = user).
Proof.
  cbv zeta. destruct (indexInv_runOps ops) as (Ha & Hb & Ho & Hc).
  split; [|split; [|split]].
  - intros E Hne. specialize (Hb E).
    destruct (subscriptionsTo _ _ _ _) as [|sub l] eqn:E'; [done|].
    assert (sub ∈ subscriptionsTo environment
                    (redis (runOps environment ops)) user wallet) as Hs
      by (rewrite E'; by left).
    apply elem_of_List_filter in Hs as [Hs Hk].
    pose proof (Hb _ _ Hs) as H2. unfold sameKol in Hk.
    apply String.eqb_eq in Hk. by rewrite Hk in H2.
  - intros E Hin. specialize (Ha E).
    destruct (Ha _ _ Hin) as (sub & Hsub & Hk).
    assert (sub ∈ subscriptionsTo environment
                    (redis (runOps environment ops)) user wallet) as Hs.
    { apply elem_of_List_filter. split; [done|].
      unfold sameKol. by apply String.eqb_eq. }
    intros Hnil. rewrite Hnil in Hs. by apply elem_of_nil in Hs.
  - apply Hc.
  - apply Ho.
Qed.

Lemma find_sameKol (wallet : string) (l : list UserSubscription)
    (sub : UserSubscription) :
  List.find (sameKol wallet) l = Some sub →
  sub ∈ l ∧ kolWallet (fields sub) = wallet.
Proof.
  intros H. apply List.find_some in H as [Hin Hk].
  split; [by apply list_elem_of_In|].
  unfold sameKol in Hk. by apply String.eqb_eq.
Qed.

(** Whatever the store holds, the subscriptions returned for a wallet name
    that wallet; where the lists carry their owner's id, they are those of
    members of the subscriber set, in the order of [getUsersForKOL]. *)
Lemma fanout_sublist (r : Redis) (wallet : string) :
  listsOwned environment r →
  sublist (map (λ sub, userId (fields sub))
             (getSubscriptionsForKOL environment r wallet))
    (getUsersForKOL environment r wallet)
  ∧ Forall (λ sub, kolWallet (fields sub) = wallet)
      (getSubscriptionsForKOL environment r wallet).
Proof.
  intros Ho. unfold getSubscriptionsForKOL.
  induction (getUsersForKOL environment r wallet) as [|user l [IH1 IH2]];
    [by split|].
  cbn [omap list_omap].
  destruct (List.find (sameKol wallet) (userSubs r user)) as [sub|] eqn:E.
  - apply find_sameKol in E as [Hin Hk]. cbn [map]. split.
    + rewrite (Ho _ _ Hin). by apply sublist_skip.
    + by constructor.
  - split; [by apply sublist_cons | done].
Qed.

Lemma fanout (r : Redis) (wallet : string) :
  subscribersHoldSubscription environment r →
  listsOwned environment r →
  map (λ sub, userId (fields sub))
    (getSubscriptionsForKOL environment r wallet)
  = getUsersForKOL environment r wallet.
Proof.
  intros Ha Ho. unfold getSubscriptionsForKOL.
  apply (map_omap_id _ _ (λ _, True)).
  intros user Hin. unfold getUsersForKOL in Hin.
  apply elem_of_elements in Hin.
  destruct (Ha _ _ Hin) as (sub & Hsub & Hk).
  destruct (List.find (sameKol wallet) (userSubs r user)) as [found|] eqn:E.
  - exists found. split; [done|]. split; [|done].
    apply find_sameKol in E as [Hf _]. by apply Ho.
  - apply List.find_none with (x := sub) in E; [|by apply list_elem_of_In].
    unfold sameKol in E. rewrite Hk, String.eqb_refl in E. done.
Qed.

(** X10.  In every state reached through the registry operations and the
    expiry of keys, [getSubscriptionsForKOL] returns subscriptions to the
    wallet asked for, of distinct members of its subscriber set, in the
    order of [getUsersForKOL]; as long as no user list has expired it
    returns one for each member, so that a trade fans out to exactly the
    subscribers, each once.  (A member whose list has expired is passed
    over.) *)
Theorem getSubscriptionsForKOL_fanout (ops : list RegistryOp)
    (wallet : string) :
  let r := redis (runOps environment ops) in
  sublist (map (λ sub, userId (fields sub))
             (getSubscriptionsForKOL environment r wallet))
    (getUsersForKOL environment r wallet)
  ∧ NoDup (map (λ sub, userId (fields sub))
             (getSubscriptionsForKOL environment r wallet))
  ∧ Forall (λ sub, kolWallet (fields sub) = wallet)
      (getSubscriptionsForKOL environment r wallet)
  ∧ (forallb keepsLists ops = true →
     map (λ sub, userId (fields sub))
       (getSubscriptionsForKOL environment r wallet)
     = getUsersForKOL environment r wallet
     ∧ length (getSubscriptionsForKOL environment r wallet)
       = size (subscribers r wallet)).
Proof.
  cbv zeta. destruct (indexInv_runOps ops) as (Ha & Hb & Ho & Hc).
  destruct (fanout_sublist _ wallet Ho) as [H1 H2].
  split; [done|]. split; [|split; [done|]].
  - eapply sublist_NoDup; [|exact H1]. apply NoDup_elements.
  - intros E. specialize (Ha E).
    pose proof (fanout _ wallet Ha Ho) as H3. split; [done|].
    rewrite <- (length_map (λ sub, userId (fields sub))), H3. done.
Qed.

End RegistryIndexFacts.

(** U1 and U2 subscribe to K1 and the list of U2 expires: U1, whose list
    still holds the subscription, is in the subscriber set of K1. *)
Lemma registry_index_consistent_witness :
  "U1" ∈ smembers (redis (runOps Sample.env Sample.expiryRun))
           (subscribersKey Sample.env "K1").
Proof.
  destruct (registry_index_consistent Sample.env Sample.expiryRun "U1" "K1")
    as (H & _).
  apply H; [reflexivity | by vm_compute].
Defined.

(** While both are subscribed, a trade of K1 fans out to U1 and U2. *)
Lemma getSubscriptionsForKOL_fanout_witness :
  map (λ sub, userId (fields sub))
    (getSubscriptionsForKOL Sample.env
       (redis (runOps Sample.env Sample.bothSubscribe)) "K1")
  = getUsersForKOL Sample.env
      (redis (runOps Sample.env Sample.bothSubscribe)) "K1"
  ∧ length (getSubscriptionsForKOL Sample.env
              (redis (runOps Sample.env Sample.bothSubscribe)) "K1")
    = size (smembers (redis (runOps Sample.env Sample.bothSubscribe))
              (subscribersKey Sample.env "K1")).
Proof.
  destruct (getSubscriptionsForKOL_fanout Sample.env Sample.bothSubscribe
              "K1") as (_ & _ & _ & H).
  apply H. reflexivity.
Defined.

(** ** Registry: what the operations answer and what they leave behind *)

Lemma Redis_eq (r r' : Redis) :
  subs r = subs r' → sets r = sets r' → counts r = counts r' →
  purchaseRecords r = purchaseRecords r' → r = r'.
Proof. destruct r, r'. cbn. by intros -> -> -> ->. Qed.

Section RegistryAnswers.

Variable environment : string.

Local Abbreviation subscribers r wallet :=
  (smembers r (subscribersKey environment wallet)).
Local Abbreviation active r := (getWatchedKOLWallets environment r).
Local Abbreviation userSubs r user := (getUserSubscriptions environment r user).

(** X11.  [subscribeToKOL] does not undo the subscription when the
    provider does not take the wallet: for a wallet that is not yet
    watched and a provider call that rejects or resolves with a falsy
    value, the store is exactly the one [addSubscription] leaves (the user
    is a subscriber of the wallet) while the wallet stays outside the
    active watch set.  The call throws when the provider rejects and
    returns the user's list as on success when the provider declines. *)
Theorem subscribeToKOL_not_rolled_back (w : World) (f : Fresh)
    (reply : ProviderReply) (s : SubscriptionInput) :
  reply ≠ Accepted → kolWallet s ∉ active (redis w) →
  let out := subscribeToKOL environment w f reply s in
  redis out.1 = (addSubscription environment (redis w) f s).1
  ∧ providerAddresses out.1 = providerAddresses w
  ∧ userId s ∈ subscribers (redis out.1) (kolWallet s)
  ∧ (kolWallet s ∉ active (redis out.1))
  ∧ (reply = Failed → out.2 = Thrown)
  ∧ (reply = Declined →
     out.2 = Returned (addSubscription environment (redis w) f s).2).
Proof.
  intros Hr Hna. cbv zeta.
  pose proof (addSubscription_active environment (redis w) f s) as Hact.
  pose proof (addSubscription_subscribers environment (redis w) f s
                (kolWallet s)) as Hsub.
  unfold subscribeToKOL.
  destruct (addSubscription environment (redis w) f s) as [r1 sub].
  cbn [fst snd] in *. rewrite bool_decide_eq_false_2 by (by rewrite Hact).
  rewrite decide_True in Hsub by done.
  destruct reply; [done| |]; cbn [addKolWalletToWebhook fst snd redis
                                  providerAddresses].
  - repeat split; [set_solver | by rewrite Hact | done].
  - repeat split; [set_solver | by rewrite Hact | done].
Qed.

(** X12.  [unsubscribeFromKOL] removes the subscription whatever it
    answers: afterwards the user's list holds no subscription to the
    wallet and the user is not among the wallet's subscribers.  The answer
    [success: false] is given exactly when no subscription to the wallet
    is left and the provider call rejects. *)
Theorem unsubscribeFromKOL_answer (w : World) (reply : ProviderReply)
    (user wallet : string) :
  let out := unsubscribeFromKOL environment w reply user wallet in
  let r1 := (removeSubscription environment (redis w) user wallet).1 in
  (out.2 = false
   ↔ reply = Failed ∧ getSubscriptionsForKOL environment r1 wallet = [])
  ∧ userSubs (redis out.1) user
    = List.filter (otherKol wallet) (userSubs (redis w) user)
  ∧ subscriptionsTo environment (redis out.1) user wallet = []
  ∧ user ∉ subscribers (redis out.1) wallet.
Proof.
  cbv zeta.
  destruct (unsubscribeFromKOL_index environment w reply user wallet)
    as [H1 H2].
  assert (userSubs (redis (unsubscribeFromKOL environment w reply user
                             wallet).1) user
          = List.filter (otherKol wallet) (userSubs (redis w) user)) as Hl.
  { rewrite (userSubs_of_subs environment _ _ user H1).
    rewrite removeSubscription_userSubs. by rewrite decide_True. }
  split; [|split; [done|split]].
  - unfold unsubscribeFromKOL.
    destruct (removeSubscription environment (redis w) user wallet)
      as [r1 l].
    cbn [fst]. destruct (getSubscriptionsForKOL environment r1 wallet)
      as [|sub subs']; cbn [length Nat.eqb].
    + destruct reply; cbn [removeKOLWalletWebhook snd]; split; try done;
        by intros [? _].
    + cbn [snd]. split; [done | by intros [_ ?]].
  - unfold subscriptionsTo. rewrite Hl. apply filter_sameKol_otherKol.
  - rewrite H2, removeSubscription_subscribers.
    rewrite decide_True by done.
    intros [_ Hn]%elem_of_difference. apply Hn. by apply elem_of_singleton.
Qed.

(** *** The sets after [removeKOLWalletSubscriber], key by key *)

Lemma removeKOLWalletSubscriber_lookup (r : Redis) (wallet user k : string) :
  let s1 := subscribers r wallet ∖ {[user]} in
  let a1 := active r ∖ {[wallet]} in
  sets (removeKOLWalletSubscriber environment r wallet user) !! k
  = if decide (k = subscribersKey environment wallet)
    then (if decide (s1 = ∅) then None else Some s1)
    else if decide (s1 = ∅)
         then (if decide (k = activeKey environment)
               then (if decide (a1 = ∅) then None else Some a1)
               else sets r !! k)
         else sets r !! k.
Proof.
  cbv zeta.
  pose proof (activeKey_ne_subscribersKey environment wallet) as Hne.
  unfold removeKOLWalletSubscriber. cbv zeta.
  destruct (Nat.eqb _ 0) eqn:E.
  - apply scard_zero in E. rewrite smembers_srem_eq in E.
    destruct (decide (subscribers r wallet ∖ {[user]} = ∅)) as [_|?];
      [|done].
    unfold delSet, removeKOLWallet. cbn [sets withSets].
    destruct (decide (k = subscribersKey environment wallet)) as [->|Hk].
    { by rewrite lookup_delete_eq. }
    rewrite lookup_delete_ne by done.
    assert (smembers (srem r (subscribersKey environment wallet) user)
              (activeKey environment) = active r) as HA.
    { unfold getWatchedKOLWallets. by apply smembers_srem_ne. }
    unfold srem at 1. cbv zeta. rewrite HA. cbn [sets withSets].
    assert (sets (srem r (subscribersKey environment wallet) user) !! k
            = sets r !! k) as Hsame.
    { unfold srem. cbv zeta. cbn [sets withSets].
      destruct (decide _); [by rewrite lookup_delete_ne|].
      by rewrite lookup_insert_ne. }
    destruct (decide (active r ∖ {[wallet]} = ∅)) as [Ha|Ha];
      cbn [sets withSets];
      destruct (decide (k = activeKey environment)) as [->|Hka].
    + by rewrite lookup_delete_eq.
    + by rewrite lookup_delete_ne.
    + by rewrite lookup_insert_eq.
    + by rewrite lookup_insert_ne.
  - assert (subscribers r wallet ∖ {[user]} ≠ ∅) as Hs.
    { intros Hs. rewrite <- smembers_srem_eq in Hs.
      apply scard_zero in Hs. congruence. }
    unfold srem. cbv zeta.
    change (smembers r (subscribersKey environment wallet))
      with (subscribers r wallet).
    destruct (decide (subscribers r wallet ∖ {[user]} = ∅)) as [?|_];
      [done|].
    cbn [sets withSets].
    destruct (decide (k = subscribersKey environment wallet)) as [->|Hk].
    + by rewrite lookup_insert_eq.
    + by rewrite lookup_insert_ne.
Qed.

Lemma removeKOLWalletSubscriber_rest (r : Redis) (wallet user : string) :
  counts (removeKOLWalletSubscriber environment r wallet user) = counts r
  ∧ purchaseRecords (removeKOLWalletSubscriber environment r wallet user)
    = purchaseRecords r.
Proof.
  unfold removeKOLWalletSubscriber, delSet, removeKOLWallet, srem.
  cbv zeta. destruct (Nat.eqb _ 0); cbn [counts purchaseRecords withSets];
    done.
Qed.

Lemma removeKOLWalletSubscriber_idempotent (r : Redis)
    (wallet user : string) :
  removeKOLWalletSubscriber environment
    (removeKOLWalletSubscriber environment r wallet user) wallet user
  = removeKOLWalletSubscriber environment r wallet user.
Proof.
  pose proof (activeKey_ne_subscribersKey environment wallet) as Hne.
  apply Redis_eq.
  - by rewrite !removeKOLWalletSubscriber_subs.
  - apply map_eq. intros k.
    rewrite (removeKOLWalletSubscriber_lookup
               (removeKOLWalletSubscriber environment r wallet user)).
    cbv zeta. rewrite removeKOLWalletSubscriber_subscribers.
    rewrite (decide_True (P := wallet = wallet)) by done.
    rewrite removeKOLWalletSubscriber_active.
    assert (subscribers r wallet ∖ {[user]} ∖ {[user]}
            = subscribers r wallet ∖ {[user]}) as -> by set_solver.
    rewrite (removeKOLWalletSubscriber_lookup r). cbv zeta.
    destruct (decide (k = subscribersKey environment wallet)); [done|].
    destruct (decide (subscribers r wallet ∖ {[user]} = ∅)); [|done].
    destruct (decide (k = activeKey environment)); [|done].
    assert (active r ∖ {[wallet]} ∖ {[wallet]} = active r ∖ {[wallet]})
      as -> by set_solver.
    done.
  - by rewrite !(proj1 (removeKOLWalletSubscriber_rest _ _ _)).
  - by rewrite !(proj2 (removeKOLWalletSubscriber_rest _ _ _)).
Qed.

(** X13.  [removeSubscription] is idempotent: a second removal of the
    same user and wallet leaves the store as the first one left it and
    returns the same list. *)
Theorem removeSubscription_idempotent (r : Redis) (user wallet : string) :
  removeSubscription environment
    (removeSubscription environment r user wallet).1 user wallet
  = removeSubscription environment r user wallet.
Proof.
  pose proof (removeSubscription_userSubs environment r user wallet user)
    as Hl.
  rewrite decide_True in Hl by done. revert Hl.
  set (fl := List.filter (otherKol wallet) (userSubs r user)).
  set (key := subscriptionsKey environment user).
  set (r1 := if Nat.ltb 0 (length fl)
             then withSubs r (<[key := fl]> (subs r))
             else withSubs r (delete key (subs r))).
  change (removeSubscription environment r user wallet)
    with (removeKOLWalletSubscriber environment r1 wallet user, fl).
  cbn [fst]. set (r2 := removeKOLWalletSubscriber environment r1 wallet user).
  intros Hl. unfold removeSubscription. cbv zeta. rewrite Hl.
  assert (List.filter (otherKol wallet) fl = fl) as ->
    by apply filter_otherKol_idem.
  fold key. f_equal.
  assert ((if Nat.ltb 0 (length fl)
           then withSubs r2 (<[key := fl]> (subs r2))
           else withSubs r2 (delete key (subs r2))) = r2) as ->.
  { assert (subs r2 = subs r1) as Hs
      by apply removeKOLWalletSubscriber_subs.
    apply Redis_eq; [|by destruct (Nat.ltb 0 (length fl))..].
    rewrite Hs. subst r1.
    destruct (Nat.ltb 0 (length fl)); cbn [subs withSubs].
    - apply insert_insert_eq.
    - apply delete_delete_eq. }
  apply removeKOLWalletSubscriber_idempotent.
Qed.

(** X14.  Removal undoes an upsert for a user who held no subscription
    to the wallet and was not among its subscribers: every user's list and
    every subscriber set are as before.  The active watch set is as before
    only if the wallet has another subscriber; otherwise the wallet leaves
    it, even if it was watched before the upsert. *)
Theorem removeSubscription_after_addSubscription (r : Redis) (f : Fresh)
    (s : SubscriptionInput) :
  subscriptionsTo environment r (userId s) (kolWallet s) = [] →
  userId s ∉ subscribers r (kolWallet s) →
  let r2 := (removeSubscription environment
               (addSubscription environment r f s).1
               (userId s) (kolWallet s)).1 in
  (∀ user, userSubs r2 user = userSubs r user)
  ∧ (∀ wallet, subscribers r2 wallet = subscribers r wallet)
  ∧ active r2 = (if decide (subscribers r (kolWallet s) = ∅)
                 then active r ∖ {[kolWallet s]} else active r).
Proof.
  intros Hnone Hnot. cbv zeta. split; [|split].
  - intros user. rewrite removeSubscription_userSubs.
    rewrite !addSubscription_userSubs.
    destruct (decide (user = userId s)) as [->|Hu]; [|done].
    rewrite decide_True by done.
    rewrite List.filter_app, filter_otherKol_idem. cbn [List.filter].
    unfold otherKol at 2. cbn [fields]. rewrite String.eqb_refl.
    cbn [negb]. rewrite app_nil_r. by apply holds_no_subscription.
  - intros wallet. rewrite removeSubscription_subscribers.
    rewrite !addSubscription_subscribers.
    destruct (decide (wallet = kolWallet s)) as [->|Hw]; [|done].
    rewrite decide_True by done. clear Hnone. set_solver.
  - rewrite removeSubscription_active, addSubscription_subscribers.
    rewrite (decide_True (P := kolWallet s = kolWallet s)) by done.
    rewrite addSubscription_active. clear Hnone.
    assert (({[userId s]} ∪ subscribers r (kolWallet s)) ∖ {[userId s]}
            = subscribers r (kolWallet s)) as -> by set_solver.
    done.
Qed.

End RegistryAnswers.

(** An upsert for a wallet the provider rejects, on the empty registry. *)
Lemma subscribeToKOL_not_rolled_back_witness :
  (subscribeToKOL Sample.env emptyWorld Sample.fresh1 Failed
     Sample.subU1).2 = Thrown.
Proof.
  destruct (subscribeToKOL_not_rolled_back Sample.env emptyWorld
              Sample.fresh1 Failed Sample.subU1) as (_ & _ & _ & _ & H & _).
  - done.
  - unfold getWatchedKOLWallets. cbn [redis emptyWorld].
    rewrite smembers_empty. set_solver.
  - by apply H.
Defined.

(** The sample user subscribes on the empty registry and is removed
    again. *)
Lemma removeSubscription_after_addSubscription_witness :
  getUserSubscriptions Sample.env
    (removeSubscription Sample.env
       (addSubscription Sample.env emptyRedis Sample.fresh1
          Sample.subU1).1 "U1" "K1").1 "U1"
  = getUserSubscriptions Sample.env emptyRedis "U1".
Proof.
  destruct (removeSubscription_after_addSubscription Sample.env emptyRedis
              Sample.fresh1 Sample.subU1) as (H & _).
  - reflexivity.
  - rewrite smembers_empty. set_solver.
  - exact (H "U1").
Defined.

(** ** Purchase-quota gate: runs *)

Section TrackerRunFacts.

Variable environment : string.

Local Abbreviation counter r user tokenMint :=
  (getCurrentPurchaseCount environment r user tokenMint).





Lemma counter_reset (r : Redis) (user tokenMint : string) :
  counter (resetPurchaseCount environment r user tokenMint) user tokenMint
  = 0.
Proof.
  unfold getCurrentPurchaseCount, resetPurchaseCount.
  cbn [counts withCounts withPurchaseRecords].
  by rewrite lookup_delete_eq.
Qed.

Lemma purchases_from (r : Redis) (calls : list PurchaseCall)
    (user tokenMint : string) (c k : nat) :
  Forall (λ call, callFault call = NoFault) calls →
  length calls = S k →
  counter r user tokenMint = Z.of_nat c →
  Z.of_nat (c + k) ≤ MAX_SAFE_INTEGER →
  let out := purchases environment r calls user tokenMint
               (Z.of_nat (c + k)) in
  out.2 = map (λ i, {| success := true; newCount := Z.of_nat i;
                       wasAtLimit := false |}) (seq (S c) k)
          ++ [ {| success := false; newCount := Z.of_nat (c + k);
                  wasAtLimit := true |} ]
  ∧ counter out.1 user tokenMint = Z.of_nat (c + k).
Proof.
  cbv zeta. revert r calls c.
  induction k as [|k IH]; intros r calls c Hnf Hlen Hc Hsafe.
  - destruct calls as [|call [|? ?]]; [done| |done].
    apply Forall_cons in Hnf as [Hf _].
    cbn [purchases fst snd seq map app]. rewrite Hf.
    rewrite Nat.add_0_r in *.
    unfold incrementAndValidatePurchase. cbv zeta.
    unfold getCurrentPurchaseCount in *. rewrite Hc.
    assert ((Z.of_nat c =? REDIS_INT_MAX) = false) as ->.
    { apply Z.eqb_neq. unfold MAX_SAFE_INTEGER, REDIS_INT_MAX in *. lia. }
    assert ((Z.of_nat c + 1 >? Z.of_nat c) = true) as ->.
    { destruct (Z.gtb_spec (Z.of_nat c + 1) (Z.of_nat c)); [done | lia]. }
    cbn [fst snd counts withCounts]. rewrite lookup_insert_eq.
    assert (Z.of_nat c + 1 - 1 = Z.of_nat c) as -> by lia.
    done.
  - destruct calls as [|call calls]; [done|].
    apply Forall_cons in Hnf as [Hf Hnf]. injection Hlen as Hlen.
    cbn [purchases fst snd seq map app]. rewrite Hf.
    set (out := incrementAndValidatePurchase environment r NoFault
                  (callNow call) user tokenMint (Z.of_nat (c + S k))
                  (callSub call)).
    assert (out.2 = {| success := true; newCount := Z.of_nat (S c);
                       wasAtLimit := false |}
            ∧ counter out.1 user tokenMint = Z.of_nat (S c)) as [Ho Hc'].
    { subst out. unfold incrementAndValidatePurchase. cbv zeta.
      unfold getCurrentPurchaseCount in *. rewrite Hc.
      assert ((Z.of_nat c =? REDIS_INT_MAX) = false) as ->.
      { apply Z.eqb_neq. unfold MAX_SAFE_INTEGER, REDIS_INT_MAX in *. lia. }
      assert ((Z.of_nat c + 1 >? Z.of_nat (c + S k)) = false) as ->.
      { destruct (Z.gtb_spec (Z.of_nat c + 1) (Z.of_nat (c + S k)));
          [lia | done]. }
      cbn [fst snd counts withCounts withPurchaseRecords].
      rewrite lookup_insert_eq. cbn [default from_option].
      split; [f_equal; lia | unfold default, from_option; cbn; lia]. }
    rewrite Ho.
    assert (c + S k = S c + k)%nat as Heq by lia. rewrite Heq in *.
    destruct (IH out.1 calls (S c) Hnf Hlen Hc' Hsafe) as [H1 H2].
    by rewrite H1, H2.
Qed.

(** X17.  After [resetPurchaseCount], a run of n + 1 calls that meet no
    fault, for a quota of n, answers success n times with the counts
    1, ..., n and then answers that the limit is reached with count n; the
    counter ends at n and [canUserPurchaseToken] refuses a further
    purchase. *)
Theorem purchases_after_reset (r : Redis) (calls : list PurchaseCall)
    (user tokenMint : string) (n : nat) :
  Forall (λ call, callFault call = NoFault) calls →
  length calls = S n →
  Z.of_nat n ≤ MAX_SAFE_INTEGER →
  let out := purchases environment
               (resetPurchaseCount environment r user tokenMint) calls
               user tokenMint (Z.of_nat n) in
  out.2 = map (λ i, {| success := true; newCount := Z.of_nat i;
                       wasAtLimit := false |}) (seq 1 n)
          ++ [ {| success := false; newCount := Z.of_nat n;
                  wasAtLimit := true |} ]
  ∧ counter out.1 user tokenMint = Z.of_nat n
  ∧ canPurchase (canUserPurchaseToken environment out.1 user tokenMint
                   (Z.of_nat n)) = false.
Proof.
  intros Hnf Hlen Hsafe. cbv zeta.
  destruct (purchases_from (resetPurchaseCount environment r user tokenMint)
              calls user tokenMint 0 n Hnf Hlen (counter_reset _ _ _) Hsafe)
    as [H1 H2].
  cbn [Nat.add] in H1, H2. split; [done|]. split; [done|].
  unfold canUserPurchaseToken. cbn [canPurchase]. rewrite H2.
  apply Z.ltb_irrefl.
Qed.

(** One event that meets no fault keeps the counter at or above zero and
    at or below the count of the record, which carries the quota, the user
    and the token. *)
Lemma purchaseEvent_record (r : Redis) (event : PurchaseEvent)
    (user tokenMint : string) (maxPurchaseCount : Z) :
  noFault event = true →
  let inv r :=
    0 ≤ counter r user tokenMint
    ∧ ∀ record,
        getPurchaseRecord environment r user tokenMint = Some record →
        counter r user tokenMint ≤ currentCount record
        ∧ maxCount record = maxPurchaseCount
        ∧ pr_userId record = user ∧ pr_tokenMint record = tokenMint in
  inv r →
  inv (purchaseEvent environment user tokenMint maxPurchaseCount r event).
Proof.
  intros Hnf inv [H0 Hrec]. subst inv. cbv beta.
  unfold getPurchaseRecord, getCurrentPurchaseCount in *.
  destruct event as [call| |]; cbn [purchaseEvent noFault] in *.
  - destruct (callFault call); try done.
    unfold incrementAndValidatePurchase. cbv zeta.
    set (c := default 0 (counts r !! buildCountKey environment user
                                      tokenMint)) in *.
    destruct (c =? REDIS_INT_MAX); [done|].
    destruct (c + 1 >? maxPurchaseCount);
      cbn [fst counts purchaseRecords withCounts withPurchaseRecords];
      rewrite lookup_insert_eq; cbn [default from_option];
      unfold Datatypes.id.
    + split; [lia|]. intros record Hr. destruct (Hrec record Hr) as (? & ?).
      split; [lia | done].
    + split; [lia|]. rewrite lookup_insert_eq. intros record [= <-].
      cbn. split; [lia | done].
  - unfold expireCount. cbn [counts purchaseRecords withCounts].
    rewrite lookup_delete_eq. cbn [default from_option]. split; [lia|].
    intros record Hr. destruct (Hrec record Hr) as (? & ?).
    split; [|done]. unfold default, from_option, Datatypes.id in *. lia.
  - unfold expirePurchaseRecord.
    cbn [counts purchaseRecords withPurchaseRecords].
    rewrite lookup_delete_eq. split; [done | by intros record].
Qed.

(** X29.  After [resetPurchaseCount], through calls of
    [incrementAndValidatePurchase] that meet no fault and expiries of the
    counter and of the record in any order, a record that is present
    carries the quota, the user and the token, and a count that is not
    below the stored counter.  As long as neither key has expired the
    record keeps track of the counter: there is no record and the counter
    is zero, or the count of the record is the stored counter.  (Once the
    record has expired while calls kept the counter alive, there is no
    record for a counter above zero.) *)
Theorem getPurchaseRecord_tracks_counter (r : Redis)
    (events : list PurchaseEvent) (user tokenMint : string)
    (maxPurchaseCount : Z) :
  forallb noFault events = true →
  let out := purchaseEvents environment
               (resetPurchaseCount environment r user tokenMint) events
               user tokenMint maxPurchaseCount in
  (∀ record,
     getPurchaseRecord environment out user tokenMint = Some record →
     counter out user tokenMint ≤ currentCount record
     ∧ maxCount record = maxPurchaseCount
     ∧ pr_userId record = user ∧ pr_tokenMint record = tokenMint)
  ∧ (forallb noExpiry events = true →
     match getPurchaseRecord environment out user tokenMint with
     | None => counter out user tokenMint = 0
     | Some record => currentCount record = counter out user tokenMint
     end).
Proof.
  intros Hnf. cbv zeta. unfold purchaseEvents.
  pose proof (counter_reset r user tokenMint) as Hc0.
  assert (getPurchaseRecord environment
            (resetPurchaseCount environment r user tokenMint) user tokenMint
          = None) as Hr0.
  { unfold getPurchaseRecord, resetPurchaseCount.
    cbn [purchaseRecords withPurchaseRecords]. by rewrite lookup_delete_eq. }
  revert Hc0 Hr0. generalize (resetPurchaseCount environment r user tokenMint).
  intros r0 Hc0 Hr0. split.
  - assert (0 ≤ counter r0 user tokenMint
            ∧ ∀ record,
                getPurchaseRecord environment r0 user tokenMint
                = Some record →
                counter r0 user tokenMint ≤ currentCount record
                ∧ maxCount record = maxPurchaseCount
                ∧ pr_userId record = user ∧ pr_tokenMint record = tokenMint)
      as Hinv.
    { split; [lia|]. intros record. by rewrite Hr0. }
    clear Hc0 Hr0. revert r0 Hinv Hnf.
    induction events as [|event events IH]; intros r0 Hinv Hnf;
      [apply Hinv|].
    cbn [forallb] in Hnf. apply andb_true_iff in Hnf as [Hf Hnf].
    cbn [fold_left]. apply IH; [|done].
    by apply (purchaseEvent_record r0 event user tokenMint maxPurchaseCount).
  - intros Hne.
    assert (match getPurchaseRecord environment r0 user tokenMint with
            | None => counter r0 user tokenMint = 0
            | Some record => currentCount record = counter r0 user tokenMint
            end) as Hinv by (by rewrite Hr0).
    clear Hc0 Hr0. revert r0 Hinv Hnf Hne.
    induction events as [|event events IH]; intros r0 Hinv Hnf Hne; [done|].
    cbn [forallb] in Hnf, Hne.
    apply andb_true_iff in Hnf as [Hf Hnf].
    apply andb_true_iff in Hne as [He Hne].
    cbn [fold_left]. apply IH; [|done|done]. clear IH Hnf Hne.
    destruct event as [call| |]; [|done|done].
    cbn [purchaseEvent noFault] in *.
    destruct (callFault call); try done.
    unfold getPurchaseRecord, getCurrentPurchaseCount in *.
    unfold incrementAndValidatePurchase. cbv zeta.
    set (c := default 0 (counts r0 !! buildCountKey environment user
                                       tokenMint)) in *.
    destruct (c =? REDIS_INT_MAX); [done|].
    destruct (c + 1 >? maxPurchaseCount);
      cbn [fst counts purchaseRecords withCounts withPurchaseRecords];
      rewrite lookup_insert_eq; cbn [default from_option].
    + revert Hinv. unfold Datatypes.id.
      destruct (purchaseRecords r0 !! _) as [record|]; lia.
    + rewrite lookup_insert_eq. done.
Qed.

End TrackerRunFacts.


(** Two purchases after a reset, then the counter expires: the record is
    still there, with a count of 2 above the counter. *)
Lemma getPurchaseRecord_tracks_counter_witness :
  ∃ record,
    getPurchaseRecord Sample.env
      (purchaseEvents Sample.env
         (resetPurchaseCount Sample.env emptyRedis "U" "T")
         [ Purchase {| callFault := NoFault; callNow := 1;
                       callSub := "sub-123" |};
           Purchase {| callFault := NoFault; callNow := 2;
                       callSub := "sub-123" |};
           CountExpires ] "U" "T" 3) "U" "T" = Some record
    ∧ currentCount record = 2
    ∧ getCurrentPurchaseCount Sample.env
        (purchaseEvents Sample.env
           (resetPurchaseCount Sample.env emptyRedis "U" "T")
           [ Purchase {| callFault := NoFault; callNow := 1;
                         callSub := "sub-123" |};
             Purchase {| callFault := NoFault; callNow := 2;
                         callSub := "sub-123" |};
             CountExpires ] "U" "T" 3) "U" "T"
      ≤ currentCount record.
Proof.
  eexists. split; [by vm_compute|]. split; [reflexivity|].
  eapply (getPurchaseRecord_tracks_counter Sample.env emptyRedis
            [ Purchase {| callFault := NoFault; callNow := 1;
                          callSub := "sub-123" |};
              Purchase {| callFault := NoFault; callNow := 2;
                          callSub := "sub-123" |};
              CountExpires ] "U" "T" 3); [reflexivity|].
  by vm_compute.
Defined.

(** The run of the test script: a quota of three, four calls. *)
Lemma purchases_after_reset_witness :
  map newCount
    (purchases Sample.env (resetPurchaseCount Sample.env emptyRedis "U" "T")
       [ {| callFault := NoFault; callNow := 1; callSub := "sub-123" |};
         {| callFault := NoFault; callNow := 2; callSub := "sub-123" |};
         {| callFault := NoFault; callNow := 3; callSub := "sub-123" |};
         {| callFault := NoFault; callNow := 4; callSub := "sub-123" |} ]
       "U" "T" 3).2
  = [1; 2; 3; 3].
Proof.
  destruct (purchases_after_reset Sample.env emptyRedis
              [ {| callFault := NoFault; callNow := 1; callSub := "sub-123" |};
                {| callFault := NoFault; callNow := 2; callSub := "sub-123" |};
                {| callFault := NoFault; callNow := 3; callSub := "sub-123" |};
                {| callFault := NoFault; callNow := 4; callSub := "sub-123" |} ]
              "U" "T" 3) as [H _].
  - repeat constructor.
  - reflexivity.
  - vm_compute. discriminate.
  - change (Z.of_nat 3) with 3 in H. rewrite H. reflexivity.
Defined.

(** ** Purchase-quota gate: the keys *)

Lemma append_assoc (a b c : string) : (a +:+ b) +:+ c = a +:+ (b +:+ c).
Proof.
  induction a as [|x a IH]; [done|].
  change (String x ((a +:+ b) +:+ c) = String x (a +:+ (b +:+ c))).
  by rewrite IH.
Qed.

Lemma colonFree_split (u u' t t' : string) :
  colonFree t → colonFree t' →
  u +:+ ":" +:+ t = u' +:+ ":" +:+ t' → u = u' ∧ t = t'.
Proof.
  intros Ht Ht'. revert u'.
  induction u as [|c u IH]; intros [|c' u'] H.
  - change (String ":"%char t = String ":"%char t') in H.
    by injection H as ->.
  - change (String ":"%char t = String c' (u' +:+ ":" +:+ t')) in H.
    injection H as _ H. by destruct (Ht u' t').
  - change (String c (u +:+ ":" +:+ t) = String ":"%char t') in H.
    injection H as _ H. symmetry in H. by destruct (Ht' u t).
  - change (String c (u +:+ ":" +:+ t) = String c' (u' +:+ ":" +:+ t'))
      in H.
    injection H as -> H. by destruct (IH _ H) as [-> ->].
Qed.

Section TrackerKeys.

Variable environment : string.

(** X18.  The counter and record keys tell the pairs of user and token
    apart as long as token mints hold no colon: two pairs with the same
    counter key (or the same record key) are the same pair.  Without that
    proviso they do not: a user id extended past a colon shares the keys
    of the shorter id. *)
Theorem buildCountKey_isolates (u u' t t' : string) :
  colonFree t → colonFree t' →
  (buildCountKey environment u t = buildCountKey environment u' t' →
   u = u' ∧ t = t')
  ∧ (buildRecordKey environment u t = buildRecordKey environment u' t' →
     u = u' ∧ t = t')
  ∧ (∀ a b c : string,
       buildCountKey environment (a +:+ ":" +:+ b) c
       = buildCountKey environment a (b +:+ ":" +:+ c)
       ∧ buildRecordKey environment (a +:+ ":" +:+ b) c
         = buildRecordKey environment a (b +:+ ":" +:+ c)).
Proof.
  intros Ht Ht'. unfold buildCountKey, buildRecordKey. split; [|split].
  - intros H. apply getRedisKey_inj in H.
    apply append_inj_r, append_inj_r in H. by apply colonFree_split.
  - intros H. apply getRedisKey_inj in H.
    apply append_inj_r, append_inj_r in H. by apply colonFree_split.
  - intros a b c. by rewrite !append_assoc.
Qed.

End TrackerKeys.

Lemma buildCountKey_isolates_witness :
  buildCountKey Sample.env "a:b" "c" = buildCountKey Sample.env "a" "b:c".
Proof.
  assert (colonFree "T") as HT.
  { intros a b H. destruct a as [|x [|y a]]; vm_compute in H;
      discriminate H. }
  destruct (buildCountKey_isolates Sample.env "U1" "U1" "T" "T" HT HT)
    as (_ & _ & H).
  exact (proj1 (H "a" "b" "c")).
Defined.

(** ** Dispatcher: which wallet, which trade, which commands *)

Lemma find_app {A} (p : A → bool) (l1 l2 : list A) :
  List.find p (l1 ++ l2)
  = match List.find p l1 with
    | Some x => Some x
    | None => List.find p l2
    end.
Proof.
  induction l1 as [|a l1 IH]; cbn [List.find app]; [done|].
  by destruct (p a).
Qed.

Section DispatcherMore.

Variable environment : string.
Variable Number : string → Js.num.

Local Abbreviation active r := (getWatchedKOLWallets environment r).

(** X19.  [findWalletAddress] returns the first watched address in the
    order of its scan (accounts, native transfers, token transfers, fee
    payer): the address it returns is watched and occurs in the
    transaction, and it returns [null] exactly when no address of the
    transaction is watched. *)
Theorem findWalletAddress_first (r : Redis)
    (transaction : HeliusWebhookData) :
  findWalletAddress environment r transaction
  = List.find (λ a, bool_decide (a ∈ active r))
      (scannedAddresses transaction)
  ∧ (∀ a, findWalletAddress environment r transaction = Some a →
       a ∈ active r ∧ a ∈ scannedAddresses transaction)
  ∧ (findWalletAddress environment r transaction = None
     ↔ ∀ a, a ∈ scannedAddresses transaction → a ∉ active r).
Proof.
  assert (findWalletAddress environment r transaction
          = List.find (λ a, bool_decide (a ∈ active r))
              (scannedAddresses transaction)) as Heq.
  { unfold findWalletAddress, scannedAddresses. cbv zeta.
    rewrite !find_app.
    destruct (List.find _ (map account _)); [done|].
    destruct (List.find _ (flat_map _ (nativeTransfers _))); [done|].
    destruct (List.find _ (flat_map _ (tokenTransfers _))); [done|].
    destruct (String.eqb (feePayer transaction) ""); cbn [negb andb];
      [done|].
    cbn [List.find]. by destruct (bool_decide _). }
  split; [done|]. rewrite Heq. split.
  - intros a H. apply List.find_some in H as [Hin Hb].
    apply bool_decide_eq_true in Hb. split; [done|].
    by apply list_elem_of_In.
  - split.
    + intros H a Hin Hact. apply list_elem_of_In in Hin.
      pose proof (List.find_none _ _ H a Hin) as Hb. cbn in Hb.
      by apply bool_decide_eq_false in Hb.
    + intros H. destruct (List.find _ _) as [a|] eqn:E; [|done].
      apply List.find_some in E as [Hin Hb].
      apply bool_decide_eq_true in Hb. apply list_elem_of_In in Hin.
      by destruct (H a Hin).
Qed.

Lemma identifyDEXFromWebhook_nonempty (transaction : HeliusWebhookData) :
  identifyDEXFromWebhook transaction ≠ "".
Proof.
  unfold identifyDEXFromWebhook.
  destruct (String.eqb (source transaction) "") eqn:E; cbn [negb].
  - destruct (List.find _ dexPatterns) as [p|] eqn:Ef; [|done].
    apply List.find_some in Ef as [Hin _]. unfold dexPatterns in Hin.
    cbn in Hin. intuition (subst; done).
  - by apply String.eqb_neq in E.
Qed.

(** X20.  Every trade [parseKOLTradeFromWebhook] builds is attributed to
    the wallet it was given, names a DEX, and has a fee that is a number.
    Its details are either the defaults (a buy of mint UNKNOWN with zero
    amounts) or those of a classified swap of the fee payer: a token mint
    other than SOL, two positive amounts, and SOL on the out side of a buy
    and on the in side of a sell. *)
Theorem parseKOLTradeFromWebhook_wellformed (uuid : string)
    (transaction : HeliusWebhookData) (walletAddress : string) :
  ∃ t, parseKOLTradeFromWebhook Number uuid transaction walletAddress
       = Some t
       ∧ trade_kolWallet t = walletAddress
       ∧ dexProgram t ≠ ""
       ∧ Js.isNaN (trade_fee t) = false
       ∧ ((tradeType t = tradeBuy ∧ mint t = "UNKNOWN"
           ∧ tokenIn t = "UNKNOWN" ∧ tokenOut t = "UNKNOWN"
           ∧ amountIn t = Js.ofZ 0 ∧ amountOut t = Js.ofZ 0)
          ∨ (mint t ≠ SOL_MINT
             ∧ Js.gt (amountIn t) (Js.ofZ 0) = true
             ∧ Js.gt (amountOut t) (Js.ofZ 0) = true
             ∧ match tradeType t with
               | tradeBuy => tokenIn t = mint t ∧ tokenOut t = SOL_MINT
               | tradeSell => tokenIn t = SOL_MINT ∧ tokenOut t = mint t
               end)).
Proof.
  unfold parseKOLTradeFromWebhook. cbv zeta. eexists. split; [done|].
  cbn [trade_kolWallet dexProgram trade_fee tradeType mint tokenIn tokenOut
       amountIn amountOut].
  split; [done|]. split; [apply identifyDEXFromWebhook_nonempty|].
  split.
  { destruct (fee transaction) as [q|]; cbn; [|done].
    by destruct (Qeq_bool q 0). }
  unfold parseTradeDetailsFromWebhook. cbv zeta.
  destruct (Nat.ltb 0 _); [|by left].
  destruct (parseSwap Number (txData transaction)
              (Some (feePayer transaction))) as [|s m ta sa] eqn:E;
    [by left|].
  destruct (parseSwap_swap_positive _ _ _ _ _ _ _ E) as [Hm Hpos].
  destruct s; [| |by left]; right; cbn;
    destruct Hpos as [H1 H2]; done.
Qed.

(** X21.  A swap of a watched wallet (a non-empty address, as the code
    tests it) that cannot be classified is copied all the same: when the
    payload has no token transfers, or [parseSwap] finds neither a buy nor
    a sell for the fee payer, the batch holds for every subscription of
    type trade a command to buy the mint UNKNOWN. *)
Theorem processTransaction_unclassified (r : Redis) (uuid : string)
    (transaction : HeliusWebhookData) (walletAddress : string) :
  isSwapTransaction transaction = true →
  findWalletAddress environment r transaction = Some walletAddress →
  walletAddress ≠ "" →
  getSubscriptionsForKOL environment r walletAddress ≠ [] →
  tokenTransfers (txData transaction) = []
  ∨ (sideOf (parseSwap Number (txData transaction)
               (Some (feePayer transaction))) ≠ Some buy
     ∧ sideOf (parseSwap Number (txData transaction)
                 (Some (feePayer transaction))) ≠ Some sell) →
  batchesOf (processTransaction environment Number r uuid transaction)
  = [ map unclassifiedCommand
        (List.filter isTradeSubscription
           (getSubscriptionsForKOL environment r walletAddress)) ].
Proof.
  intros Hswap Hfind Hwallet Hsubs Hun.
  rewrite (processTransaction_batch environment Number r uuid transaction
             walletAddress Hswap Hfind Hwallet Hsubs).
  f_equal. apply map_ext. intros sub.
  unfold queuedTrade, unclassifiedCommand, parseKOLTradeFromWebhook.
  cbv zeta. cbn [fmap option_fmap option_map tradeType mint].
  assert (d_tradeType (parseTradeDetailsFromWebhook Number transaction)
          = tradeBuy
          ∧ d_mint (parseTradeDetailsFromWebhook Number transaction)
            = "UNKNOWN") as [-> ->]; [|done].
  unfold parseTradeDetailsFromWebhook. cbv zeta.
  destruct Hun as [->|[Hb Hs]]; [done|].
  destruct (Nat.ltb 0 _); [|done].
  destruct (parseSwap Number _ _) as [|[| |] m ta sa]; done.
Qed.

(** X22.  [CopyTradingService.processWebhookData] notifies the subscribers
    of the fee payer of the first transaction of the body: when the token
    information is obtained, the notifications carry, in order, exactly
    the subscriptions [getSubscriptionsForKOL] returns for that address,
    of type trade or watch alike, whether or not the transaction is a swap
    of a watched wallet; when it is not obtained, or the body is empty,
    nobody is notified. *)
Theorem processWebhookData_notifications (r : Redis) (uuid : nat → string)
    (tokenInfo : option TokenInfo) (data : list HeliusWebhookData) :
  map n_subscription
    (notificationsOf
       (processWebhookData environment Number r uuid tokenInfo data))
  = match data, tokenInfo with
    | first :: _, Some _ =>
        getSubscriptionsForKOL environment r (feePayer first)
    | _, _ => []
    end.
Proof.
  assert (∀ es, notificationsOf (map FromWebhookService es) = []) as Hsent.
  { intros es. unfold notificationsOf.
    induction es as [|e es IH]; [done | by cbn]. }
  assert (∀ d u t info l,
            map n_subscription
              (notificationsOf
                 (map PublishNotification (notifications d u t info l)))
            = l) as Hnot.
  { intros d u t info l. revert u. unfold notificationsOf.
    induction l as [|sub l IH]; intros u; [done|].
    cbn. f_equal. apply IH. }
  unfold processWebhookData. destruct data as [|first rest]; [done|].
  cbv zeta. unfold parseKOLTradeFromWebhook at 1. cbv zeta.
  destruct tokenInfo as [info|]; [|by rewrite Hsent].
  unfold notificationsOf at 1. rewrite !omap_app.
  fold (notificationsOf
          (map FromWebhookService
             (processTransactions environment Number r
                (λ i, uuid (1 + i)%nat) (first :: rest)))).
  rewrite Hsent. cbn [app omap list_omap].
  apply Hnot.
Qed.

End DispatcherMore.

(** The swap without token transfers on the sample store: the sample user
    is told to buy the mint UNKNOWN. *)
Lemma processTransaction_unclassified_witness :
  batchesOf
    (processTransaction Sample.env Js.NumberOfDigits Sample.boughtOnce
       "uuid-1" MoreSamples.bareTx)
  = [ map unclassifiedCommand
        (List.filter isTradeSubscription
           (getSubscriptionsForKOL Sample.env Sample.boughtOnce "K1")) ].
Proof.
  apply (processTransaction_unclassified Sample.env Js.NumberOfDigits
           Sample.boughtOnce "uuid-1" MoreSamples.bareTx "K1").
  - reflexivity.
  - by vm_compute.
  - done.
  - by vm_compute.
  - by left.
Defined.

(** ** Transaction history *)

Section HistoryFacts.

Variable Number : string → Js.num.

Lemma normalizedTx_wellShaped (tx : TransactionData) :
  wellShaped (normalizedTx tx).
Proof.
  eexists. split; [done|]. intros acc Hin.
  apply list_elem_of_fmap in Hin as (a & -> & _). by eexists.
Qed.

Lemma normalizedTx_id (tx : TransactionData) :
  wellShaped tx → normalizedTx tx = tx.
Proof.
  intros (accs & Ha & Hall). unfold normalizedTx. destruct tx as [ad tt].
  cbn in *. subst ad. f_equal. f_equal. cbn.
  induction accs as [|acc accs IH]; [done|]. cbn [map]. f_equal.
  - destruct (Hall acc) as [l Hl]; [by left|].
    destruct acc as [a n t]. cbn in *. by subst t.
  - apply IH. intros a Hin. apply Hall. by right.
Qed.

(** X23.  [getTransactionsByAddress] answers with one record for each
    transaction of the response, in order, and for a transaction that has
    [accountData] and every [tokenBalanceChanges] the record is the one
    the webhook path computes for the same address.  The two paths differ
    on a payload that lacks a field: the sample payload with an account
    without [tokenBalanceChanges] is a buy on the history path and the
    empty record on the webhook path. *)
Theorem getTransactionsByAddress_records
    (transactions : list TransactionData) (address : string) :
  Forall2 (λ tx r, wellShaped tx → r = parseSwap Number tx (Some address))
    transactions
    (getTransactionsByAddress Number (Some transactions) address)
  ∧ getTransactionsByAddress Js.NumberOfDigits (Some [MoreSamples.tornTx]) "W"
    = [Swap buy "M" (Js.Fin 1000) (Js.Fin (1 # 20))]
  ∧ parseSwap Js.NumberOfDigits MoreSamples.tornTx (Some "W") = EmptySwap.
Proof.
  split; [|split; reflexivity].
  unfold getTransactionsByAddress.
  induction transactions as [|tx txs IH]; cbn [map]; constructor; [|done].
  intros Hw. by rewrite normalizedTx_id.
Qed.

(** X24.  [getKOLSwapTransactions] answers with classified swaps only:
    every record is a buy or a sell of a mint other than SOL with two
    positive amounts, there are at most as many as the response has
    transactions, and a failed request gives none. *)
Theorem getKOLSwapTransactions_sound
    (response : option (list TransactionData)) (kolWallet : string) :
  Forall (λ r, ∃ s m ta sa,
            r = Swap s m ta sa ∧ s ≠ unknown ∧ m ≠ SOL_MINT
            ∧ Js.gt ta (Js.ofZ 0) = true ∧ Js.gt sa (Js.ofZ 0) = true)
    (getKOLSwapTransactions Number response kolWallet)
  ∧ (length (getKOLSwapTransactions Number response kolWallet)
     ≤ length (default [] response))%nat
  ∧ getKOLSwapTransactions Number None kolWallet = [].
Proof.
  split; [|split; [|done]].
  - apply Forall_forall. intros r Hin.
    unfold getKOLSwapTransactions in Hin.
    apply elem_of_List_filter in Hin as [Hin Hside].
    destruct response as [txs|]; [|by apply elem_of_nil in Hin].
    apply list_elem_of_fmap in Hin as (tx & Hr & _).
    destruct r as [|s m ta sa]; [done|]. symmetry in Hr.
    destruct (parseSwap_swap_positive _ _ _ _ _ _ _ Hr) as [Hm Hpos].
    exists s, m, ta, sa.
    assert (s ≠ unknown) as Hs by (by destruct s).
    destruct (Hpos Hs) as [H1 H2]. done.
  - unfold getKOLSwapTransactions.
    etransitivity; [apply List.filter_length_le|].
    destruct response as [txs|]; cbn; [by rewrite length_map | done].
Qed.

End HistoryFacts.

(** ** Trade history *)

Ltac zbounds :=
  unfold zrangeBounds; cbv zeta;
  repeat match goal with
         | |- context [?a <? ?b] => destruct (Z.ltb_spec a b)
         | |- context [?a >? ?b] => destruct (Z.gtb_spec a b)
         | |- context [?a >=? ?b] => destruct (Z.geb_spec a b)
         | |- context [(?a <=? ?b)%nat] => destruct (Nat.leb_spec a b)
         | |- context [(?a =? ?b)%nat] => destruct (Nat.eqb_spec a b)
         end;
  cbn [orb]; try lia; try done; try (f_equal; f_equal; lia).

Lemma zrangeBounds_keep (n k : nat) :
  zrangeBounds (Z.of_nat n) 0 (- Z.of_nat (S k))
  = if (n <=? k)%nat then None else Some (0%nat, (n - k)%nat).
Proof. zbounds. Qed.

(** Trimming to the last [k] ranks keeps the [k] highest. *)
Lemma zremrangebyrank_keep {M} (s : list (Z * M)) (k : nat) :
  zremrangebyrank s 0 (- Z.of_nat (S k)) = drop (length s - k) s.
Proof.
  unfold zremrangebyrank. rewrite zrangeBounds_keep.
  destruct (Nat.leb_spec (length s) k) as [Hle|Hgt].
  - by replace (length s - k)%nat with 0%nat by lia.
  - done.
Qed.

Lemma zrangeBounds_limit (n : nat) (limit : Z) :
  1 ≤ limit →
  zrangeBounds (Z.of_nat n) 0 (limit - 1)
  = if (n =? 0)%nat then None
    else Some (0%nat, Nat.min (Z.to_nat limit) n).
Proof. intros Hl. zbounds. Qed.

Lemma zrangeBounds_all (n : nat) :
  zrangeBounds (Z.of_nat n) 0 (0 - 1)
  = if (n =? 0)%nat then None else Some (0%nat, n).
Proof. zbounds. Qed.

Lemma zrevrange_limit {M} (s : list (Z * M)) (limit : Z) :
  1 ≤ limit →
  zrevrange s 0 (limit - 1) = map snd (take (Z.to_nat limit) (reverse s)).
Proof.
  intros Hl. unfold zrevrange. rewrite zrangeBounds_limit by done.
  destruct (Nat.eqb_spec (length s) 0) as [H0|Hn].
  - destruct s; [|discriminate H0]. by rewrite reverse_nil, take_nil.
  - rewrite drop_0. f_equal.
    destruct (Nat.le_ge_cases (Z.to_nat limit) (length s)) as [Hle|Hge].
    + by rewrite Nat.min_l.
    + rewrite Nat.min_r by done.
      rewrite (take_ge (reverse s) (length s))
        by (rewrite length_reverse; lia).
      rewrite (take_ge (reverse s) (Z.to_nat limit))
        by (rewrite length_reverse; lia).
      done.
Qed.

Lemma zrevrange_all {M} (s : list (Z * M)) :
  zrevrange s 0 (0 - 1) = map snd (reverse s).
Proof.
  unfold zrevrange. rewrite zrangeBounds_all.
  destruct (Nat.eqb_spec (length s) 0) as [H0|Hn].
  - destruct s; [done | discriminate H0].
  - rewrite drop_0. f_equal. apply take_ge. by rewrite length_reverse.
Qed.

Lemma length_zrevrange {M} (s : list (Z * M)) (start stop : Z) :
  (length (zrevrange s start stop) ≤ length s)%nat.
Proof.
  unfold zrevrange. destruct (zrangeBounds _ _ _) as [[off cnt]|];
    [|cbn; lia].
  rewrite length_map, length_take, length_drop, length_reverse. lia.
Qed.

Lemma length_omap_le {A B} (f : A → option B) (l : list A) :
  (length (omap f l) ≤ length l)%nat.
Proof.
  induction l as [|a l IH]; [done|]. cbn. destruct (f a); cbn; lia.
Qed.

(** An element that is not below any other goes last. *)
Lemma zinsert_last {M} (mlt : M → M → bool) (e : Z * M)
    (s : list (Z * M)) :
  (∀ x, x ∈ s → zless mlt e x = false) → zinsert mlt e s = s ++ [e].
Proof.
  induction s as [|x s IH]; intros H; [done|]. cbn [zinsert app].
  rewrite (H x) by (by left). f_equal. apply IH. intros y Hy. apply H.
  by right.
Qed.

Lemma elem_of_zinsert {M} (mlt : M → M → bool) (e x : Z * M)
    (s : list (Z * M)) :
  x ∈ zinsert mlt e s ↔ x = e ∨ x ∈ s.
Proof.
  induction s as [|y s IH]; cbn [zinsert]; [set_solver|].
  destruct (zless mlt e y); [set_solver|].
  rewrite !elem_of_cons, IH. tauto.
Qed.

Lemma zinsert_sorted {M} (mlt : M → M → bool) (e : Z * M)
    (s : list (Z * M)) :
  StronglySorted (λ a b : Z * M, a.1 ≤ b.1) s →
  StronglySorted (λ a b : Z * M, a.1 ≤ b.1) (zinsert mlt e s).
Proof.
  induction 1 as [|x s Hs IH Hx]; cbn [zinsert].
  { repeat constructor. }
  destruct (zless mlt e x) eqn:E.
  - assert (e.1 ≤ x.1) as Hle.
    { unfold zless in E. apply orb_true_iff in E as [E|E].
      - apply Z.ltb_lt in E. lia.
      - apply andb_true_iff in E as [E _]. apply Z.eqb_eq in E. lia. }
    constructor; [by constructor|]. constructor; [done|].
    eapply Forall_impl; [exact Hx|]. cbn. intros y Hy. lia.
  - assert (x.1 ≤ e.1) as Hle.
    { unfold zless in E. apply orb_false_iff in E as [E _].
      apply Z.ltb_ge in E. lia. }
    constructor; [done|]. apply Forall_forall. intros y Hy.
    apply elem_of_zinsert in Hy as [->|Hy]; [done|].
    by apply (proj1 (Forall_forall _ _) Hx).
Qed.

Lemma StronglySorted_filter {A} (R : relation A) (p : A → bool)
    (l : list A) :
  StronglySorted R l → StronglySorted R (List.filter p l).
Proof.
  induction 1 as [|x l Hl IH Hx]; cbn [List.filter]; [constructor|].
  destruct (p x); [|done]. constructor; [done|].
  apply Forall_forall. intros y Hy. apply elem_of_List_filter in Hy as [Hy _].
  by apply (proj1 (Forall_forall _ _) Hx).
Qed.

Lemma StronglySorted_drop {A} (R : relation A) (n : nat) (l : list A) :
  StronglySorted R l → StronglySorted R (drop n l).
Proof.
  intros H. rewrite <- (take_drop n l) in H.
  by apply StronglySorted_app_1_r in H.
Qed.

Lemma StronglySorted_take {A} (R : relation A) (n : nat) (l : list A) :
  StronglySorted R l → StronglySorted R (take n l).
Proof.
  intros H. rewrite <- (take_drop n l) in H.
  by apply StronglySorted_app_1_l in H.
Qed.

Lemma StronglySorted_reverse {A} (R : relation A) (l : list A) :
  StronglySorted R l → StronglySorted (flip R) (reverse l).
Proof.
  induction 1 as [|x l Hl IH Hx]; [constructor|].
  rewrite reverse_cons. apply StronglySorted_app_2; [|done|].
  - intros y z Hy Hz. apply list_elem_of_singleton in Hz as ->.
    rewrite elem_of_reverse in Hy. unfold flip.
    by apply (proj1 (Forall_forall _ _) Hx).
  - repeat constructor.
Qed.

Lemma elem_of_drop {A} (n : nat) (l : list A) (x : A) :
  x ∈ drop n l → x ∈ l.
Proof.
  intros H. rewrite <- (take_drop n l). apply elem_of_app. by right.
Qed.

Lemma elem_of_take {A} (n : nat) (l : list A) (x : A) :
  x ∈ take n l → x ∈ l.
Proof.
  intros H. rewrite <- (take_drop n l). apply elem_of_app. by left.
Qed.

(** Looking the members of a descending range up gives records in
    descending order. *)
Lemma omap_sorted {B} (f : string → option B) (ts : B → Z) (Q : B → Prop)
    (l : list (Z * string)) :
  StronglySorted (flip (λ a b : Z * string, a.1 ≤ b.1)) l →
  (∀ e, e ∈ l → ∃ t, f e.2 = Some t ∧ ts t = e.1 ∧ Q t) →
  StronglySorted (λ a b, ts b ≤ ts a) (omap f (map snd l))
  ∧ Forall Q (omap f (map snd l)).
Proof.
  induction 1 as [|e l Hl IH He]; intros Hrec; [split; constructor|].
  destruct (Hrec e) as (t & Hf & Hts & HQ); [by left|].
  destruct IH as [IH1 IH2]; [intros e' He'; apply Hrec; by right|].
  cbn [map]. cbn. rewrite Hf. split; [|by constructor].
  constructor; [done|]. apply Forall_forall. intros b Hb.
  apply list_elem_of_omap in Hb as (i & Hi & Hfi).
  apply list_elem_of_fmap in Hi as (e' & -> & He').
  destruct (Hrec e') as (t' & Hf' & Hts' & _); [by right|].
  rewrite Hf' in Hfi. injection Hfi as <-.
  pose proof (proj1 (Forall_forall _ _) He e' He') as Hle.
  unfold flip in Hle. lia.
Qed.

Section TradeHistoryFacts.

Variable environment : string.
Variable stringify : KOLTrade → string.

Local Abbreviation store := (storeKOLTrade environment stringify).
Local Abbreviation recent := (kolRecent environment).

Lemma recentKey_inj (w w' : string) :
  recentKey environment w = recentKey environment w' → w = w'.
Proof.
  unfold recentKey. intros H. apply getRedisKey_inj in H.
  by apply append_inj_r in H.
Qed.

Lemma kolRecent_store (h : TradeStore) (t : KOLTrade) (w : string) :
  recent (store h t) w
  = if decide (w = trade_kolWallet t)
    then drop (length (zadd String.ltb String.eqb
                         (recent h (trade_kolWallet t))
                         (trade_timestamp t) (trade_id t)) - 100)
           (zadd String.ltb String.eqb (recent h (trade_kolWallet t))
              (trade_timestamp t) (trade_id t))
    else recent h w.
Proof.
  unfold kolRecent at 1, storeKOLTrade. cbv zeta. cbn [recentByKol].
  destruct (decide (w = trade_kolWallet t)) as [->|Hw].
  - rewrite lookup_insert_eq. cbn [default from_option].
    apply (zremrangebyrank_keep _ 100).
  - rewrite lookup_insert_ne; [done|]. intros H.
    by apply recentKey_inj in H.
Qed.

(** X25.  The history is bounded: after [storeKOLTrade] the sorted set of
    the trade's wallet holds at most 100 ids and the global set at most
    1000 trades, however many were there before; so [getRecentKOLTrades]
    returns at most 100 trades for that wallet and [getRecentTrades] at
    most 1000, whatever limit is asked for. *)
Theorem storeKOLTrade_bounded (h : TradeStore) (t : KOLTrade) (limit : Z) :
  (length (recent (store h t) (trade_kolWallet t)) ≤ 100)%nat
  ∧ (length (recentGlobal (store h t)) ≤ 1000)%nat
  ∧ (length (getRecentKOLTrades environment (store h t)
               (trade_kolWallet t) limit) ≤ 100)%nat
  ∧ (length (getRecentTrades stringify (store h t) limit) ≤ 1000)%nat.
Proof.
  assert (length (recent (store h t) (trade_kolWallet t)) ≤ 100)%nat as H1.
  { rewrite kolRecent_store, decide_True by done. rewrite length_drop. lia. }
  assert (length (recentGlobal (store h t)) ≤ 1000)%nat as H2.
  { unfold storeKOLTrade. cbv zeta. cbn [recentGlobal].
    rewrite (zremrangebyrank_keep _ 1000), length_drop. lia. }
  split; [done|]. split; [done|]. split.
  - unfold getRecentKOLTrades. cbv zeta.
    etransitivity; [apply length_omap_le|].
    etransitivity; [apply length_zrevrange | done].
  - unfold getRecentTrades.
    etransitivity; [apply List.filter_length_le|].
    etransitivity; [apply length_zrevrange | done].
Qed.

(** X26.  A trade newer than every trade in the sorted set of its wallet
    is the first one [getRecentKOLTrades] returns for that wallet once it
    is stored, for every limit of at least one. *)
Theorem getRecentKOLTrades_newest_first (h : TradeStore) (t : KOLTrade)
    (limit : Z) :
  (∀ e, e ∈ recent h (trade_kolWallet t) → e.1 < trade_timestamp t) →
  1 ≤ limit →
  head (getRecentKOLTrades environment (store h t) (trade_kolWallet t)
          limit) = Some t.
Proof.
  intros Hnew Hl. unfold getRecentKOLTrades. cbv zeta.
  rewrite zrevrange_limit by done.
  rewrite kolRecent_store, decide_True by done.
  unfold zadd. rewrite zinsert_last.
  2:{ intros x Hx. apply elem_of_List_filter in Hx as [Hx _].
      specialize (Hnew x Hx). unfold zless. cbn [fst snd].
      assert ((trade_timestamp t <? x.1) = false) as ->
        by (apply Z.ltb_ge; lia).
      assert ((trade_timestamp t =? x.1) = false) as ->
        by (apply Z.eqb_neq; lia).
      done. }
  set (s := List.filter _ _).
  assert (∃ l, drop (length (s ++ [(trade_timestamp t, trade_id t)]) - 100)
                 (s ++ [(trade_timestamp t, trade_id t)])
               = l ++ [(trade_timestamp t, trade_id t)]) as [l ->].
  { rewrite length_app. cbn [length].
    exists (drop (length s + 1 - 100) s).
    rewrite drop_app_le by lia. done. }
  rewrite reverse_app. cbn [reverse rev_append app].
  change (reverse [(trade_timestamp t, trade_id t)])
    with [(trade_timestamp t, trade_id t)].
  cbn [app]. destruct (Z.to_nat limit) as [|n] eqn:En; [lia|].
  cbn [take map snd]. cbn.
  unfold storeKOLTrade. cbv zeta. cbn [tradeRecords].
  by rewrite lookup_insert_eq.
Qed.

(** X27.  A limit of zero is no limit: [getRecentKOLTrades] with limit 0
    returns what it returns with any limit that covers the whole sorted
    set, while a limit of at least one bounds the number of trades
    returned. *)
Theorem getRecentKOLTrades_limit (h : TradeStore) (wallet : string)
    (limit : Z) :
  Z.of_nat (length (recent h wallet)) ≤ limit → 1 ≤ limit →
  getRecentKOLTrades environment h wallet 0
  = getRecentKOLTrades environment h wallet limit
  ∧ ∀ n, 1 ≤ n →
      Z.of_nat (length (getRecentKOLTrades environment h wallet n)) ≤ n.
Proof.
  intros Hcover Hl. split.
  - unfold getRecentKOLTrades. cbv zeta.
    rewrite zrevrange_all, zrevrange_limit by done.
    rewrite take_ge; [done|]. rewrite length_reverse. lia.
  - intros n Hn. unfold getRecentKOLTrades. cbv zeta.
    rewrite zrevrange_limit by done.
    pose proof (length_omap_le
                  (λ tradeId, tradeRecords h
                                !! tradeKey environment wallet tradeId)
                  (map snd (take (Z.to_nat n) (reverse (recent h wallet)))))
      as H.
    rewrite length_map, length_take in H. lia.
Qed.

(** *** The order of the answers *)

Lemma tradeKey_inj (w w' i i' : string) :
  colonFree i → colonFree i' →
  tradeKey environment w i = tradeKey environment w' i' → w = w' ∧ i = i'.
Proof.
  intros Hi Hi' H. unfold tradeKey in H. apply getRedisKey_inj in H.
  apply append_inj_r in H. by apply colonFree_split.
Qed.

Lemma tradeKey_inj_id (w i i' : string) :
  tradeKey environment w i = tradeKey environment w i' → i = i'.
Proof.
  intros H. unfold tradeKey in H. apply getRedisKey_inj in H.
  by do 3 apply append_inj_r in H.
Qed.

Lemma historyInv_empty (P : KOLTrade → Prop) :
  historyInv environment P emptyTradeStore.
Proof.
  intros wallet. unfold kolRecent. cbn [recentByKol emptyTradeStore].
  rewrite lookup_empty. cbn [default from_option]. split; [constructor|].
  intros e He. by apply elem_of_nil in He.
Qed.

Lemma historyInv_store (P : KOLTrade → Prop) (h : TradeStore)
    (t : KOLTrade) :
  colonFree (trade_id t) → P t →
  historyInv environment P h → historyInv environment P (store h t).
Proof.
  intros Hcf HP Hinv wallet. rewrite kolRecent_store.
  destruct (decide (wallet = trade_kolWallet t)) as [->|Hw].
  - destruct (Hinv (trade_kolWallet t)) as [Hs He]. split.
    + apply StronglySorted_drop, zinsert_sorted, StronglySorted_filter, Hs.
    + intros e Hin. apply elem_of_drop in Hin.
      apply elem_of_zinsert in Hin as [->|Hin].
      * cbn [fst snd]. split; [done|]. exists t.
        unfold storeKOLTrade. cbv zeta. cbn [tradeRecords].
        by rewrite lookup_insert_eq.
      * apply elem_of_List_filter in Hin as [Hin Hne].
        apply negb_true_iff, String.eqb_neq in Hne.
        destruct (He e Hin) as (Hc & t' & Hl & Ht).
        split; [done|]. exists t'. split; [|done].
        unfold storeKOLTrade. cbv zeta. cbn [tradeRecords].
        rewrite lookup_insert_ne; [done|]. intros Hk.
        by apply tradeKey_inj_id in Hk.
  - destruct (Hinv wallet) as [Hs He]. split; [done|].
    intros e Hin. destruct (He e Hin) as (Hc & t' & Hl & Ht).
    split; [done|]. exists t'. split; [|done].
    unfold storeKOLTrade. cbv zeta. cbn [tradeRecords].
    rewrite lookup_insert_ne; [done|]. intros Hk.
    apply tradeKey_inj in Hk as [Hk _]; done.
Qed.

Lemma historyInv_storeAll (P : KOLTrade → Prop) (trades : list KOLTrade)
    (h : TradeStore) :
  Forall (λ t, colonFree (trade_id t) ∧ P t) trades →
  historyInv environment P h →
  historyInv environment P (fold_left store trades h).
Proof.
  revert h. induction trades as [|t trades IH]; intros h Hall Hinv; [done|].
  apply Forall_cons in Hall as [[Hc HP] Hall]. cbn [fold_left].
  apply IH; [done|]. by apply historyInv_store.
Qed.

(** X28.  In every history built by [storeKOLTrade] from trades whose
    ids hold no colon, [getRecentKOLTrades] answers, for every wallet and
    every limit, with trades in descending order of their instants, each
    a stored trade of that wallet. *)
Theorem getRecentKOLTrades_sorted (trades : list KOLTrade)
    (wallet : string) (limit : Z) :
  Forall (λ t, colonFree (trade_id t)) trades →
  StronglySorted (λ a b, trade_timestamp b ≤ trade_timestamp a)
    (getRecentKOLTrades environment
       (storeAll environment stringify trades) wallet limit)
  ∧ Forall (λ t, trade_kolWallet t = wallet ∧ t ∈ trades)
      (getRecentKOLTrades environment
         (storeAll environment stringify trades) wallet limit).
Proof.
  intros Hcf.
  assert (historyInv environment (λ t, t ∈ trades)
            (storeAll environment stringify trades)) as Hinv.
  { apply historyInv_storeAll; [|apply historyInv_empty].
    apply Forall_forall. intros t Ht. split; [|done].
    by apply (proj1 (Forall_forall _ _) Hcf). }
  destruct (Hinv wallet) as [Hs He].
  unfold getRecentKOLTrades, zrevrange. cbv zeta.
  destruct (zrangeBounds _ _ _) as [[off cnt]|]; [|split; constructor].
  apply omap_sorted.
  - apply StronglySorted_take, StronglySorted_drop.
    by apply StronglySorted_reverse.
  - intros e Hin. apply elem_of_take, elem_of_drop in Hin.
    rewrite elem_of_reverse in Hin.
    destruct (He e Hin) as (_ & t & Hl & Hts & Hw & HP). by exists t.
Qed.

End TradeHistoryFacts.

(** Stored after its two earlier trades, the sample trade is the first of
    the history of K1. *)
Lemma getRecentKOLTrades_newest_first_witness :
  head (getRecentKOLTrades Sample.env
          (storeKOLTrade Sample.env trade_signature
             (storeAll Sample.env trade_signature
                [MoreSamples.tradeOld; MoreSamples.tradeMid])
             MoreSamples.tradeT) "K1" 10)
  = Some MoreSamples.tradeT.
Proof.
  apply (getRecentKOLTrades_newest_first Sample.env trade_signature
           (storeAll Sample.env trade_signature
              [MoreSamples.tradeOld; MoreSamples.tradeMid])
           MoreSamples.tradeT 10).
  - intros e He.
    change (e ∈ [(1699999000000, "uuid-0"); (1699999500000, "uuid-2")])
      in He.
    apply elem_of_cons in He as [->|He]; [cbn; lia|].
    apply list_elem_of_singleton in He as ->. cbn. lia.
  - lia.
Defined.

Lemma getRecentKOLTrades_limit_witness :
  getRecentKOLTrades Sample.env
    (storeKOLTrade Sample.env trade_signature emptyTradeStore
       MoreSamples.tradeT) "K1" 0
  = getRecentKOLTrades Sample.env
      (storeKOLTrade Sample.env trade_signature emptyTradeStore
         MoreSamples.tradeT) "K1" 10.
Proof.
  apply (getRecentKOLTrades_limit Sample.env
           (storeKOLTrade Sample.env trade_signature emptyTradeStore
              MoreSamples.tradeT) "K1" 10).
  - vm_compute. discriminate.
  - lia.
Defined.

(** Three trades of K1 stored out of order come back newest first. *)
Lemma getRecentKOLTrades_sorted_witness :
  (StronglySorted (λ a b, trade_timestamp b ≤ trade_timestamp a)
     (getRecentKOLTrades Sample.env
        (storeAll Sample.env trade_signature
           [MoreSamples.tradeMid; MoreSamples.tradeT; MoreSamples.tradeOld])
        "K1" 10)
   ∧ Forall (λ t, trade_kolWallet t = "K1"
                  ∧ t ∈ [MoreSamples.tradeMid; MoreSamples.tradeT;
                         MoreSamples.tradeOld])
       (getRecentKOLTrades Sample.env
          (storeAll Sample.env trade_signature
             [MoreSamples.tradeMid; MoreSamples.tradeT; MoreSamples.tradeOld])
          "K1" 10))
  ∧ getRecentKOLTrades Sample.env
      (storeAll Sample.env trade_signature
         [MoreSamples.tradeMid; MoreSamples.tradeT; MoreSamples.tradeOld])
      "K1" 10
    = [MoreSamples.tradeT; MoreSamples.tradeMid; MoreSamples.tradeOld].
Proof.
  split; [|by vm_compute].
  apply (getRecentKOLTrades_sorted Sample.env trade_signature
           [MoreSamples.tradeMid; MoreSamples.tradeT; MoreSamples.tradeOld]
           "K1" 10).
  repeat apply List.Forall_cons; try apply List.Forall_nil; intros a b H;
    destruct a as [|c1 [|c2 [|c3 [|c4 [|c5 [|c6 [|c7 a]]]]]]];
    vm_compute in H; discriminate H.
Defined.

(** ** Message retry *)

Section MessagingFacts.

Variable retryAttempts : Z.
Variable retryDelayMs : Z.

Lemma deliveries_failing (handlers : list MessageHandler)
    (message : RabbitMQMessage) (n extra : nat) (c : Z) :
  (∀ k, ∃ handler,
     List.find (λ handler, canHandle handler (atRetry message k)) handlers
     = Some handler
     ∧ handle handler (atRetry message k) = false) →
  n = Z.to_nat (retryAttempts - c) →
  deliveries retryAttempts retryDelayMs (S n + extra) handlers
    (atRetry message c)
  = (map (λ i, retryDelay retryDelayMs (c + Z.of_nat i)) (seq 0 n),
     Some DeadLettered).
Proof.
  intros Hfail. revert c. induction n as [|n IH]; intros c Hn.
  - cbn [deliveries Nat.add]. unfold handleIncomingMessage.
    destruct (Hfail c) as (h & -> & ->). cbn [retryCount atRetry].
    assert ((c <? retryAttempts) = false) as -> by (apply Z.ltb_ge; lia).
    done.
  - change (S (S n) + extra)%nat with (S (S n + extra)).
    cbn [deliveries]. unfold handleIncomingMessage.
    destruct (Hfail c) as (h & -> & ->). cbn [retryCount atRetry].
    assert ((c <? retryAttempts) = true) as -> by (apply Z.ltb_lt; lia).
    unfold retryMessage. cbn [retryCount atRetry msg_id msg_type].
    change (atRetry (atRetry message c) (c + 1))
      with (atRetry message (c + 1)).
    rewrite (IH (c + 1)) by lia. cbn [fst snd seq map].
    rewrite Z.add_0_r. f_equal. f_equal. rewrite <- seq_shift, map_map.
    apply map_ext. intros i. f_equal. lia.
Qed.

(** X30.  A message whose handler fails at every delivery is tried
    [retryAttempts] times more and then sent to the dead letter queue:
    counting from a retry count [c], it is delivered
    [retryAttempts - c + 1] times (once when that is not positive), the
    waits between the deliveries are [retryDelayMs] times 2 to the power
    of the successive retry counts, and no fuel beyond that number of
    deliveries is needed. *)
Theorem deliveries_dead_letter (handlers : list MessageHandler)
    (message : RabbitMQMessage) (extra : nat) :
  (∀ k, ∃ handler,
     List.find (λ handler, canHandle handler (atRetry message k)) handlers
     = Some handler
     ∧ handle handler (atRetry message k) = false) →
  deliveries retryAttempts retryDelayMs
    (S (Z.to_nat (retryAttempts - retryCount message)) + extra) handlers
    message
  = (map (λ i, retryDelay retryDelayMs (retryCount message + Z.of_nat i))
       (seq 0 (Z.to_nat (retryAttempts - retryCount message))),
     Some DeadLettered).
Proof.
  intros Hfail.
  assert (message = atRetry message (retryCount message)) as Hm
    by (by destruct message).
  rewrite Hm at 2.
  by apply deliveries_failing.
Qed.

End MessagingFacts.

(** Three retries at one second: waits of 1, 2 and 4 seconds, then the
    dead letter queue. *)
Lemma deliveries_dead_letter_witness :
  deliveries 3 1000 4
    [ {| canHandle := λ _, true; handle := λ _, false |} ]
    {| msg_id := "m"; msg_type := "subscription.create"; retryCount := 0 |}
  = ([Js.Fin 1000; Js.Fin 2000; Js.Fin 4000], Some DeadLettered).
Proof.
  apply (deliveries_dead_letter 3 1000
           [ {| canHandle := λ _, true; handle := λ _, false |} ]
           {| msg_id := "m"; msg_type := "subscription.create";
              retryCount := 0 |} 0).
  intros k. by eexists.
Defined.

(** ** Swap classifier: the payload of one user *)




Lemma isZero_add_zero (x : Js.num) :
  Js.isZero (Js.add (Js.ofZ 0) x) = Js.isZero x.
Proof.
  destruct x as [q|]; [|done]. cbn [Js.isZero Js.add Js.ofZ].
  apply Qeqb_comp; [|reflexivity].
  rewrite Qred_correct. apply Qplus_0_l.
Qed.

Lemma abs_add_zero (q : Q) :
  Js.abs (Js.add (Js.ofZ 0) (Js.Fin q)) = Js.Fin (Qred (Qabs q)).
Proof.
  cbn [Js.abs Js.add Js.ofZ]. f_equal. apply Qred_complete.
  rewrite Qred_correct. change (inject_Z 0) with 0%Q. by rewrite Qplus_0_l.
Qed.

Section SignedAmounts.

Variable Number : string → Js.num.


End SignedAmounts.

(** *** The mint map of a user depends on the user's changes alone *)

Lemma addChange_get (uc : UserChanges) (user mint : string) (delta : Js.num)
    (W : string) :
  Js.get (addChange uc user mint delta) W
  = if String.eqb user W then addToMintMap (Js.get uc W) mint delta
    else Js.get uc W.
Proof.
  unfold addChange, addToMintMap. cbv zeta.
  destruct (String.eqb_spec user W) as [->|Hne].
  - rewrite get_set_eq. unfold Js.has.
    destruct (Js.get uc W) as [mm|] eqn:E; [by rewrite E|].
    by rewrite get_set_eq.
  - rewrite get_set_ne by done.
    destruct (Js.has uc user); [done | by rewrite get_set_ne].
Qed.

Section UserChangesFacts.

Variable Number : string → Js.num.

Lemma tokenChanges_get (tbcs : list TokenBalanceChange) (uc : UserChanges)
    (W : string) :
  Js.get (fold_left (addTokenChange Number) tbcs uc) W
  = fold_left (addTokenTo Number)
      (List.filter (λ tbc, String.eqb (userAccount tbc) W) tbcs)
      (Js.get uc W).
Proof.
  revert uc. induction tbcs as [|tbc tbcs IH]; intros uc; [done|].
  cbn [fold_left List.filter]. rewrite IH. unfold addTokenChange.
  rewrite addChange_get.
  by destruct (String.eqb (userAccount tbc) W).
Qed.

Lemma tokenLoop_get (accs : list Account) (uc uc' : UserChanges)
    (W : string) :
  tokenLoop Number accs uc = Some uc' →
  Js.get uc' W
  = fold_left (addTokenTo Number)
      (List.filter (λ tbc, String.eqb (userAccount tbc) W)
         (concat (map (λ acc, default [] (tokenBalanceChanges acc)) accs)))
      (Js.get uc W).
Proof.
  revert uc. induction accs as [|acc accs IH]; intros uc; cbn [tokenLoop].
  - by intros [= <-].
  - destruct (tokenBalanceChanges acc) as [tbcs|] eqn:E;
      cbn [mbind option_bind]; [|done].
    intros H. rewrite (IH _ H), tokenChanges_get.
    cbn [map concat]. rewrite E. cbn [default].
    by rewrite List.filter_app, fold_left_app.
Qed.

Lemma nativeChanges_get (accs : list Account) (uc : UserChanges)
    (W : string) :
  Js.get (fold_left addNativeChange accs uc) W
  = fold_left addNativeTo
      (map nativeBalanceChange
         (List.filter
            (λ acc, String.eqb (account acc) W
                    && negb (nativeBalanceChange acc =? 0))
            accs))
      (Js.get uc W).
Proof.
  revert uc. induction accs as [|acc accs IH]; intros uc; [done|].
  cbn [fold_left List.filter]. rewrite IH. unfold addNativeChange.
  destruct (nativeBalanceChange acc =? 0) eqn:Ez.
  - by rewrite andb_false_r.
  - rewrite addChange_get, andb_true_r.
    by destruct (String.eqb (account acc) W).
Qed.

(** The mint map [parseSwap] builds for a user is the one the user's own
    changes give. *)
Lemma buildUserChanges_get (tx : TransactionData) (uc : UserChanges)
    (W : string) :
  buildUserChanges Number tx = Some uc →
  Js.get uc W
  = mintMapOf Number (tokenChangesOf tx W) (nativeChangesOf tx W).
Proof.
  unfold buildUserChanges, mintMapOf, tokenChangesOf, nativeChangesOf.
  destruct (accountData tx) as [accs|]; cbn [mbind option_bind]; [|done].
  destruct (tokenLoop Number accs []) as [uc1|] eqn:E;
    cbn [mbind option_bind]; [|done].
  intros [= <-]. rewrite nativeChanges_get, (tokenLoop_get _ _ _ _ E).
  done.
Qed.

Lemma parseSwap_mintMapOf (tx : TransactionData) (W : string) :
  wellShaped tx → W ≠ "" →
  parseSwap Number tx (Some W)
  = match mintMapOf Number (tokenChangesOf tx W) (nativeChangesOf tx W) with
    | Some changes => classifyChanges changes
    | None => EmptySwap
    end.
Proof.
  intros Hshape HW.
  destruct (parseSwapBody_wellShaped Number tx (Some W) Hshape) as [r Hr].
  unfold parseSwap. rewrite Hr. cbn [default].
  unfold parseSwapBody in Hr.
  destruct (buildUserChanges Number tx) as [uc|] eqn:E;
    cbn [mbind option_bind] in Hr; [|done].
  rewrite <- (buildUserChanges_get tx uc W E).
  unfold userToCheck in Hr. apply String.eqb_neq in HW. rewrite HW in Hr.
  destruct (Js.get uc W); by injection Hr as <-.
Qed.

(** *** How many non-native entries the map has *)









End UserChangesFacts.

(** *** One token change and at most one native change *)

Lemma abs_lamports (l : Z) :
  Js.abs (Js.add (Js.ofZ 0) (Js.div (Js.ofZ l) (Js.ofZ 1000000000)))
  = Js.Fin (Qred (inject_Z (Z.abs l) / inject_Z 1000000000)).
Proof.
  change (Js.div (Js.ofZ l) (Js.ofZ 1000000000))
    with (Js.Fin (Qred (inject_Z l / inject_Z 1000000000))).
  rewrite abs_add_zero. f_equal. apply Qred_complete.
  rewrite Qred_correct.
  unfold Qeq, Qabs, Qdiv, Qmult, Qinv, inject_Z. cbn [Qnum Qden]. lia.
Qed.

Lemma isZero_lamports (l : Z) :
  Js.isZero (Js.add (Js.ofZ 0) (Js.div (Js.ofZ l) (Js.ofZ 1000000000)))
  = (l =? 0).
Proof.
  rewrite isZero_add_zero.
  change (Js.div (Js.ofZ l) (Js.ofZ 1000000000))
    with (Js.Fin (Qred (inject_Z l / inject_Z 1000000000))).
  cbn [Js.isZero].
  rewrite (Qeqb_comp _ _ (Qred_correct _) _ _ (Qeq_refl _)).
  unfold Qeq_bool, Qdiv, Qmult, Qinv, inject_Z. cbn [Qnum Qden].
  destruct (Z.eqb_spec l 0) as [->|Hne]; [done|].
  apply Z.eqb_neq. lia.
Qed.

Lemma nativeChangesOf_single (tx : TransactionData) (W : string) :
  (length (nativeChangesOf tx W) ≤ 1)%nat →
  nativeChangesOf tx W
  = if nativeDelta tx W =? 0 then [] else [nativeDelta tx W].
Proof.
  assert (Forall (λ l, l ≠ 0) (nativeChangesOf tx W)) as Hnz.
  { unfold nativeChangesOf. apply Forall_forall. intros l Hl.
    apply list_elem_of_fmap in Hl as (acc & -> & Ha).
    apply elem_of_List_filter in Ha as [_ Ha].
    apply andb_true_iff in Ha as [_ Ha].
    by apply negb_true_iff, Z.eqb_neq in Ha. }
  unfold nativeDelta.
  destruct (nativeChangesOf tx W) as [|l [|l' rest]]; cbn [length foldr];
    [done| |lia].
  intros _. apply Forall_cons in Hnz as [Hl _].
  rewrite Z.add_0_r. by apply Z.eqb_neq in Hl as ->.
Qed.

Section SingleChange.

Variable Number : string → Js.num.

(** The record for a user with one token change, of delta [d], and a
    native change of [lamports], in terms of the signs of the two. *)
Lemma parseSwap_single_change (tx : TransactionData) (W : string)
    (tbc : TokenBalanceChange) :
  wellShaped tx → W ≠ "" →
  tokenChangesOf tx W = [tbc] → tbc_mint tbc ≠ SOL_MINT →
  (length (nativeChangesOf tx W) ≤ 1)%nat →
  let d := toHuman Number (tokenAmount (rawTokenAmount tbc))
             (decimals (rawTokenAmount tbc)) in
  let lamports := nativeDelta tx W in
  parseSwap Number tx (Some W)
  = if (lamports =? 0) || Js.isZero d then EmptySwap
    else Swap (if (lamports <? 0) && Js.gt d (Js.ofZ 0) then buy
               else if Js.lt d (Js.ofZ 0) && (0 <? lamports) then sell
               else unknown)
           (tbc_mint tbc) (Js.abs (Js.add (Js.ofZ 0) d))
           (Js.Fin (Qred (inject_Z (Z.abs lamports) / inject_Z 1000000000))).
Proof.
  intros Hshape HW Htok HM Hnat d lamports.
  rewrite parseSwap_mintMapOf by done.
  rewrite Htok, (nativeChangesOf_single tx W Hnat).
  fold lamports. apply String.eqb_neq in HM.
  unfold mintMapOf, addTokenTo, addToMintMap. cbv zeta.
  cbn [fold_left default Js.get Js.set Js.orZero]. fold d.
  destruct (Z.eqb_spec lamports 0) as [Hz|Hz].
  - cbn [fold_left orb]. unfold classifyChanges, tokenEntries, solChange.
    cbn [List.filter fst Js.get]. by rewrite HM.
  - cbn [fold_left orb]. unfold addNativeTo, addToMintMap. cbv zeta.
    cbn [default from_option Datatypes.id Js.get Js.set]. rewrite HM.
    cbn [Js.orZero Js.set].
    unfold classifyChanges, tokenEntries, solChange.
    cbn [List.filter fst Js.get]. rewrite HM, String.eqb_refl.
    cbn [negb Js.get Js.nullishZero List.filter].
    rewrite isZero_lamports, isZero_add_zero.
    apply Z.eqb_neq in Hz as ->. cbn [orb].
    destruct (Js.isZero d); [done|].
    rewrite JsFacts.lt_add_zero, !JsFacts.gt_add_zero,
      JsFacts.lt_add_zero, JsFacts.lamports_lt_zero,
      JsFacts.lamports_gt_zero, abs_lamports.
    done.
Qed.


End SingleChange.

(** *** Payloads with one account *)

Lemma wellShaped_singleSwapTx (W M : string) (lamports : Z) (raw : string)
    (dec : Z) :
  wellShaped (singleSwapTx W M lamports raw dec).
Proof.
  eexists. split; [reflexivity|]. intros acc Hin.
  apply list_elem_of_singleton in Hin as ->. by eexists.
Qed.


Lemma nativeChangesOf_singleSwapTx (W M : string) (lamports : Z)
    (raw : string) (dec : Z) :
  nativeChangesOf (singleSwapTx W M lamports raw dec) W
  = if lamports =? 0 then [] else [lamports].
Proof.
  unfold nativeChangesOf, singleSwapTx.
  cbn [accountData default from_option Datatypes.id List.filter account
       nativeBalanceChange].
  rewrite String.eqb_refl. cbn [andb]. by destruct (lamports =? 0).
Qed.

Lemma nativeDelta_singleSwapTx (W M : string) (lamports : Z) (raw : string)
    (dec : Z) :
  (length (nativeChangesOf (singleSwapTx W M lamports raw dec) W) ≤ 1)%nat
  ∧ nativeDelta (singleSwapTx W M lamports raw dec) W = lamports.
Proof.
  unfold nativeDelta. rewrite nativeChangesOf_singleSwapTx.
  destruct (Z.eqb_spec lamports 0) as [->|Hne]; cbn [length foldr];
    split; lia.
Qed.

Section Classification.

Variable Number : string → Js.num.



End Classification.




(** *** Amounts that [Number] cannot read *)

Lemma addToMintMap_lookup (changes : option (Js.Map Js.num)) (mint : string)
    (delta : Js.num) :
  (addToMintMap changes mint delta ≫= λ mm, Js.get mm mint)
  = Some (Js.add (Js.orZero (changes ≫= λ mm, Js.get mm mint)) delta).
Proof.
  unfold addToMintMap. cbv zeta. cbn [mbind option_bind].
  rewrite get_set_eq. by destruct changes.
Qed.

(** C6 on the code.  [parseSwap] never raises: an exception in its body
    yields the empty record.  But an amount that [Number] cannot read is
    not taken as a change of zero.  On a payload in which it is the one
    token change of the user, next to a native change, the result is not
    the empty record but a record of side unknown whose token amount is
    [NaN].  In general the unreadable amount makes the net change of its
    mint [NaN], whatever was there, and the next change of the same mint
    starts again from zero, so that everything before it is lost: the
    changes "abc" give a record with the amount [NaN] where reading them
    as zero gives the empty record, and the changes "5", "abc", "7" give a
    buy of 7 where reading "abc" as zero gives a buy of 12. *)
Theorem parseSwap_malformed_amount (Number : string → Js.num) :
  (∀ (tx : TransactionData) (target : option string),
     parseSwapBody Number tx target = None →
     parseSwap Number tx target = EmptySwap)
  ∧ (∀ (tx : TransactionData) (W : string) (tbc : TokenBalanceChange),
       wellShaped tx → W ≠ "" →
       tokenChangesOf tx W = [tbc] → tbc_mint tbc ≠ SOL_MINT →
       (length (nativeChangesOf tx W) ≤ 1)%nat → nativeDelta tx W ≠ 0 →
       Number (Js.removeFirstDash (tokenAmount (rawTokenAmount tbc)))
       = Js.NaN →
       parseSwap Number tx (Some W)
       = Swap unknown (tbc_mint tbc) Js.NaN
           (Js.Fin (Qred (inject_Z (Z.abs (nativeDelta tx W))
                          / inject_Z 1000000000))))
  ∧ (∀ (changes : option (Js.Map Js.num)) (mint raw : string) (dec : Z),
       Number (Js.removeFirstDash raw) = Js.NaN →
       (addToMintMap changes mint (toHuman Number raw dec)
        ≫= λ mm, Js.get mm mint) = Some Js.NaN)
  ∧ (∀ (changes : option (Js.Map Js.num)) (mint : string) (delta : Js.num),
       (changes ≫= λ mm, Js.get mm mint) = Some Js.NaN →
       (addToMintMap changes mint delta ≫= λ mm, Js.get mm mint)
       = Some (Js.add (Js.ofZ 0) delta))
  ∧ parseSwap Js.NumberOfDigits
      (singleSwapTx "W" "M" (-50000000) "abc" 6) (Some "W")
    = Swap unknown "M" Js.NaN (Js.Fin (1 # 20))
  ∧ parseSwap (zeroOnFailure Js.NumberOfDigits)
      (singleSwapTx "W" "M" (-50000000) "abc" 6) (Some "W")
    = EmptySwap
  ∧ parseSwap Js.NumberOfDigits
      (MoreSamples.manyChangesTx (-50000000) ["5"; "abc"; "7"]) (Some "W")
    = Swap buy "M" (Js.Fin 7) (Js.Fin (1 # 20))
  ∧ parseSwap (zeroOnFailure Js.NumberOfDigits)
      (MoreSamples.manyChangesTx (-50000000) ["5"; "abc"; "7"]) (Some "W")
    = Swap buy "M" (Js.Fin 12) (Js.Fin (1 # 20)).
Proof.
  split; [|split; [|split; [|split]]].
  - intros tx target H. unfold parseSwap. by rewrite H.
  - intros tx W tbc Hshape HW Htok HM Hnat Hl HN.
    rewrite (parseSwap_single_change Number tx W tbc) by done. cbv zeta.
    rewrite (toHuman_NaN Number _ _ HN).
    apply Z.eqb_neq in Hl as ->. cbn [orb Js.isZero].
    unfold Js.gt. cbn [Js.lt Js.add Js.abs Js.ofZ].
    by rewrite andb_false_r.
  - intros changes mint raw dec HN.
    by rewrite addToMintMap_lookup, (toHuman_NaN Number _ _ HN), add_NaN_r.
  - intros changes mint delta H. by rewrite addToMintMap_lookup, H.
  - repeat split; reflexivity.
Qed.

(** The payload whose one token change reads "abc". *)
Lemma parseSwap_malformed_amount_witness :
  parseSwap Js.NumberOfDigits
    (singleSwapTx "W" "M" (-50000000) "abc" 6) (Some "W")
  = Swap unknown "M" Js.NaN (Js.Fin (1 # 20)).
Proof.
  destruct (parseSwap_malformed_amount Js.NumberOfDigits) as (_ & H & _).
  destruct (nativeDelta_singleSwapTx "W" "M" (-50000000) "abc" 6)
    as [Hlen Hdelta].
  rewrite (H (singleSwapTx "W" "M" (-50000000) "abc" 6) "W"
             {| tbc_mint := "M";
                rawTokenAmount := {| decimals := 6; tokenAmount := "abc" |};
                tokenAccount := ""; userAccount := "W" |}).
  - reflexivity.
  - apply wellShaped_singleSwapTx.
  - discriminate.
  - reflexivity.
  - discriminate.
  - exact Hlen.
  - rewrite Hdelta. lia.
  - reflexivity.
Defined.
